(** * adjust_score.c: the scores file of curdle

    A shallow embedding of [adjust_score.c] and the properties of its
    record format, score parser, record scan and update engine.

    - Bytes are [ascii]. A C buffer is a [list ascii] read by index, a
      read past its end seeing the terminator; a C string is a buffer read
      up to its first terminator.
    - C integers are [Z], with the wrap-around of [int] and [long]
      written out where the source narrows or adds; [long] has 64 bits.
    - [isspace] is that of the C locale.
    - The scores file and the stream opened on it live in a [world] that
      a state monad threads through the calls. The world decides whether
      [fopen] succeeds and, call by call, whether [fseek] and [fwrite]
      do; it keeps a trace of the I/O done, the lines printed on the
      standard output and the standard error among it. [getline] fails at
      the end of the file only, and [malloc] does not fail.
    - The loop of [find_record] runs on fuel, one unit per line of the
      file and one for its end; [find_record_total] shows that the fuel
      never runs out. *)

From Stdlib Require Import String Ascii ZArith List Bool Lia.
Import ListNotations.
Local Open Scope Z_scope.

(** ** Characters and machine integers *)

Definition code (c : ascii) : Z := Z.of_N (N_of_ascii c).
Definition chr (z : Z) : ascii := ascii_of_N (Z.to_N z).

Definition NUL : ascii := "000"%char.
Definition LF : ascii := "010"%char.

(** [isspace] of <ctype.h> in the C locale: space, \t, \n, \v, \f, \r. *)
Definition isspace (c : ascii) : bool :=
  (code c =? 32) || ((9 <=? code c) && (code c <=? 13)).

Definition isdigit (c : ascii) : bool :=
  (48 <=? code c) && (code c <=? 57).

Definition INT_MAX : Z := 2147483647.
Definition INT_MIN : Z := -2147483648.
Definition LONG_MAX : Z := 9223372036854775807.
Definition LONG_MIN : Z := -9223372036854775808.

(** Two's complement wrap-around of a [w]-bit signed integer. *)
Definition wrap (w : Z) (z : Z) : Z :=
  (z + 2 ^ (w - 1)) mod 2 ^ w - 2 ^ (w - 1).
Definition wrap_int : Z -> Z := wrap 32.
Definition wrap_long : Z -> Z := wrap 64.

(** ** Constants of the source *)

Definition SIZE : nat := 40.
Definition FIELD_SIZE : nat := 10.
Definition REC_SIZE : nat := FIELD_SIZE * 2 + 1.
Definition SCORE_LOW_BOUND : Z := -999999999.
Definition FILENAME : string := "file0".

Inductive score_errno : Type :=
| SCORE_VALID
| SCORE_OVERFLOW
| SCORE_UNDERFLOW
| SCORE_INVALID.

(** ** C buffers and <string.h> *)

(** [buf[i]] *)
Definition load (buf : list ascii) (i : nat) : ascii := nth i buf NUL.

(** [buf[i] = c] *)
Fixpoint store (buf : list ascii) (i : nat) (c : ascii) : list ascii :=
  match buf, i with
  | [], _ => []
  | _ :: b, O => c :: b
  | x :: b, S i' => x :: store b i' c
  end.

(** The [n] bytes starting at [buf]. *)
Definition bytes_at (buf : list ascii) (n : nat) : list ascii :=
  map (load buf) (seq 0 n).

Fixpoint strlen (s : list ascii) : nat :=
  match s with
  | [] => O
  | c :: s' => if (c =? NUL)%char then O else S (strlen s')
  end.

(** The contents of the [n]-byte destination after [strncpy(dst, src, n)]:
    the characters of [src] up to its terminator, then null padding. *)
Fixpoint strncpy (src : list ascii) (n : nat) : list ascii :=
  match n with
  | O => []
  | S n' =>
      match src with
      | [] => NUL :: strncpy [] n'
      | c :: src' =>
          if (c =? NUL)%char then NUL :: strncpy [] n' else c :: strncpy src' n'
      end
  end.

(** [strncmp(s1, s2, n)]: the difference of the first differing bytes. *)
Fixpoint strncmp (s1 s2 : list ascii) (n : nat) : Z :=
  match n with
  | O => 0
  | S n' =>
      let c1 := load s1 0 in
      let c2 := load s2 0 in
      if negb (c1 =? c2)%char then code c1 - code c2
      else if (c1 =? NUL)%char then 0
      else strncmp (tl s1) (tl s2) n'
  end.

(** ** strtol and snprintf *)

Fixpoint skip_space (s : list ascii) : list ascii :=
  match s with
  | c :: s' => if isspace c then skip_space s' else s
  | [] => []
  end.

(** The digits at the head of [s], accumulated in base 10, and what
    follows them. *)
Fixpoint strtol_digits (acc : Z) (s : list ascii) : Z * list ascii :=
  match s with
  | c :: s' =>
      if isdigit c then strtol_digits (acc * 10 + (code c - 48)) s' else (acc, s)
  | [] => (acc, [])
  end.

(** [strtol(nptr, &endptr, 10)]: the value, whether [errno] was set to
    [ERANGE], and [endptr]. *)
Definition strtol (nptr : list ascii) : Z * bool * list ascii :=
  let s := skip_space nptr in
  let '(neg, s1) :=
    match s with
    | c :: t =>
        if (c =? "-")%char then (true, t)
        else if (c =? "+")%char then (false, t)
        else (false, s)
    | [] => (false, s)
    end in
  if isdigit (load s1 0) then
    let '(v, rest) := strtol_digits 0 s1 in
    let v := if neg then - v else v in
    if v >? LONG_MAX then (LONG_MAX, true, rest)
    else if v <? LONG_MIN then (LONG_MIN, true, rest)
    else (v, false, rest)
  else (0, false, nptr).

(** The decimal digits of [n], least significant first. *)
Fixpoint rdigits (fuel : nat) (n : Z) : list Z :=
  match fuel with
  | O => []
  | S f => (n mod 10) :: (if n / 10 =? 0 then [] else rdigits f (n / 10))
  end.

Definition digit_char (d : Z) : ascii := chr (48 + d).

Definition utoa (n : Z) : list ascii :=
  map digit_char (rev (rdigits (S (Z.to_nat (Z.log2 n))) n)).

(** What ["%d"] prints. *)
Definition itoa (d : Z) : list ascii :=
  if d <? 0 then "-"%char :: utoa (- d) else utoa d.

(** [snprintf(buf, size, "%d", d)]: the return value and the buffer. *)
Definition snprintf_d (buf : list ascii) (size : nat) (d : Z) : Z * list ascii :=
  let s := itoa d in
  let out := firstn (size - 1) s ++ [NUL] in
  (Z.of_nat (length s), out ++ skipn (length out) buf).

(** ** The functions of adjust_score.c that do no I/O *)

Definition handle_message (error : string) : string :=
  String.substring 0 SIZE error.

Definition check_sum (old new : Z) : Z :=
  let sum := wrap_long (old + new) in
  if sum >? INT_MAX then 0
  else if sum <? SCORE_LOW_BOUND then 0
  else 1.

(** [score] is the value of [*score] on entry; the result carries its
    value on return. The source's test of [score_line] against [NULL] has
    no counterpart: a buffer is always there. *)
Definition score_strtol (score : Z) (score_line : list ascii) : score_errno * Z :=
  if (load score_line 0 =? NUL)%char || isspace (load score_line 0) then
    (SCORE_INVALID, score)
  else
    let '(score_long, erange, endptr) := strtol score_line in
    if (score_long >? INT_MAX) || (erange && (score_long =? LONG_MAX)) then
      (SCORE_OVERFLOW, score)
    else if (score_long <? SCORE_LOW_BOUND) || (erange && (score_long =? LONG_MIN)) then
      (SCORE_UNDERFLOW, score)
    else if negb (load endptr 0 =? NUL)%char then
      (SCORE_INVALID, score)
    else (SCORE_VALID, wrap_int score_long).

(** The value that [get_score] returns; [get_score_call] below is the
    call, with the line it prints when the score does not parse. *)
Definition get_score (line_buf : list ascii) : Z :=
  if negb (load line_buf (REC_SIZE - 1) =? LF)%char then INT_MIN
  else
    let score_int := 0 in
    let score := map (load line_buf) (seq 10 (REC_SIZE - 10)) in
    let score := store score FIELD_SIZE NUL in
    match score_strtol score_int score with
    | (SCORE_VALID, score_int) => wrap_int score_int
    | _ => INT_MIN
    end.

Definition match_name (player_name line_buf : list ascii) : Z :=
  if negb (load line_buf (FIELD_SIZE - 1) =? NUL)%char then 0
  else
    let name_in_line := map (load line_buf) (seq 0 FIELD_SIZE) in
    let name_in_line := store name_in_line (FIELD_SIZE - 1) NUL in
    if negb (strncmp player_name name_in_line FIELD_SIZE =? 0) then 0
    else 1.

Definition validate_name (player_name : list ascii) : Z :=
  let len := strlen player_name in
  if Z.of_nat len >? 10 then 0
  else if existsb isspace (bytes_at player_name len) then 0
  else 1.

(** ** The world: the scores file and the stream opened on it *)

(** What the environment does to the next [fseek] or [fwrite]: let it
    succeed, or make it fail; a failing [fwrite] gets [partial] bytes out
    first. *)
Inductive io_fault : Type :=
| IoOk
| IoFail (partial : nat).

Inductive event : Type :=
| EvOpen (ok : bool)
| EvSeek (ok : bool)
| EvRead (line : list ascii)
| EvWrite (bytes : list ascii)
| EvClose
| EvStdout (text : string)
| EvStderr (text : string).

(** The world holds one file, the scores file [FILENAME]; what the
    process prints on its two output streams goes to the trace. *)
Record world : Type := mkWorld {
  file_data : list ascii;     (* the bytes of the scores file *)
  can_open : bool;            (* whether the scores file can be opened *)
  stream : option nat;        (* file position of the open stream *)
  faults : list io_fault;     (* outcomes of the coming fseek and fwrite calls *)
  trace : list event          (* the I/O done so far, oldest first *)
}.

Definition set_data (d : list ascii) (w : world) : world :=
  mkWorld d (can_open w) (stream w) (faults w) (trace w).
Definition set_stream (p : option nat) (w : world) : world :=
  mkWorld (file_data w) (can_open w) p (faults w) (trace w).
Definition set_faults (f : list io_fault) (w : world) : world :=
  mkWorld (file_data w) (can_open w) (stream w) f (trace w).
Definition log (e : event) (w : world) : world :=
  mkWorld (file_data w) (can_open w) (stream w) (faults w) (trace w ++ [e]).

(** A computation on the world; [None] is a loop that ran out of fuel. *)
Definition IO (A : Type) : Type := world -> option (A * world).

Definition ret {A : Type} (a : A) : IO A := fun w => Some (a, w).
Definition bind {A B : Type} (m : IO A) (k : A -> IO B) : IO B :=
  fun w => match m w with
           | Some (a, w') => k a w'
           | None => None
           end.

Declare Scope io_scope.
Delimit Scope io_scope with io.
Notation "x <- m ;; k" := (bind m (fun x => k))
  (at level 61, m at next level, right associativity) : io_scope.
Notation "' p <- m ;; k" := (bind m (fun x => match x with p => k end))
  (at level 61, p pattern, m at next level, right associativity) : io_scope.
Notation "m ;; k" := (bind m (fun _ => k))
  (at level 61, right associativity) : io_scope.
Local Open Scope io_scope.

Inductive FILE : Type := FILE_scores.

Inductive whence : Type := SEEK_SET | SEEK_CUR | SEEK_END.

Definition next_fault (w : world) : io_fault * world :=
  match faults w with
  | [] => (IoOk, w)
  | f :: fs => (f, set_faults fs w)
  end.

(** The file after [bytes] are written at offset [pos]. *)
Definition pwrite (data : list ascii) (pos : nat) (bytes : list ascii) : list ascii :=
  firstn pos data ++ repeat NUL (pos - length data) ++ bytes
    ++ skipn (pos + length bytes) data.

(** The bytes up to and including the first newline, and the rest. *)
Fixpoint read_line (unread : list ascii) : list ascii * list ascii :=
  match unread with
  | [] => ([], [])
  | c :: rest =>
      if (c =? LF)%char then ([c], rest)
      else let '(l, r) := read_line rest in (c :: l, r)
  end.

(** [fopen(filename, "r+")]: the stream at the start of the file, or
    [NULL]. *)
Definition fopen (filename : string) : IO (option FILE) := fun w =>
  if String.eqb filename FILENAME && can_open w then
    Some (Some FILE_scores, log (EvOpen true) (set_stream (Some O) w))
  else Some (None, log (EvOpen false) w).

Definition fclose (fp : FILE) : IO unit := fun w =>
  Some (tt, log EvClose (set_stream None w)).

Definition fseek (fp : FILE) (offset : Z) (origin : whence) : IO Z := fun w =>
  match stream w with
  | None => Some (-1, log (EvSeek false) w)
  | Some pos =>
      let '(f, w1) := next_fault w in
      let base := match origin with
                  | SEEK_SET => 0
                  | SEEK_CUR => Z.of_nat pos
                  | SEEK_END => Z.of_nat (length (file_data w))
                  end in
      match f with
      | IoOk =>
          if base + offset <? 0 then Some (-1, log (EvSeek false) w1)
          else Some (0, log (EvSeek true) (set_stream (Some (Z.to_nat (base + offset))) w1))
      | IoFail _ => Some (-1, log (EvSeek false) w1)
      end
  end.

(** [getline(&line_buf, &line_buf_size, fp)]: the line size and the
    buffer; at end of file -1 and the buffer as it was. *)
Definition getline (line_buf : list ascii) (fp : FILE) : IO (Z * list ascii) := fun w =>
  match stream w with
  | None => Some ((-1, line_buf), w)
  | Some pos =>
      match skipn pos (file_data w) with
      | [] => Some ((-1, line_buf), log (EvRead []) w)
      | unread =>
          let l := fst (read_line unread) in
          Some ((Z.of_nat (length l), l),
                log (EvRead l) (set_stream (Some (pos + length l)%nat) w))
      end
  end.

(** [fwrite(ptr, size, 1, fp)] *)
Definition fwrite (ptr : list ascii) (size : nat) (fp : FILE) : IO Z := fun w =>
  match stream w with
  | None => Some (0, w)
  | Some pos =>
      let '(f, w1) := next_fault w in
      let put bytes :=
        log (EvWrite bytes)
          (set_stream (Some (pos + length bytes)%nat)
             (set_data (pwrite (file_data w) pos bytes) w1)) in
      match f with
      | IoOk => Some (1, put (bytes_at ptr size))
      | IoFail partial =>
          Some (0, put (firstn (Nat.min partial (size - 1)) (bytes_at ptr size)))
      end
  end.

(** [printf] of [text] on the standard output, [fprintf] of it on the
    standard error. *)
Definition printf (text : string) : IO unit := fun w =>
  Some (tt, log (EvStdout text) w).

Definition fprintf_stderr (text : string) : IO unit := fun w =>
  Some (tt, log (EvStderr text) w).

Definition nl : string := String LF EmptyString.

(** ** The functions of adjust_score.c that work on the file *)

(** The call of [get_score]: what it prints, and its value. *)
Definition get_score_call (line_buf : list ascii) : IO Z :=
  if negb (load line_buf (REC_SIZE - 1) =? LF)%char then ret INT_MIN
  else
    let score_int := 0 in
    let score := map (load line_buf) (seq 10 (REC_SIZE - 10)) in
    let score := store score FIELD_SIZE NUL in
    match score_strtol score_int score with
    | (SCORE_VALID, score_int) => ret (wrap_int score_int)
    | _ => printf ("string to in fails" ++ nl) ;; ret INT_MIN
    end.

Definition write_score (fp : FILE) (player_name : list ascii) (score : Z)
    (file_pos : whence) (offset : Z) : IO Z :=
  let score_string := repeat NUL (FIELD_SIZE + 1) in
  let '(n, score_string) := snprintf_d score_string 11 score in
  if n <? 0 then ret 0
  else
    let score_string := store score_string FIELD_SIZE LF in
    r <- fseek fp offset file_pos ;;
    if negb (r =? -1) then
      n1 <- fwrite player_name FIELD_SIZE fp ;;
      if n1 <=? 0 then ret 0
      else
        n2 <- fwrite score_string (FIELD_SIZE + 1) fp ;;
        if n2 <=? 0 then ret 0 else ret 1
    else ret 0.

(** The [while] loop of [find_record], entered with the line that
    [getline] has just read. *)
Fixpoint find_record_loop (fuel : nat) (fp : FILE) (player_name : list ascii)
    (score_to_add : Z) (line_size : Z) (line_buf : list ascii) : IO Z :=
  match fuel with
  | O => fun _ => None
  | S fuel' =>
      if line_size >=? 0 then
        if negb (line_size =? 21) then
          '(line_size, line_buf) <- getline line_buf fp ;;
          find_record_loop fuel' fp player_name score_to_add line_size line_buf
        else if negb (match_name player_name line_buf =? 0) then
          current_score <- get_score_call line_buf ;;
          if current_score =? INT_MIN then ret (-1)
          else if negb (check_sum current_score score_to_add =? 0) then
            r <- write_score fp player_name (wrap_int (current_score + score_to_add))
                   SEEK_CUR (-21) ;;
            if negb (r =? 1) then ret (-1) else ret 1
          else ret (-1)
        else
          '(line_size, line_buf) <- getline line_buf fp ;;
          find_record_loop fuel' fp player_name score_to_add line_size line_buf
      else ret 0
  end.

(** The loop runs once per line of the file and once more at its end. *)
Definition find_record (fp : FILE) (player_name : list ascii) (score_to_add : Z) : IO Z :=
  let line_buf := [] in
  r <- fseek fp 0 SEEK_SET ;;
  if r =? -1 then ret (-1)
  else
    '(line_size, line_buf) <- getline line_buf fp ;;
    fun w =>
      find_record_loop (S (length (file_data w))) fp player_name score_to_add
        line_size line_buf w.

Definition adjust_score (uid : Z) (player_name : list ascii) (score_to_add : Z)
    : IO (Z * option string) :=
  if negb (validate_name player_name =? 1) then
    ret (0, Some (handle_message ("Player name invalid" ++ nl)))
  else
    fp <- fopen FILENAME ;;
    match fp with
    | None => ret (0, Some (handle_message "File open error"))
    | Some fp =>
        let name_to_search := strncpy player_name FIELD_SIZE in
        let name_to_search := store name_to_search (FIELD_SIZE - 1) NUL in
        find_player <- find_record fp name_to_search score_to_add ;;
        if find_player =? -1 then
          fclose fp ;;
          ret (0, Some (handle_message ("Error found in record" ++ nl)))
        else
          let finish := (fclose fp ;; ret (1, None)) in
          if find_player =? 0 then
            r <- fseek fp 0 SEEK_END ;;
            if r =? -1 then
              fclose fp ;;
              ret (0, Some (handle_message ("File seek error" ++ nl)))
            else
              r <- write_score fp name_to_search score_to_add SEEK_END 0 ;;
              if negb (r =? 1) then
                fclose fp ;;
                ret (0, Some (handle_message ("Error writing new record" ++ nl)))
              else finish
          else finish
    end.

(** ** Names used in the statements *)

(** [name_to_search] as [adjust_score] builds it from [player_name]. *)
Definition name_to_search (player_name : list ascii) : list ascii :=
  store (strncpy player_name FIELD_SIZE) (FIELD_SIZE - 1) NUL.

(** The second buffer that [write_score] hands to [fwrite]. *)
Definition score_field (score : Z) : list ascii :=
  store (snd (snprintf_d (repeat NUL (FIELD_SIZE + 1)) 11 score)) FIELD_SIZE LF.

(** The 21 bytes that [write_score] puts in the file for a name of
    [adjust_score] and a score. *)
Definition record_bytes (player_name : list ascii) (score : Z) : list ascii :=
  bytes_at (name_to_search player_name) FIELD_SIZE
    ++ bytes_at (score_field score) (FIELD_SIZE + 1).

(** The scores file before [adjust_score] runs: closed, nothing done yet. *)
Definition initial_world (data : list ascii) (openable : bool)
    (fs : list io_fault) : world :=
  mkWorld data openable None fs [].

Definition bytes (x : string) : list ascii := list_ascii_of_string x.

(** [l] followed by copies of [c] up to [n] bytes. *)
Definition pad (n : nat) (c : ascii) (l : list ascii) : list ascii :=
  l ++ repeat c (n - length l).

(** The C string held in [buf]: its bytes before the terminator. *)
Definition c_string (buf : list ascii) : list ascii := firstn (strlen buf) buf.

(** A character that is neither the terminator nor white space. *)
Definition visible (c : ascii) : bool :=
  negb (c =? NUL)%char && negb (isspace c) && (code c <? 128).

(** A name of the data model: 1 to 9 visible characters. *)
Definition valid_name (name : list ascii) : bool :=
  (1 <=? length name)%nat && (length name <=? 9)%nat && forallb visible name.

(** The digits of [n] as [utoa] prints them. *)
Definition digits_of (n : Z) : list Z := rev (rdigits (S (Z.to_nat (Z.log2 n))) n).

(** The lines of [data] as successive [getline] calls return them. *)
Fixpoint split_lines (data : list ascii) : list (list ascii) :=
  match data with
  | [] => []
  | c :: rest =>
      if (c =? LF)%char then [c] :: split_lines rest
      else match split_lines rest with
           | [] => [[c]]
           | l :: ls => (c :: l) :: ls
           end
  end.

(** A line that the loop of [find_record] takes for the record of
    [key]: 21 bytes, and [match_name] accepts it. *)
Definition candidate (key line : list ascii) : bool :=
  (Z.of_nat (length line) =? 21) && negb (match_name key line =? 0).

(** The first candidate among the lines [ls], of which the first starts
    at offset [off], and the offset it starts at. *)
Fixpoint first_match (key : list ascii) (off : nat) (ls : list (list ascii))
    : option (nat * list ascii) :=
  match ls with
  | [] => None
  | l :: ls' =>
      if candidate key l then Some (off, l)
      else first_match key (off + length l) ls'
  end.

(** The reads of a scan of the lines [ls]: up to the first candidate, or
    to the end of the file. *)
Fixpoint scan_reads (key : list ascii) (ls : list (list ascii)) : list event :=
  match ls with
  | [] => [EvRead []]
  | l :: ls' => EvRead l :: (if candidate key l then [] else scan_reads key ls')
  end.

(** One turn of the loop of [find_record] from its [getline] on. *)
Definition scan (fuel : nat) (fp : FILE) (player_name : list ascii)
    (score_to_add : Z) (line_buf : list ascii) : IO Z :=
  '(line_size, line_buf) <- getline line_buf fp ;;
  find_record_loop fuel fp player_name score_to_add line_size line_buf.

(** What the loop of [find_record] does with a line whose name matched. *)
Definition update_record (fp : FILE) (player_name : list ascii)
    (score_to_add : Z) (line_buf : list ascii) : IO Z :=
  current_score <- get_score_call line_buf ;;
  if current_score =? INT_MIN then ret (-1)
  else if negb (check_sum current_score score_to_add =? 0) then
    r <- write_score fp player_name (wrap_int (current_score + score_to_add))
           SEEK_CUR (-21) ;;
    if negb (r =? 1) then ret (-1) else ret 1
  else ret (-1).

(** The world [w] with the stream at [pos] and the events [t] done. *)
Definition at_pos (w : world) (pos : nat) (t : list event) : world :=
  mkWorld (file_data w) (can_open w) (Some pos) (faults w) (trace w ++ t).

(** The scores file just after [adjust_score] opened it. *)
Definition opened_world (data : list ascii) (fs : list io_fault) : world :=
  mkWorld data true (Some O) fs [EvOpen true].

Definition is_write (e : event) : bool :=
  match e with
  | EvWrite _ => true
  | _ => false
  end.

(** The bytes of the score field of a line, as [get_score] hands them
    to [score_strtol]. *)
Definition score_text (line_buf : list ascii) : list ascii :=
  store (map (load line_buf) (seq 10 (REC_SIZE - 10))) FIELD_SIZE NUL.

(** A world whose stream has been closed, [fclose] being the last thing
    done. *)
Definition closed (w : world) : Prop :=
  stream w = None /\ exists t, trace w = t ++ [EvClose].

(** [w1] is [w2] with the bytes [P] put before its file: the same
    outcomes to come, the stream [length P] further on. *)
Definition shifted (P : list ascii) (p : nat) (w1 w2 : world) : Prop :=
  file_data w1 = P ++ file_data w2
  /\ faults w1 = faults w2
  /\ stream w1 = Some (length P + p)%nat
  /\ stream w2 = Some p.

(** The sign and the digits at the head of a string that [strtol] reads. *)
Inductive sign : Type := NoSign | Plus | Minus.

Definition sign_text (sg : sign) : list ascii :=
  match sg with
  | NoSign => []
  | Plus => ["+"%char]
  | Minus => ["-"%char]
  end.

Definition decimal_value (ds : list ascii) : Z :=
  fold_left (fun a c => a * 10 + (code c - 48)) ds 0.

Definition signed (sg : sign) (v : Z) : Z :=
  match sg with
  | Minus => - v
  | _ => v
  end.

(** ** main *)

Definition EXIT_SUCCESS : Z := 0.
Definition EXIT_FAILURE : Z := 1.

(** The bytes one [fgets] call takes from the input: at most [n], up to
    and including the first newline. *)
Fixpoint fgets_line (n : nat) (input : list ascii) : list ascii :=
  match n, input with
  | S n', c :: rest => if (c =? LF)%char then [c] else c :: fgets_line n' rest
  | _, _ => []
  end.

(** [fgets(s, size, stdin)] on what is left of the standard input: the
    buffer with the bytes read and their terminator, [None] for [NULL] at
    the end of the input. *)
Definition fgets (s : list ascii) (size : nat) (input : list ascii)
    : option (list ascii) :=
  match input with
  | [] => None
  | _ =>
      let l := fgets_line (size - 1) input in
      Some (l ++ NUL :: skipn (length l + 1) s)
  end.

(** [main] on the bytes of the standard input: its exit status. What it
    prints, and what [get_score] prints under it, goes to the trace of
    the world. [message] is [None] for the pointer that [adjust_score]
    has not set, which it leaves so only when it returns 1. *)
Definition main (stdin : list ascii) : IO Z :=
  let uid := 1001 in
  let player_name := repeat NUL 60 in
  printf ("Enter player name: " ++ nl) ;;
  match fgets player_name 60 stdin with
  | None =>
      fprintf_stderr ("player name error!" ++ nl) ;;
      ret EXIT_FAILURE
  | Some player_name =>
      let score_to_add := 1000 in
      '(r, message) <- adjust_score uid player_name (wrap_int score_to_add) ;;
      if r =? 1 then
        printf ("Score write success" ++ nl) ;;
        ret EXIT_SUCCESS
      else
        match message with
        | Some m => printf (m ++ nl) ;; ret EXIT_FAILURE
        | None => ret EXIT_FAILURE
        end
  end.

(** ** Machine integers *)

Lemma wrap_int_id (z : Z) : INT_MIN <= z <= INT_MAX -> wrap_int z = z.
Proof.
  unfold wrap_int, wrap, INT_MIN, INT_MAX. intros H.
  change (2 ^ (32 - 1)) with 2147483648. change (2 ^ 32) with 4294967296.
  rewrite Z.mod_small; lia.
Qed.

Lemma wrap_long_id (z : Z) : LONG_MIN <= z <= LONG_MAX -> wrap_long z = z.
Proof.
  unfold wrap_long, wrap, LONG_MIN, LONG_MAX. intros H.
  change (2 ^ (64 - 1)) with 9223372036854775808.
  change (2 ^ 64) with 18446744073709551616.
  rewrite Z.mod_small; lia.
Qed.

Lemma check_sum_spec (old new : Z) :
  INT_MIN <= old <= INT_MAX -> INT_MIN <= new <= INT_MAX ->
  check_sum old new =
    if (old + new >? INT_MAX) || (old + new <? SCORE_LOW_BOUND) then 0 else 1.
Proof.
  intros Ho Hn. unfold check_sum.
  rewrite wrap_long_id by (unfold INT_MIN, INT_MAX, LONG_MIN, LONG_MAX in *; lia).
  destruct (old + new >? INT_MAX); reflexivity.
Qed.

Lemma gtb_false (a b : Z) : a <= b -> (a >? b) = false.
Proof. intros H. rewrite Z.gtb_ltb. now apply Z.ltb_ge. Qed.

Lemma ltb_false (a b : Z) : b <= a -> (a <? b) = false.
Proof. intros H. now apply Z.ltb_ge. Qed.

(** ** Buffers *)

Lemma load_app_l (a b : list ascii) (i : nat) :
  (i < length a)%nat -> load (a ++ b) i = load a i.
Proof. intros H. unfold load. now rewrite app_nth1. Qed.

Lemma load_app_r (a b : list ascii) (i : nat) :
  (length a <= i)%nat -> load (a ++ b) i = load b (i - length a).
Proof. intros H. unfold load. now rewrite app_nth2. Qed.

Lemma map_load_seq (b a : list ascii) :
  map (load (a ++ b)) (seq (length a) (length b)) = b.
Proof.
  revert a. induction b as [|x b IH]; intros a; simpl; [reflexivity|].
  f_equal.
  - rewrite load_app_r by lia. now rewrite Nat.sub_diag.
  - specialize (IH (a ++ [x])). rewrite <- app_assoc in IH. simpl in IH.
    rewrite length_app in IH. simpl in IH.
    now rewrite Nat.add_1_r in IH.
Qed.

Lemma bytes_at_app (a b : list ascii) : bytes_at (a ++ b) (length a) = a.
Proof.
  unfold bytes_at. pose proof (map_load_seq a []) as H. simpl in H.
  rewrite <- H at 3. apply map_ext_in. intros i Hi. apply in_seq in Hi.
  now rewrite load_app_l by lia.
Qed.

Lemma bytes_at_self (a : list ascii) : bytes_at a (length a) = a.
Proof. rewrite <- (app_nil_r a) at 1. apply bytes_at_app. Qed.

Lemma length_bytes_at (buf : list ascii) (n : nat) : length (bytes_at buf n) = n.
Proof. unfold bytes_at. now rewrite length_map, length_seq. Qed.

Lemma length_store (buf : list ascii) (i : nat) (c : ascii) :
  length (store buf i c) = length buf.
Proof.
  revert i. induction buf as [|x b IH]; intros [|i]; simpl; auto.
Qed.

Lemma store_app_r (a b : list ascii) (i : nat) (c : ascii) :
  (length a <= i)%nat -> store (a ++ b) i c = a ++ store b (i - length a) c.
Proof.
  revert i. induction a as [|x a IH]; intros i H; simpl in *.
  - now rewrite Nat.sub_0_r.
  - destruct i as [|i]; [lia|]. simpl. f_equal. apply IH. lia.
Qed.

Lemma store_repeat_last (x c : ascii) (m : nat) :
  store (repeat x (S m)) m c = repeat x m ++ [c].
Proof. induction m as [|m IH]; simpl in *; [reflexivity|now rewrite IH]. Qed.

Lemma store_same (buf : list ascii) (i : nat) :
  store buf i (load buf i) = buf.
Proof.
  revert i. induction buf as [|x b IH]; intros [|i]; simpl; auto.
  f_equal. apply IH.
Qed.

Lemma load_store (buf : list ascii) (i : nat) (c : ascii) :
  (i < length buf)%nat -> load (store buf i c) i = c.
Proof.
  revert i. induction buf as [|x b IH]; intros [|i] H; simpl in *; try lia; auto.
  apply IH. lia.
Qed.

Lemma length_strncpy (src : list ascii) (n : nat) : length (strncpy src n) = n.
Proof.
  revert src. induction n as [|n IH]; intros src; simpl; [reflexivity|].
  destruct src as [|c src]; [|destruct (c =? NUL)%char]; simpl; now rewrite IH.
Qed.

Lemma length_name_to_search (name : list ascii) :
  length (name_to_search name) = 10%nat.
Proof. unfold name_to_search. now rewrite length_store, length_strncpy. Qed.

Lemma strncmp_refl (n : nat) (a : list ascii) : strncmp a a n = 0.
Proof.
  revert a. induction n as [|n IH]; intros a; simpl; [reflexivity|].
  rewrite Ascii.eqb_refl. simpl. destruct (load a 0 =? NUL)%char; auto.
Qed.

(** ** Decimal digits: what snprintf prints, strtol reads back *)

Lemma digit_char_spec (d : Z) :
  0 <= d < 10 ->
  isdigit (digit_char d) = true /\ code (digit_char d) - 48 = d
  /\ isspace (digit_char d) = false /\ (digit_char d =? NUL)%char = false
  /\ (digit_char d =? "-")%char = false /\ (digit_char d =? "+")%char = false.
Proof.
  intros H.
  assert (d = 0 \/ d = 1 \/ d = 2 \/ d = 3 \/ d = 4 \/ d = 5 \/ d = 6 \/ d = 7
          \/ d = 8 \/ d = 9) as Hd by lia.
  repeat (destruct Hd as [-> | Hd]; [repeat split; reflexivity|]).
  subst d; repeat split; reflexivity.
Qed.

Lemma rdigits_range (fuel : nat) (n : Z) :
  0 <= n -> Forall (fun d => 0 <= d < 10) (rdigits fuel n).
Proof.
  revert n. induction fuel as [|f IH]; intros n Hn; simpl; [constructor|].
  constructor.
  - apply Z.mod_pos_bound. lia.
  - destruct (n / 10 =? 0); [constructor|]. apply IH. apply Z.div_pos; lia.
Qed.

Lemma rdigits_value (fuel : nat) (n : Z) :
  0 <= n < 2 ^ Z.of_nat fuel ->
  fold_right (fun d a => a * 10 + d) 0 (rdigits fuel n) = n.
Proof.
  revert n. induction fuel as [|f IH]; intros n Hn.
  - simpl in *. lia.
  - cbn [rdigits fold_right].
    pose proof (Z.div_mod n 10 ltac:(lia)) as Hdm.
    destruct (n / 10 =? 0) eqn:E.
    + apply Z.eqb_eq in E. simpl. lia.
    + apply Z.eqb_neq in E. rewrite IH; [lia|].
      rewrite Nat2Z.inj_succ, Z.pow_succ_r in Hn by lia.
      split; [apply Z.div_pos; lia|].
      apply Z.div_lt_upper_bound; lia.
Qed.

Lemma rdigits_length (k fuel : nat) (n : Z) :
  0 <= n < 10 ^ Z.of_nat (S k) -> (length (rdigits fuel n) <= S k)%nat.
Proof.
  revert fuel n. induction k as [|k IH]; intros [|f] n Hn; simpl; try lia.
  - change (10 ^ Z.of_nat 1) with 10 in Hn.
    rewrite Z.div_small by lia. simpl. lia.
  - destruct (n / 10 =? 0); simpl; [lia|].
    apply le_n_S. apply IH.
    rewrite Nat2Z.inj_succ, Z.pow_succ_r in Hn by lia.
    split; [apply Z.div_pos; lia|].
    apply Z.div_lt_upper_bound; lia.
Qed.

Lemma log2_fuel (n : Z) : 0 <= n -> 0 <= n < 2 ^ Z.of_nat (S (Z.to_nat (Z.log2 n))).
Proof.
  intros Hn. split; [assumption|].
  rewrite Nat2Z.inj_succ, Z2Nat.id by apply Z.log2_nonneg.
  destruct (Z.eq_dec n 0) as [->|Hz]; [reflexivity|].
  apply Z.log2_spec. lia.
Qed.

Lemma strtol_digits_app (ds : list Z) (acc : Z) (rest : list ascii) :
  Forall (fun d => 0 <= d < 10) ds ->
  strtol_digits acc (map digit_char ds ++ rest)
  = strtol_digits (fold_left (fun a d => a * 10 + d) ds acc) rest.
Proof.
  intros H. revert acc. induction H as [|d ds Hd _ IH]; intros acc; simpl.
  - reflexivity.
  - destruct (digit_char_spec d Hd) as (-> & -> & _). apply IH.
Qed.

Lemma digits_of_spec (n : Z) :
  0 <= n ->
  utoa n = map digit_char (digits_of n)
  /\ Forall (fun d => 0 <= d < 10) (digits_of n)
  /\ fold_left (fun a d => a * 10 + d) (digits_of n) 0 = n
  /\ digits_of n <> [].
Proof.
  intros Hn. unfold digits_of. repeat split.
  - apply Forall_rev. now apply rdigits_range.
  - transitivity (fold_right (fun d a => a * 10 + d) 0
                    (rdigits (S (Z.to_nat (Z.log2 n))) n)).
    + generalize (rdigits (S (Z.to_nat (Z.log2 n))) n). intros l.
      rewrite <- (rev_involutive l) at 2. now rewrite fold_left_rev_right.
    + apply rdigits_value, log2_fuel, Hn.
  - simpl. destruct (n / 10 =? 0); intros E; apply (f_equal (@length Z)) in E;
      rewrite ?length_app in E; simpl in E; lia.
Qed.

Lemma length_utoa (k : nat) (n : Z) :
  0 <= n < 10 ^ Z.of_nat (S k) -> (1 <= length (utoa n) <= S k)%nat.
Proof.
  intros H. unfold utoa. rewrite length_map, length_rev. split.
  - simpl. lia.
  - now apply rdigits_length.
Qed.

Lemma strtol_digits_utoa (n : Z) (rest : list ascii) :
  0 <= n -> isdigit (load rest 0) = false ->
  strtol_digits 0 (utoa n ++ rest) = (n, rest).
Proof.
  intros Hn Hr. destruct (digits_of_spec n Hn) as (-> & Hd & Hv & _).
  rewrite strtol_digits_app by assumption. rewrite Hv.
  destruct rest as [|c rest]; simpl; [reflexivity|].
  unfold load in Hr. simpl in Hr. now rewrite Hr.
Qed.

Lemma utoa_head (n : Z) :
  0 <= n -> exists d t, utoa n = digit_char d :: t /\ 0 <= d < 10.
Proof.
  intros Hn. destruct (digits_of_spec n Hn) as (-> & Hd & _ & Hne).
  destruct (digits_of n) as [|d ds]; [congruence|].
  exists d, (map digit_char ds). split; [reflexivity|].
  now inversion Hd.
Qed.

(** [strtol] reads back what ["%d"] printed, whatever non-digit follows. *)
Lemma strtol_itoa (z : Z) (rest : list ascii) :
  LONG_MIN <= z <= LONG_MAX -> isdigit (load rest 0) = false ->
  strtol (itoa z ++ rest) = (z, false, rest).
Proof.
  intros Hz Hr. unfold strtol, itoa. destruct (z <? 0) eqn:Hneg.
  - apply Z.ltb_lt in Hneg.
    destruct (utoa_head (- z) ltac:(lia)) as (d & t & Hu & Hd).
    destruct (digit_char_spec d Hd) as (Hdig & _).
    cbn [app skip_space]. change (isspace "-") with false. cbv iota.
    change ("-" =? "-")%char with true. cbv iota.
    replace (isdigit (load (utoa (- z) ++ rest) 0)) with true
      by (rewrite Hu; symmetry; exact Hdig).
    rewrite strtol_digits_utoa by (assumption || lia).
    rewrite Z.opp_involutive.
    rewrite gtb_false, ltb_false by lia.
    reflexivity.
  - apply Z.ltb_ge in Hneg.
    destruct (utoa_head z Hneg) as (d & t & Hu & Hd).
    destruct (digit_char_spec d Hd) as (Hdig & _ & Hsp & _ & Hm & Hp).
    pose proof (strtol_digits_utoa z rest Hneg Hr) as Hs.
    rewrite Hu in *. cbn [app skip_space]. rewrite Hsp, Hm, Hp.
    change (load (digit_char d :: t ++ rest) 0) with (digit_char d).
    rewrite Hdig. cbn [app] in Hs. rewrite Hs.
    rewrite gtb_false, ltb_false by lia.
    reflexivity.
Qed.

(** ** The record format *)

Lemma skipn_repeat_NUL (k n : nat) : skipn k (repeat NUL n) = repeat NUL (n - k).
Proof.
  revert n. induction k as [|k IH]; intros [|n]; simpl; auto.
Qed.

Lemma length_itoa (z : Z) :
  SCORE_LOW_BOUND <= z <= INT_MAX -> (1 <= length (itoa z) <= 10)%nat.
Proof.
  unfold SCORE_LOW_BOUND, INT_MAX, itoa. intros H.
  destruct (z <? 0) eqn:E.
  - apply Z.ltb_lt in E. pose proof (length_utoa 8 (- z)) as L.
    change (10 ^ Z.of_nat 9) with 1000000000 in L. simpl. lia.
  - apply Z.ltb_ge in E. pose proof (length_utoa 9 z) as L.
    change (10 ^ Z.of_nat 10) with 10000000000 in L. lia.
Qed.

Lemma itoa_head (z : Z) :
  exists c t, itoa z = c :: t /\ (c =? NUL)%char = false /\ isspace c = false.
Proof.
  unfold itoa. destruct (z <? 0) eqn:E.
  - exists "-"%char, (utoa (- z)). repeat split.
  - apply Z.ltb_ge in E. destruct (utoa_head z E) as (d & t & -> & Hd).
    destruct (digit_char_spec d Hd) as (_ & _ & Hs & Hn & _).
    exists (digit_char d), t. repeat split; assumption.
Qed.

Lemma length_score_field (score : Z) : length (score_field score) = 11%nat.
Proof.
  unfold score_field, snprintf_d. cbn [snd]. rewrite length_store.
  rewrite length_app, length_skipn, repeat_length, length_app, length_firstn.
  unfold FIELD_SIZE. cbn [length]. lia.
Qed.

Lemma score_field_newline (score : Z) : load (score_field score) 10 = LF.
Proof.
  unfold score_field. apply load_store.
  rewrite <- (length_store _ FIELD_SIZE LF).
  change (store _ FIELD_SIZE LF) with (score_field score).
  rewrite length_score_field. lia.
Qed.

(** A score that fits its field is printed in full and padded with the
    terminator and the bytes the buffer was initialised with. *)
Lemma score_field_fits (score : Z) :
  (length (itoa score) <= 10)%nat ->
  score_field score
  = itoa score ++ repeat NUL (10 - length (itoa score)) ++ [LF].
Proof.
  intros H. unfold score_field, snprintf_d. cbn [snd].
  change (11 - 1)%nat with 10%nat. change (FIELD_SIZE + 1)%nat with 11%nat.
  change FIELD_SIZE with 10%nat.
  rewrite firstn_all2 by assumption.
  rewrite skipn_repeat_NUL, length_app. cbn [length].
  rewrite <- app_assoc. rewrite store_app_r by assumption.
  f_equal. cbn [app].
  replace (11 - (length (itoa score) + 1))%nat with (10 - length (itoa score))%nat by lia.
  apply (store_repeat_last NUL LF).
Qed.

Lemma record_bytes_eq (name : list ascii) (score : Z) :
  record_bytes name score = name_to_search name ++ score_field score.
Proof.
  unfold record_bytes.
  pose proof (bytes_at_self (name_to_search name)) as E1.
  pose proof (bytes_at_self (score_field score)) as E2.
  rewrite length_name_to_search in E1. rewrite length_score_field in E2.
  change (FIELD_SIZE + 1)%nat with 11%nat. change FIELD_SIZE with 10%nat.
  now rewrite E1, E2.
Qed.

Lemma length_record_bytes (name : list ascii) (score : Z) :
  length (record_bytes name score) = 21%nat.
Proof.
  rewrite record_bytes_eq, length_app, length_name_to_search, length_score_field.
  reflexivity.
Qed.

(** Decoding the score of a record that [write_score] wrote. *)
Lemma get_score_written (key : list ascii) (score : Z) :
  length key = 10%nat -> SCORE_LOW_BOUND <= score <= INT_MAX ->
  get_score (key ++ score_field score) = score.
Proof.
  intros Hk Hs. pose proof (length_itoa score Hs) as Hl.
  unfold get_score. change (REC_SIZE - 1)%nat with 20%nat.
  change (REC_SIZE - 10)%nat with 11%nat. change FIELD_SIZE with 10%nat.
  rewrite load_app_r by lia. rewrite Hk. change (20 - 10)%nat with 10%nat.
  replace (load (score_field score) 10) with LF
    by (unfold score_field; rewrite load_store; [reflexivity|];
        rewrite <- (length_store _ FIELD_SIZE LF);
        change (store _ FIELD_SIZE LF) with (score_field score);
        rewrite length_score_field; lia).
  cbn [Ascii.eqb negb]. rewrite Ascii.eqb_refl. cbn [negb].
  pose proof (map_load_seq (score_field score) key) as E.
  rewrite Hk, length_score_field in E. rewrite E. clear E.
  rewrite score_field_fits by lia.
  rewrite store_app_r by lia.
  rewrite store_app_r by (rewrite repeat_length; lia).
  rewrite repeat_length.
  replace (10 - length (itoa score) - (10 - length (itoa score)))%nat with O by lia.
  cbn [store].
  set (rest := repeat NUL (10 - length (itoa score)) ++ [NUL]).
  assert (Hrest : load rest 0 = NUL).
  { unfold rest. destruct (10 - length (itoa score))%nat; reflexivity. }
  unfold score_strtol.
  destruct (itoa_head score) as (c & t & Hi & Hc & Hsp).
  replace (load (itoa score ++ rest) 0) with c by (now rewrite Hi).
  rewrite Hc, Hsp. cbn [orb].
  rewrite strtol_itoa
    by (rewrite ?Hrest; try reflexivity;
        unfold SCORE_LOW_BOUND, INT_MAX, LONG_MIN, LONG_MAX in *; lia).
  rewrite gtb_false, ltb_false by lia. cbn [orb andb].
  rewrite Hrest. cbn [Ascii.eqb negb]. rewrite Ascii.eqb_refl. cbn [negb].
  assert (Hi32 : INT_MIN <= score <= INT_MAX)
    by (unfold SCORE_LOW_BOUND, INT_MIN, INT_MAX in *; lia).
  now rewrite !(wrap_int_id score Hi32).
Qed.

Lemma name_to_search_terminated (name : list ascii) :
  load (name_to_search name) 9 = NUL.
Proof.
  unfold name_to_search. apply load_store. rewrite length_strncpy.
  unfold FIELD_SIZE. lia.
Qed.

(** The name field of a record matches the key it was written from. *)
Lemma match_name_written (name rest : list ascii) :
  match_name (name_to_search name) (name_to_search name ++ rest) = 1.
Proof.
  unfold match_name. change (FIELD_SIZE - 1)%nat with 9%nat.
  rewrite load_app_l by (rewrite length_name_to_search; lia).
  rewrite name_to_search_terminated. rewrite Ascii.eqb_refl. cbn [negb].
  change (map (load (name_to_search name ++ rest)) (seq 0 FIELD_SIZE))
    with (bytes_at (name_to_search name ++ rest) 10).
  pose proof (bytes_at_app (name_to_search name) rest) as E.
  rewrite length_name_to_search in E. rewrite E. clear E.
  pose proof (store_same (name_to_search name) 9) as E.
  rewrite name_to_search_terminated in E. rewrite E.
  rewrite strncmp_refl. reflexivity.
Qed.

Lemma strncpy_short (name : list ascii) (n : nat) :
  forallb (fun c => negb (c =? NUL)%char) name = true ->
  (length name <= n)%nat ->
  strncpy name n = name ++ repeat NUL (n - length name).
Proof.
  revert n. induction name as [|c name IH]; intros n Hc Hn.
  - simpl. rewrite Nat.sub_0_r. clear Hc Hn.
    induction n as [|n IHn]; simpl; [reflexivity|now rewrite IHn].
  - simpl in Hc. apply andb_prop in Hc as [Hc1 Hc2].
    destruct n as [|n]; [simpl in Hn; lia|].
    simpl. apply negb_true_iff in Hc1. rewrite Hc1. f_equal.
    apply IH; [assumption|simpl in Hn; lia].
Qed.

Lemma strncpy_long (name : list ascii) (n : nat) :
  forallb (fun c => negb (c =? NUL)%char) name = true ->
  (n <= length name)%nat ->
  strncpy name n = firstn n name.
Proof.
  revert n. induction name as [|c name IH]; intros n Hc Hn.
  - simpl in Hn. assert (n = O) as -> by lia. reflexivity.
  - simpl in Hc. apply andb_prop in Hc as [Hc1 Hc2].
    destruct n as [|n]; [reflexivity|].
    simpl. apply negb_true_iff in Hc1. rewrite Hc1. f_equal.
    apply IH; [assumption|simpl in Hn; lia].
Qed.

Lemma strlen_padded (name rest : list ascii) :
  forallb (fun c => negb (c =? NUL)%char) name = true ->
  strlen (name ++ NUL :: rest) = length name.
Proof.
  induction name as [|c name IH]; intros Hc; simpl; [reflexivity|].
  simpl in Hc. apply andb_prop in Hc as [Hc1 Hc2].
  apply negb_true_iff in Hc1. rewrite Hc1. now rewrite IH.
Qed.

Lemma strlen_no_nul (name : list ascii) :
  forallb (fun c => negb (c =? NUL)%char) name = true ->
  strlen name = length name.
Proof.
  induction name as [|c name IH]; intros Hc; simpl; [reflexivity|].
  simpl in Hc. apply andb_prop in Hc as [Hc1 Hc2].
  apply negb_true_iff in Hc1. rewrite Hc1. now rewrite IH.
Qed.

Lemma valid_name_spec (name : list ascii) :
  valid_name name = true ->
  (1 <= length name <= 9)%nat
  /\ forallb (fun c => negb (c =? NUL)%char) name = true
  /\ forallb (fun c => negb (isspace c)) name = true.
Proof.
  unfold valid_name. intros H.
  apply andb_prop in H as [H H3]. apply andb_prop in H as [H1 H2].
  apply Nat.leb_le in H1, H2. split; [lia|].
  split; apply forallb_forall; intros c Hc;
    rewrite forallb_forall in H3; specialize (H3 c Hc); unfold visible in H3;
    apply andb_prop in H3 as [H3 _]; apply andb_prop in H3 as [Ha Hb]; assumption.
Qed.

(** A name that fits is stored as it is, padded with terminators. *)
Lemma name_to_search_short (name : list ascii) :
  forallb (fun c => negb (c =? NUL)%char) name = true ->
  (length name <= 9)%nat ->
  name_to_search name = name ++ repeat NUL (10 - length name).
Proof.
  intros Hc Hl. unfold name_to_search. change FIELD_SIZE with 10%nat.
  rewrite strncpy_short by (assumption || lia).
  change (10 - 1)%nat with 9%nat.
  assert (E : load (name ++ repeat NUL (10 - length name)) 9 = NUL).
  { rewrite load_app_r by lia. unfold load. apply nth_repeat. }
  pose proof (store_same (name ++ repeat NUL (10 - length name)) 9) as E'.
  now rewrite E in E'.
Qed.

Lemma c_string_name_to_search (name : list ascii) :
  forallb (fun c => negb (c =? NUL)%char) name = true ->
  (length name <= 9)%nat ->
  c_string (name_to_search name) = name.
Proof.
  intros Hc Hl. rewrite name_to_search_short by assumption.
  unfold c_string. destruct (10 - length name)%nat as [|k] eqn:E; [lia|].
  cbn [repeat]. rewrite strlen_padded by assumption.
  rewrite firstn_app, Nat.sub_diag, firstn_all. cbn [firstn]. apply app_nil_r.
Qed.

(** ** The scan of the file *)

Lemma read_line_split (u : list ascii) :
  u <> [] ->
  split_lines u = fst (read_line u) :: split_lines (snd (read_line u))
  /\ u = fst (read_line u) ++ snd (read_line u)
  /\ fst (read_line u) <> [].
Proof.
  induction u as [|c rest IH]; intros Hu; [congruence|].
  cbn [split_lines read_line]. destruct (c =? LF)%char.
  - repeat split. discriminate.
  - destruct rest as [|c' rest'].
    + repeat split. discriminate.
    + destruct IH as (E1 & E2 & _); [discriminate|].
      destruct (read_line (c' :: rest')) as [l r]. cbn [fst snd] in *.
      rewrite E1. repeat split; [now rewrite E2 at 1|discriminate].
Qed.

Lemma split_lines_cons (u l : list ascii) (ls : list (list ascii)) :
  split_lines u = l :: ls ->
  exists r, u = l ++ r /\ read_line u = (l, r) /\ split_lines r = ls /\ l <> [].
Proof.
  intros H. assert (Hu : u <> []) by (intros ->; discriminate).
  destruct (read_line_split u Hu) as (E1 & E2 & E3).
  rewrite E1 in H. injection H as Hl Hls.
  exists (snd (read_line u)). subst l ls. repeat split; try assumption.
  now destruct (read_line u).
Qed.

(** A line as [getline] reads it is one line of the file, and one line on
    its own. *)
Lemma read_line_one_line (l r : list ascii) :
  l <> [] -> read_line (l ++ r) = (l, r) ->
  split_lines l = [l] /\ split_lines (l ++ r) = l :: split_lines r.
Proof.
  intros Hl Hr. split.
  - revert Hl Hr. induction l as [|c l IH]; intros Hl Hr; [congruence|].
    cbn [app read_line split_lines] in *. destruct (c =? LF)%char.
    + injection Hr as Hnil _. subst l. reflexivity.
    + destruct (read_line (l ++ r)) as [l1 r1] eqn:E.
      injection Hr as H1 H2. subst l1 r1. destruct l as [|c' l]; [reflexivity|].
      rewrite IH; [reflexivity|discriminate|reflexivity].
  - assert (Hu : l ++ r <> []) by (destruct l; [congruence|discriminate]).
    destruct (read_line_split (l ++ r) Hu) as (E & _). now rewrite Hr in E.
Qed.

Lemma split_lines_nonempty (u : list ascii) : u <> [] -> split_lines u <> [].
Proof.
  destruct u as [|c u]; [congruence|]. intros _. simpl.
  destruct (c =? LF)%char; [discriminate|]. destruct (split_lines u); discriminate.
Qed.

(** Bytes that end with a newline are whole lines, whatever follows. *)
Lemma split_lines_app_complete (pre x : list ascii) :
  pre = [] \/ (exists p, pre = p ++ [LF]) ->
  split_lines (pre ++ x) = split_lines pre ++ split_lines x.
Proof.
  induction pre as [|c pre IH]; intros H; [reflexivity|].
  destruct H as [H|[p Hp]]; [discriminate|].
  assert (Hpre : pre = [] /\ c = LF \/ pre <> [] /\ exists p', pre = p' ++ [LF]).
  { destruct p as [|c' p']; simpl in Hp; injection Hp as -> ->.
    - now left.
    - right. split; [destruct p'; discriminate|now exists p']. }
  destruct Hpre as [[-> ->]|[Hne Hp']]; [reflexivity|].
  specialize (IH (or_intror Hp')).
  cbn [app split_lines]. rewrite IH.
  destruct (c =? LF)%char; [reflexivity|].
  pose proof (split_lines_nonempty pre Hne) as Hs.
  destruct (split_lines pre); [congruence|reflexivity].
Qed.

Lemma at_pos_log (w : world) (pos pos' : nat) (e : event) (t : list event) :
  at_pos (log e (set_stream (Some pos) w)) pos' t = at_pos w pos' (e :: t).
Proof. unfold at_pos, log, set_stream. cbn. now rewrite <- app_assoc. Qed.

Lemma getline_line (w : world) (pos : nat) (buf l r : list ascii) :
  stream w = Some pos -> skipn pos (file_data w) = l ++ r ->
  read_line (l ++ r) = (l, r) -> l <> [] ->
  getline buf FILE_scores w
  = Some ((Z.of_nat (length l), l),
          log (EvRead l) (set_stream (Some (pos + length l)%nat) w)).
Proof.
  intros Hs Hu Hr Hl. unfold getline. rewrite Hs, Hu.
  destruct (l ++ r) as [|c u] eqn:E.
  - apply app_eq_nil in E as [-> _]. congruence.
  - now rewrite Hr.
Qed.

Lemma getline_eof (w : world) (pos : nat) (buf : list ascii) :
  stream w = Some pos -> skipn pos (file_data w) = [] ->
  getline buf FILE_scores w = Some ((-1, buf), log (EvRead []) w).
Proof. intros Hs Hu. unfold getline. now rewrite Hs, Hu. Qed.

Lemma length_split_lines (u : list ascii) :
  (length (split_lines u) <= length u)%nat.
Proof.
  induction u as [|c rest IH]; simpl; [lia|].
  destruct (c =? LF)%char; simpl; [lia|].
  destruct (split_lines rest); simpl in *; lia.
Qed.

Lemma concat_split_lines (u : list ascii) : concat (split_lines u) = u.
Proof.
  induction u as [|c rest IH]; simpl; [reflexivity|].
  destruct (c =? LF)%char; simpl; [now rewrite IH|].
  destruct (split_lines rest); simpl in *; now rewrite <- IH.
Qed.

Lemma getline_file_data (buf : list ascii) (w w' : world) (r : Z * list ascii) :
  getline buf FILE_scores w = Some (r, w') -> file_data w' = file_data w.
Proof.
  unfold getline. destruct (stream w); [destruct (skipn n (file_data w))|];
    intros H; injection H as _ <-; reflexivity.
Qed.

Lemma get_score_invalid (line_buf : list ascii) :
  fst (score_strtol 0 (score_text line_buf)) <> SCORE_VALID ->
  get_score line_buf = INT_MIN.
Proof.
  intros H. unfold get_score. fold (score_text line_buf).
  destruct (negb (load line_buf (REC_SIZE - 1) =? LF)%char); [reflexivity|].
  destruct (score_strtol 0 (score_text line_buf)) as [[] v]; cbn [fst] in H;
    congruence.
Qed.

(** The call of [get_score] returns the value of [get_score]; it
    touches neither the file nor the stream, and prints nothing when the
    score parses. *)
Lemma get_score_call_spec (line_buf : list ascii) (w : world) :
  exists w',
    get_score_call line_buf w = Some (get_score line_buf, w')
    /\ file_data w' = file_data w
    /\ stream w' = stream w
    /\ faults w' = faults w
    /\ existsb is_write (trace w') = existsb is_write (trace w)
    /\ (get_score line_buf <> INT_MIN -> w' = w).
Proof.
  unfold get_score_call, get_score.
  destruct (negb (load line_buf (REC_SIZE - 1) =? LF)%char).
  - exists w. unfold ret. repeat split.
  - cbv zeta. destruct (score_strtol 0 _) as [[] x];
      try (eexists; unfold bind, printf, ret; split; [reflexivity|];
           cbn [file_data stream faults trace log];
           repeat split; try congruence;
           rewrite existsb_app; cbn; apply orb_false_r).
Qed.

Section Scan.

(** The key searched for and the score to add. *)
Variables (key : list ascii) (delta : Z).

(** The loop finds the first candidate line and handles it, or comes to
    the end of the file and answers 0. *)
Lemma scan_spec (ls : list (list ascii)) :
  forall (fuel : nat) (buf : list ascii) (w : world) (pos : nat),
  stream w = Some pos ->
  split_lines (skipn pos (file_data w)) = ls ->
  (length ls < fuel)%nat ->
  scan fuel FILE_scores key delta buf w =
    match first_match key pos ls with
    | Some (off, m) =>
        update_record FILE_scores key delta m (at_pos w (off + 21) (scan_reads key ls))
    | None =>
        Some (0, at_pos w (pos + length (concat ls)) (scan_reads key ls))
    end.
Proof.
  induction ls as [|l ls IH]; intros fuel buf w pos Hs Hu Hf.
  - destruct fuel as [|fuel]; [simpl in Hf; lia|].
    assert (E : skipn pos (file_data w) = []).
    { destruct (skipn pos (file_data w)) as [|c u] eqn:E; [reflexivity|].
      cbn [split_lines] in Hu. destruct (c =? LF)%char; [discriminate|].
      destruct (split_lines u); discriminate. }
    unfold scan, bind. rewrite (getline_eof w pos buf Hs E).
    cbn [find_record_loop first_match scan_reads concat length].
    change (-1 >=? 0) with false. cbv iota. unfold ret, at_pos, log.
    rewrite Hs, Nat.add_0_r. reflexivity.
  - destruct fuel as [|fuel]; [simpl in Hf; lia|].
    destruct (split_lines_cons _ _ _ Hu) as (r & Er & Erl & Els & Hl).
    rewrite Er in Erl.
    unfold scan, bind. rewrite (getline_line w pos buf l r Hs Er Erl Hl).
    set (w1 := log (EvRead l) (set_stream (Some (pos + length l)%nat) w)).
    assert (Hs1 : stream w1 = Some (pos + length l)%nat) by reflexivity.
    assert (Hu1 : split_lines (skipn (pos + length l) (file_data w1)) = ls).
    { cbn [w1 log set_stream file_data].
      rewrite Nat.add_comm, <- skipn_skipn, Er, skipn_app, skipn_all, Nat.sub_diag.
      exact Els. }
    assert (Hf1 : (length ls < fuel)%nat) by (simpl in Hf; lia).
    pose proof (IH fuel l w1 (pos + length l)%nat Hs1 Hu1 Hf1) as Hrec.
    unfold scan, bind in Hrec.
    cbn [find_record_loop first_match scan_reads concat].
    replace (Z.of_nat (length l) >=? 0) with true
      by (symmetry; apply Z.geb_le; lia).
    cbv iota. unfold candidate.
    destruct (Z.of_nat (length l) =? 21) eqn:E21; cbn [negb andb].
    + destruct (match_name key l =? 0) eqn:Em; cbn [negb].
      * unfold bind. rewrite Hrec. unfold w1. rewrite length_app, Nat.add_assoc.
        destruct (first_match key (pos + length l) ls) as [[off m]|];
          now rewrite at_pos_log.
      * apply Z.eqb_eq in E21. unfold w1.
        replace (pos + length l)%nat with (pos + 21)%nat by lia.
        unfold update_record, at_pos, log, set_stream. cbn. reflexivity.
    + unfold bind. rewrite Hrec. unfold w1. rewrite length_app, Nat.add_assoc.
      destruct (first_match key (pos + length l) ls) as [[off m]|];
        now rewrite at_pos_log.
Qed.

(** [find_record] on an open stream: a failing [fseek] ends it, else it
    handles the first candidate line of the file or answers 0. *)
Lemma find_record_spec (w : world) (pos : nat) :
  stream w = Some pos ->
  find_record FILE_scores key delta w =
    match next_fault w with
    | (IoFail _, w1) => Some (-1, log (EvSeek false) w1)
    | (IoOk, w1) =>
        let w2 := log (EvSeek true) (set_stream (Some O) w1) in
        let ls := split_lines (file_data w) in
        match first_match key 0 ls with
        | Some (off, m) =>
            update_record FILE_scores key delta m
              (at_pos w2 (off + 21) (scan_reads key ls))
        | None => Some (0, at_pos w2 (length (file_data w)) (scan_reads key ls))
        end
    end.
Proof.
  intros Hs. unfold find_record, bind at 1, fseek. rewrite Hs.
  assert (Hd : file_data (snd (next_fault w)) = file_data w)
    by (unfold next_fault; destruct (faults w); reflexivity).
  destruct (next_fault w) as [[|k] w1]; cbn [snd] in Hd; [|reflexivity].
  change (0 + 0 <? 0) with false. cbv iota zeta.
  change (0 =? -1) with false. cbv iota.
  change (Z.to_nat (0 + 0)) with O.
  set (w2 := log (EvSeek true) (set_stream (Some O) w1)).
  assert (Hd2 : file_data w2 = file_data w) by exact Hd.
  pose proof (scan_spec (split_lines (file_data w))
                (S (length (file_data w2))) [] w2 O eq_refl) as Hscan.
  cbn [skipn] in Hscan. rewrite Hd2 in Hscan.
  specialize (Hscan eq_refl (le_n_S _ _ (length_split_lines _))).
  rewrite concat_split_lines in Hscan. cbn [Nat.add] in Hscan.
  rewrite <- Hscan. unfold scan, bind.
  destruct (getline [] FILE_scores w2) as [[[n b] w3]|] eqn:G; [|reflexivity].
  now rewrite (getline_file_data _ _ _ _ G), Hd2.
Qed.

Lemma scan_reads_no_write (ls : list (list ascii)) :
  existsb is_write (scan_reads key ls) = false.
Proof.
  induction ls as [|l ls IH]; simpl; [reflexivity|].
  destruct (candidate key l); [reflexivity|exact IH].
Qed.

(** [update_record] once [get_score] has returned, in the world [w0]
    that it leaves. *)
Lemma update_record_unfold (m : list ascii) (w : world) :
  exists w0,
    file_data w0 = file_data w
    /\ stream w0 = stream w
    /\ faults w0 = faults w
    /\ existsb is_write (trace w0) = existsb is_write (trace w)
    /\ (get_score m <> INT_MIN -> w0 = w)
    /\ update_record FILE_scores key delta m w =
       (if get_score m =? INT_MIN then ret (-1)
        else if negb (check_sum (get_score m) delta =? 0) then
          r <- write_score FILE_scores key (wrap_int (get_score m + delta))
                 SEEK_CUR (-21) ;;
          if negb (r =? 1) then ret (-1) else ret 1
        else ret (-1)) w0.
Proof.
  unfold update_record, bind at 1.
  destruct (get_score_call_spec m w) as (w0 & -> & Hd & Hs & Hf & Ht & Hv).
  exists w0. repeat split; assumption.
Qed.

(** A matched line whose score does not parse, or whose sum with delta
    [check_sum] refuses: the answer is -1, nothing written. *)
Lemma update_record_refused (m : list ascii) (w : world) :
  get_score m = INT_MIN \/ check_sum (get_score m) delta = 0 ->
  exists w',
    update_record FILE_scores key delta m w = Some (-1, w')
    /\ file_data w' = file_data w
    /\ existsb is_write (trace w') = existsb is_write (trace w).
Proof.
  intros H. unfold update_record, bind.
  destruct (get_score_call_spec m w) as (w0 & -> & Hd & _ & _ & Ht & _).
  exists w0. split; [|now split].
  destruct (get_score m =? INT_MIN) eqn:E; [reflexivity|].
  destruct H as [H|H]; [rewrite H in E; discriminate E|].
  now rewrite H.
Qed.

End Scan.

(** [adjust_score] once the name is accepted and the file opened. *)
Lemma adjust_score_opened (uid : Z) (name : list ascii) (delta : Z)
    (data : list ascii) (fs : list io_fault) :
  validate_name name = 1 ->
  adjust_score uid name delta (initial_world data true fs) =
    match find_record FILE_scores (name_to_search name) delta (opened_world data fs) with
    | Some (find_player, w) =>
        if find_player =? -1 then
          Some ((0, Some ("Error found in record" ++ nl)%string),
                log EvClose (set_stream None w))
        else if find_player =? 0 then
          (r <- fseek FILE_scores 0 SEEK_END ;;
           if r =? -1 then
             fclose FILE_scores ;;
             ret (0, Some ("File seek error" ++ nl)%string)
           else
             r <- write_score FILE_scores (name_to_search name) delta SEEK_END 0 ;;
             if negb (r =? 1) then
               fclose FILE_scores ;;
               ret (0, Some ("Error writing new record" ++ nl)%string)
             else fclose FILE_scores ;; ret (1, None)) w
        else Some ((1, None), log EvClose (set_stream None w))
    | None => None
    end.
Proof.
  intros Hv. unfold adjust_score. rewrite Hv.
  change (negb (1 =? 1)) with false. cbv iota.
  unfold bind at 1. unfold fopen. cbn [can_open initial_world].
  change (String.eqb FILENAME FILENAME) with true. cbn [andb].
  change (log (EvOpen true) (set_stream (Some 0%nat) (initial_world data true fs)))
    with (opened_world data fs).
  fold (name_to_search name). unfold bind at 1.
  destruct (find_record FILE_scores (name_to_search name) delta (opened_world data fs))
    as [[find_player w]|]; [|reflexivity].
  destruct (find_player =? -1); [reflexivity|].
  destruct (find_player =? 0); reflexivity.
Qed.

Lemma score_strtol_valid_range (v x : Z) (line : list ascii) :
  score_strtol v line = (SCORE_VALID, x) -> SCORE_LOW_BOUND <= x <= INT_MAX.
Proof.
  unfold score_strtol.
  destruct ((load line 0 =? NUL)%char || isspace (load line 0)); [discriminate|].
  destruct (strtol line) as [[score_long erange] endptr].
  destruct (score_long >? INT_MAX) eqn:E1; [discriminate|]. cbn [orb].
  destruct (erange && (score_long =? LONG_MAX)); [discriminate|].
  destruct (score_long <? SCORE_LOW_BOUND) eqn:E2; [discriminate|]. cbn [orb].
  destruct (erange && (score_long =? LONG_MIN)); [discriminate|].
  destruct (negb (load endptr 0 =? NUL)%char); [discriminate|].
  intros H. injection H as <-.
  rewrite Z.gtb_ltb in E1. apply Z.ltb_ge in E1, E2.
  rewrite wrap_int_id; unfold SCORE_LOW_BOUND, INT_MIN, INT_MAX in *; lia.
Qed.

(** [get_score] answers [INT_MIN] or a score within the bounds. *)
Lemma get_score_range (line_buf : list ascii) :
  get_score line_buf = INT_MIN
  \/ SCORE_LOW_BOUND <= get_score line_buf <= INT_MAX.
Proof.
  unfold get_score.
  destruct (negb (load line_buf (REC_SIZE - 1) =? LF)%char); [now left|].
  destruct (score_strtol 0 _) as [[] x] eqn:E; try now left.
  right. apply score_strtol_valid_range in E.
  rewrite wrap_int_id; unfold SCORE_LOW_BOUND, INT_MIN, INT_MAX in *; lia.
Qed.

Lemma existsb_is_write_app (t1 t2 : list event) :
  existsb is_write t1 = false -> existsb is_write t2 = false ->
  existsb is_write (t1 ++ t2) = false.
Proof. intros H1 H2. now rewrite existsb_app, H1, H2. Qed.

(** When [find_record] answers -1 without having written, so does
    [adjust_score] fail, the file as it was. *)
Lemma adjust_score_scan_error (uid : Z) (name : list ascii) (delta : Z)
    (data : list ascii) (fs : list io_fault) (off : nat) (m : list ascii) :
  validate_name name = 1 ->
  first_match (name_to_search name) 0 (split_lines data) = Some (off, m) ->
  get_score m = INT_MIN \/ check_sum (get_score m) delta = 0 ->
  (exists w1,
     find_record FILE_scores (name_to_search name) delta (opened_world data fs)
     = Some (-1, w1))
  /\ exists w',
       adjust_score uid name delta (initial_world data true fs)
       = Some ((0, Some ("Error found in record" ++ nl)%string), w')
       /\ file_data w' = data
       /\ existsb is_write (trace w') = false
       /\ stream w' = None.
Proof.
  intros Hv Hm Hu.
  assert (Hf : exists w1,
             find_record FILE_scores (name_to_search name) delta (opened_world data fs)
             = Some (-1, w1)
             /\ file_data w1 = data /\ existsb is_write (trace w1) = false).
  { rewrite (find_record_spec _ _ (opened_world data fs) O eq_refl).
    unfold next_fault, opened_world. cbn [faults file_data].
    destruct fs as [|[|k] fs'].
    - cbv zeta. rewrite Hm.
      match goal with
      | |- context [update_record _ _ _ _ ?w] =>
          destruct (update_record_refused (name_to_search name) delta m w Hu)
            as (w1 & -> & Hd1 & Ht1)
      end.
      exists w1. split; [reflexivity|]. split; [exact Hd1|]. rewrite Ht1.
      cbn [at_pos trace log set_stream set_faults].
      apply existsb_is_write_app; [reflexivity|apply scan_reads_no_write].
    - cbv zeta. rewrite Hm.
      match goal with
      | |- context [update_record _ _ _ _ ?w] =>
          destruct (update_record_refused (name_to_search name) delta m w Hu)
            as (w1 & -> & Hd1 & Ht1)
      end.
      exists w1. split; [reflexivity|]. split; [exact Hd1|]. rewrite Ht1.
      cbn [at_pos trace log set_stream set_faults].
      apply existsb_is_write_app; [reflexivity|apply scan_reads_no_write].
    - eexists. split; [reflexivity|]. split; reflexivity. }
  destruct Hf as (w1 & Hf & Hd & Ht). split; [now exists w1|].
  rewrite (adjust_score_opened uid name delta data fs Hv), Hf.
  change (-1 =? -1) with true. cbv iota.
  eexists. split; [reflexivity|]. cbn [file_data trace stream log set_stream].
  repeat split; [assumption|].
  apply existsb_is_write_app; [assumption|reflexivity].
Qed.

(** ** Every call returns *)

Ltac returned := unfold ret; eauto.

Lemma fseek_total (offset : Z) (origin : whence) (w : world) :
  exists r w', fseek FILE_scores offset origin w = Some (r, w').
Proof.
  unfold fseek. destruct (stream w); [|eauto].
  destruct (next_fault w) as [[|k] w1]; [|eauto].
  destruct (_ <? 0); eauto.
Qed.

Lemma fwrite_total (ptr : list ascii) (size : nat) (w : world) :
  exists r w', fwrite ptr size FILE_scores w = Some (r, w').
Proof.
  unfold fwrite. destruct (stream w); [|eauto].
  destruct (next_fault w) as [[|k] w1]; eauto.
Qed.

Lemma write_score_total (key : list ascii) (score : Z) (origin : whence)
    (offset : Z) (w : world) :
  exists r w', write_score FILE_scores key score origin offset w = Some (r, w').
Proof.
  unfold write_score. destruct (snprintf_d _ 11 score) as [n buf].
  destruct (n <? 0); [returned|].
  unfold bind at 1. destruct (fseek_total offset origin w) as (r & w1 & ->).
  destruct (negb (r =? -1)); [|returned].
  unfold bind at 1. destruct (fwrite_total key FIELD_SIZE w1) as (n1 & w2 & ->).
  destruct (n1 <=? 0); [returned|].
  unfold bind at 1.
  destruct (fwrite_total (store buf FIELD_SIZE LF) (FIELD_SIZE + 1) w2) as (n2 & w3 & ->).
  destruct (n2 <=? 0); returned.
Qed.

Lemma update_record_total (key : list ascii) (delta : Z) (m : list ascii) (w : world) :
  exists r w', update_record FILE_scores key delta m w = Some (r, w').
Proof.
  unfold update_record, bind at 1.
  destruct (get_score_call_spec m w) as (w0 & -> & _).
  destruct (get_score m =? INT_MIN); [returned|].
  destruct (negb (check_sum (get_score m) delta =? 0)); [|returned].
  unfold bind.
  destruct (write_score_total key (wrap_int (get_score m + delta)) SEEK_CUR (-21) w0)
    as (r & w1 & ->).
  destruct (negb (r =? 1)); returned.
Qed.

(** The scan of a file always comes to an end. *)
Lemma find_record_total (key : list ascii) (delta : Z) (w : world) (pos : nat) :
  stream w = Some pos ->
  exists r w', find_record FILE_scores key delta w = Some (r, w').
Proof.
  intros Hs. rewrite (find_record_spec key delta w pos Hs).
  destruct (next_fault w) as [[|k] w1]; [|eauto].
  cbv zeta. destruct (first_match key 0 (split_lines (file_data w))) as [[off m]|];
    [apply update_record_total|eauto].
Qed.

Lemma closed_fclose (w : world) : closed (log EvClose (set_stream None w)).
Proof. split; [reflexivity|]. now exists (trace w). Qed.

Lemma append_closes (key : list ascii) (delta : Z) (w : world) :
  exists x w',
    (r <- fseek FILE_scores 0 SEEK_END ;;
     if r =? -1 then
       fclose FILE_scores ;;
       ret (0, Some ("File seek error" ++ nl)%string)
     else
       r <- write_score FILE_scores key delta SEEK_END 0 ;;
       if negb (r =? 1) then
         fclose FILE_scores ;;
         ret (0, Some ("Error writing new record" ++ nl)%string)
       else fclose FILE_scores ;; ret (1, None)) w = Some (x, w')
    /\ closed w'.
Proof.
  unfold bind at 1. destruct (fseek_total 0 SEEK_END w) as (r & w1 & ->).
  destruct (r =? -1).
  - unfold bind, fclose, ret. eexists _, _. split; [reflexivity|apply closed_fclose].
  - unfold bind at 1.
    destruct (write_score_total key delta SEEK_END 0 w1) as (r2 & w2 & ->).
    destruct (negb (r2 =? 1)); unfold bind, fclose, ret;
      (eexists _, _; split; [reflexivity|apply closed_fclose]).
Qed.

(** ** Appending a record *)

Lemma pwrite_end (d b : list ascii) : pwrite d (length d) b = d ++ b.
Proof.
  unfold pwrite. rewrite firstn_all, Nat.sub_diag. cbn [repeat app].
  rewrite skipn_all2 by lia. now rewrite app_nil_r.
Qed.

Lemma write_score_unfold (key : list ascii) (score : Z) (origin : whence) (offset : Z) :
  write_score FILE_scores key score origin offset =
    (r <- fseek FILE_scores offset origin ;;
     if negb (r =? -1) then
       n1 <- fwrite key FIELD_SIZE FILE_scores ;;
       if n1 <=? 0 then ret 0
       else
         n2 <- fwrite (score_field score) (FIELD_SIZE + 1) FILE_scores ;;
         if n2 <=? 0 then ret 0 else ret 1
     else ret 0).
Proof.
  unfold write_score, score_field, snprintf_d. cbv zeta. cbn [snd].
  now rewrite ltb_false by lia.
Qed.

Lemma fseek_end_ok (w : world) (pos : nat) :
  stream w = Some pos -> faults w = [] ->
  fseek FILE_scores 0 SEEK_END w
  = Some (0, at_pos w (length (file_data w)) [EvSeek true]).
Proof.
  intros Hs Hf. unfold fseek, next_fault. rewrite Hs, Hf.
  rewrite Z.add_0_r, ltb_false, Nat2Z.id by lia.
  unfold at_pos, log, set_stream. cbn. now rewrite Hf.
Qed.

Lemma fwrite_ok (ptr : list ascii) (size : nat) (w : world) (pos : nat) :
  stream w = Some pos -> faults w = [] ->
  fwrite ptr size FILE_scores w
  = Some (1, mkWorld (pwrite (file_data w) pos (bytes_at ptr size)) (can_open w)
               (Some (pos + size)%nat) [] (trace w ++ [EvWrite (bytes_at ptr size)])).
Proof.
  intros Hs Hf. unfold fwrite, next_fault. rewrite Hs, Hf.
  unfold log, set_stream, set_data. cbn. now rewrite Hf, length_bytes_at.
Qed.

(** [write_score] at the end of the file, every call succeeding. *)
Lemma write_score_append (key : list ascii) (score : Z) (w : world) (pos : nat) :
  stream w = Some pos -> faults w = [] ->
  write_score FILE_scores key score SEEK_END 0 w =
    Some (1, mkWorld
               (file_data w ++ bytes_at key FIELD_SIZE
                  ++ bytes_at (score_field score) (FIELD_SIZE + 1))
               (can_open w) (Some (length (file_data w) + 21)%nat) []
               (trace w ++ [EvSeek true; EvWrite (bytes_at key FIELD_SIZE);
                            EvWrite (bytes_at (score_field score) (FIELD_SIZE + 1))])).
Proof.
  intros Hs Hf. rewrite write_score_unfold. unfold bind at 1.
  rewrite (fseek_end_ok w pos Hs Hf). change (negb (0 =? -1)) with true. cbv iota.
  unfold bind at 1.
  erewrite fwrite_ok; [|reflexivity|exact Hf].
  change (1 <=? 0) with false. cbv iota. unfold bind at 1.
  erewrite fwrite_ok; [|reflexivity|reflexivity].
  change (1 <=? 0) with false. cbv iota. unfold ret.
  cbn [file_data can_open trace at_pos].
  rewrite pwrite_end.
  replace (length (file_data w) + FIELD_SIZE + (FIELD_SIZE + 1))%nat
    with (length (file_data w) + 21)%nat by (unfold FIELD_SIZE; lia).
  replace (length (file_data w) + FIELD_SIZE)%nat
    with (length (file_data w ++ bytes_at key FIELD_SIZE))
    by (now rewrite length_app, length_bytes_at).
  rewrite pwrite_end, <- !app_assoc. reflexivity.
Qed.

(** [adjust_score] for a name that no line of the file matches, every
    call succeeding: one record more at the end of the file. *)
Lemma adjust_score_append (uid : Z) (name : list ascii) (delta : Z) (data : list ascii) :
  validate_name name = 1 ->
  first_match (name_to_search name) 0 (split_lines data) = None ->
  exists w',
    adjust_score uid name delta (initial_world data true []) = Some ((1, None), w')
    /\ file_data w' = data ++ record_bytes name delta
    /\ closed w'.
Proof.
  intros Hv Hm. rewrite (adjust_score_opened uid name delta data [] Hv).
  rewrite (find_record_spec _ _ (opened_world data []) O eq_refl).
  unfold next_fault. cbn [faults opened_world file_data]. cbv zeta. rewrite Hm.
  change (0 =? -1) with false. change (0 =? 0) with true. cbv iota.
  unfold bind at 1. erewrite fseek_end_ok; [|reflexivity|reflexivity].
  change (0 =? -1) with false. cbv iota. unfold bind at 1.
  erewrite write_score_append; [|reflexivity|reflexivity].
  change (negb (1 =? 1)) with false. cbv iota.
  unfold bind, fclose, ret. eexists. split; [reflexivity|].
  split; [reflexivity|apply closed_fclose].
Qed.

(** ** Lines before the record *)

Section Shifted.

(** The bytes put before the file. *)
Variable P : list ascii.

Lemma pwrite_shift (d b : list ascii) (p : nat) :
  pwrite (P ++ d) (length P + p) b = P ++ pwrite d p b.
Proof.
  unfold pwrite. rewrite firstn_app, firstn_all2 by lia.
  rewrite skipn_app, skipn_all2 by lia. rewrite length_app.
  replace (length P + p - length P)%nat with p by lia.
  replace (length P + p - (length P + length d))%nat with (p - length d)%nat by lia.
  replace (length P + p + length b - length P)%nat with (p + length b)%nat by lia.
  cbn [app]. now rewrite <- app_assoc.
Qed.

Lemma fwrite_shift (p : nat) (ptr : list ascii) (size : nat)
    (w1 w2 : world) :
  shifted P p w1 w2 ->
  exists r w1' w2' p',
    fwrite ptr size FILE_scores w1 = Some (r, w1')
    /\ fwrite ptr size FILE_scores w2 = Some (r, w2')
    /\ shifted P p' w1' w2'.
Proof.
  intros (Hd & Hf & Hs1 & Hs2). unfold fwrite, next_fault.
  rewrite Hs1, Hs2, Hf, Hd.
  destruct (faults w2) as [|[|k] fs] eqn:Hf2; cbn [file_data set_faults];
    (eexists _, _, _, _; split; [reflexivity|]; split; [reflexivity|];
     unfold shifted; cbn; rewrite pwrite_shift, ?Hf, ?Hf2;
     repeat split; f_equal; apply eq_sym, Nat.add_assoc).
Qed.

Lemma write_score_shift (p : nat) (key : list ascii) (score : Z)
    (w1 w2 : world) :
  shifted P p w1 w2 -> (21 <= p)%nat ->
  exists r w1' w2',
    write_score FILE_scores key score SEEK_CUR (-21) w1 = Some (r, w1')
    /\ write_score FILE_scores key score SEEK_CUR (-21) w2 = Some (r, w2')
    /\ file_data w1' = P ++ file_data w2'.
Proof.
  intros (Hd & Hf & Hs1 & Hs2) Hp. rewrite write_score_unfold.
  unfold bind at 1 4. unfold fseek, next_fault. rewrite Hs1, Hs2, Hf.
  assert (Hseek1 : (Z.of_nat (length P + p) + -21 <? 0) = false)
    by (apply ltb_false; lia).
  assert (Hseek2 : (Z.of_nat p + -21 <? 0) = false) by (apply ltb_false; lia).
  assert (Hpos : Z.to_nat (Z.of_nat (length P + p) + -21)
                 = (length P + Z.to_nat (Z.of_nat p + -21))%nat) by lia.
  assert (Hstep : forall v1 v2 : world,
             shifted P (Z.to_nat (Z.of_nat p + -21)) v1 v2 ->
             exists r w1' w2',
               (n1 <- fwrite key FIELD_SIZE FILE_scores ;;
                if n1 <=? 0 then ret 0
                else
                  n2 <- fwrite (score_field score) (FIELD_SIZE + 1) FILE_scores ;;
                  if n2 <=? 0 then ret 0 else ret 1) v1 = Some (r, w1')
               /\ (n1 <- fwrite key FIELD_SIZE FILE_scores ;;
                   if n1 <=? 0 then ret 0
                   else
                     n2 <- fwrite (score_field score) (FIELD_SIZE + 1) FILE_scores ;;
                     if n2 <=? 0 then ret 0 else ret 1) v2 = Some (r, w2')
               /\ file_data w1' = P ++ file_data w2').
  { intros v1 v2 Hv. unfold bind at 1 3.
    destruct (fwrite_shift _ key FIELD_SIZE v1 v2 Hv)
      as (n1 & v1' & v2' & p' & -> & -> & Hv').
    destruct (n1 <=? 0).
    - unfold ret. eexists _, _, _. repeat split. apply Hv'.
    - unfold bind.
      destruct (fwrite_shift _ (score_field score) (FIELD_SIZE + 1) v1' v2' Hv')
        as (n2 & v1'' & v2'' & p'' & -> & -> & Hv'').
      destruct (n2 <=? 0); unfold ret; eexists _, _, _; repeat split; apply Hv''. }
  destruct (faults w2) as [|[|k] fs] eqn:Hf2; cbn [set_faults].
  - rewrite Hseek1, Hseek2. change (negb (0 =? -1)) with true. cbv iota.
    apply Hstep. unfold shifted. cbn. rewrite Hpos, Hf, Hf2. auto.
  - rewrite Hseek1, Hseek2. change (negb (0 =? -1)) with true. cbv iota.
    apply Hstep. unfold shifted. cbn. rewrite Hpos. auto.
  - change (negb (-1 =? -1)) with false. cbv iota. unfold ret.
    eexists _, _, _. repeat split. exact Hd.
Qed.

Lemma update_record_shift (p : nat) (key : list ascii) (delta : Z)
    (m : list ascii) (w1 w2 : world) :
  shifted P p w1 w2 -> (21 <= p)%nat ->
  exists r w1' w2',
    update_record FILE_scores key delta m w1 = Some (r, w1')
    /\ update_record FILE_scores key delta m w2 = Some (r, w2')
    /\ file_data w1' = P ++ file_data w2'.
Proof.
  intros Hsh Hp. unfold update_record, bind at 1 3.
  destruct (get_score_call_spec m w1) as (v1 & -> & Hd1 & Hs1 & Hf1 & _).
  destruct (get_score_call_spec m w2) as (v2 & -> & Hd2 & Hs2 & Hf2 & _).
  assert (Hv : shifted P p v1 v2).
  { destruct Hsh as (Ha & Hb & Hc & Hd). unfold shifted.
    rewrite Hd1, Hd2, Hs1, Hs2, Hf1, Hf2. auto. }
  clear Hsh. rename Hv into Hsh.
  destruct (get_score m =? INT_MIN);
    [unfold ret; eexists _, _, _; repeat split; apply Hsh|].
  destruct (negb (check_sum (get_score m) delta =? 0));
    [|unfold ret; eexists _, _, _; repeat split; apply Hsh].
  unfold bind.
  destruct (write_score_shift p key (wrap_int (get_score m + delta)) v1 v2 Hsh Hp)
    as (r & w1' & w2' & -> & -> & Hd).
  destruct (negb (r =? 1)); unfold ret; eexists _, _, _; repeat split; exact Hd.
Qed.

End Shifted.

Lemma first_match_shift (key : list ascii) (k off : nat) (ls : list (list ascii)) :
  first_match key (k + off) ls
  = option_map (fun om => (k + fst om, snd om)%nat) (first_match key off ls).
Proof.
  revert off. induction ls as [|l ls IH]; intros off; simpl; [reflexivity|].
  destruct (candidate key l); [reflexivity|].
  rewrite <- Nat.add_assoc. apply IH.
Qed.

Lemma first_match_app (key : list ascii) (off : nat) (ls1 ls2 : list (list ascii)) :
  first_match key off ls1 = None ->
  first_match key off (ls1 ++ ls2)
  = first_match key (off + length (concat ls1)) ls2.
Proof.
  revert off. induction ls1 as [|l ls1 IH]; intros off H; simpl.
  - now rewrite Nat.add_0_r.
  - simpl in H. destruct (candidate key l); [discriminate|].
    rewrite IH by assumption. now rewrite length_app, Nat.add_assoc.
Qed.

(** Lines that are not candidates, before the rest of the file, leave
    the scan as it is on the rest. *)
Lemma find_record_skip_prefix (key : list ascii) (delta : Z) (P rest : list ascii)
    (fs : list io_fault) :
  split_lines (P ++ rest) = split_lines P ++ split_lines rest ->
  first_match key 0 (split_lines P) = None ->
  exists r w1 w2,
    find_record FILE_scores key delta (opened_world (P ++ rest) fs) = Some (r, w1)
    /\ find_record FILE_scores key delta (opened_world rest fs) = Some (r, w2)
    /\ file_data w1 = P ++ file_data w2.
Proof.
  intros Hsplit Hnone.
  rewrite (find_record_spec key delta (opened_world (P ++ rest) fs) O eq_refl).
  rewrite (find_record_spec key delta (opened_world rest fs) O eq_refl).
  unfold next_fault, opened_world. cbn [faults file_data]. cbv zeta.
  rewrite Hsplit, (first_match_app key 0 _ _ Hnone), concat_split_lines.
  rewrite <- (Nat.add_0_r (0 + length P)), first_match_shift. cbn [Nat.add].
  assert (Hgo : forall fs' t1 t2,
    exists r w1 w2,
      match option_map (fun om => (length P + fst om, snd om)%nat)
              (first_match key 0 (split_lines rest)) with
      | Some (off, m) =>
          update_record FILE_scores key delta m
            (at_pos (log (EvSeek true) (set_stream (Some O)
                       (set_faults fs' (mkWorld (P ++ rest) true (Some O) fs [EvOpen true]))))
               (off + 21) t1)
      | None =>
          Some (0, at_pos (log (EvSeek true) (set_stream (Some O)
                       (set_faults fs' (mkWorld (P ++ rest) true (Some O) fs [EvOpen true]))))
                     (length (P ++ rest)) t1)
      end = Some (r, w1)
      /\ match first_match key 0 (split_lines rest) with
         | Some (off, m) =>
             update_record FILE_scores key delta m
               (at_pos (log (EvSeek true) (set_stream (Some O)
                          (set_faults fs' (mkWorld rest true (Some O) fs [EvOpen true]))))
                  (off + 21) t2)
         | None =>
             Some (0, at_pos (log (EvSeek true) (set_stream (Some O)
                          (set_faults fs' (mkWorld rest true (Some O) fs [EvOpen true]))))
                        (length rest) t2)
         end = Some (r, w2)
      /\ file_data w1 = P ++ file_data w2).
  { intros fs' t1 t2.
    destruct (first_match key 0 (split_lines rest)) as [[off m]|]; cbn [option_map fst snd].
    - apply (update_record_shift P (off + 21)); [|lia].
      unfold shifted. cbn. repeat split. f_equal. lia.
    - eexists _, _, _. repeat split. }
  destruct fs as [|[|k] fs'].
  - apply Hgo.
  - apply Hgo.
  - eexists _, _, _. repeat split.
Qed.

(** ** Names *)

Lemma strlen_le (l : list ascii) : (strlen l <= length l)%nat.
Proof.
  induction l as [|c l IH]; simpl; [lia|]. destruct (c =? NUL)%char; lia.
Qed.

Lemma bytes_at_firstn (buf : list ascii) (n : nat) :
  (n <= length buf)%nat -> bytes_at buf n = firstn n buf.
Proof.
  intros H. rewrite <- (firstn_skipn n buf) at 1.
  pose proof (bytes_at_app (firstn n buf) (skipn n buf)) as E.
  now rewrite length_firstn, Nat.min_l in E by assumption.
Qed.

Lemma validate_name_spec (name : list ascii) :
  validate_name name =
    if (10 <? strlen name)%nat || existsb isspace (c_string name) then 0 else 1.
Proof.
  unfold validate_name, c_string.
  rewrite bytes_at_firstn by apply strlen_le.
  destruct (10 <? strlen name)%nat eqn:E.
  - apply Nat.ltb_lt in E. cbn [orb].
    replace (Z.of_nat (strlen name) >? 10) with true
      by (symmetry; apply Z.gtb_lt; lia). reflexivity.
  - apply Nat.ltb_ge in E. rewrite gtb_false by lia. cbn [orb].
    destruct (existsb isspace _); reflexivity.
Qed.

Lemma valid_name_validate (name : list ascii) :
  valid_name name = true -> validate_name name = 1.
Proof.
  intros H. destruct (valid_name_spec name H) as (Hl & Hn & Hs).
  rewrite validate_name_spec. unfold c_string.
  rewrite (strlen_no_nul name Hn), firstn_all.
  replace (10 <? length name)%nat with false by (symmetry; apply Nat.ltb_ge; lia).
  replace (existsb isspace name) with false; [reflexivity|].
  symmetry. clear Hl Hn H. induction name as [|c name IH]; [reflexivity|].
  simpl in *. apply andb_prop in Hs as [Hc Hs]. apply negb_true_iff in Hc.
  rewrite Hc. now apply IH.
Qed.

Lemma visible_spec (name : list ascii) :
  forallb visible name = true ->
  forallb (fun c => negb (c =? NUL)%char) name = true
  /\ existsb isspace name = false.
Proof.
  induction name as [|c name IH]; intros H; [now split|].
  simpl in H. apply andb_prop in H as [Hc H]. destruct (IH H) as [IH1 IH2].
  unfold visible in Hc. apply andb_prop in Hc as [Hc _].
  apply andb_prop in Hc as [Ha Hb]. simpl. rewrite Ha, IH1, IH2.
  apply negb_true_iff in Hb. now rewrite Hb.
Qed.

Lemma store_last (l : list ascii) (k : nat) (c : ascii) :
  length l = S k -> store l k c = firstn k l ++ [c].
Proof.
  revert k. induction l as [|x l IH]; intros k H; [discriminate|].
  destruct k as [|k]; simpl in *.
  - destruct l; [reflexivity|discriminate].
  - f_equal. apply IH. lia.
Qed.

(** A name of ten characters passes [validate_name], and loses its last
    character to the terminator. *)
Lemma ten_characters (name : list ascii) :
  length name = 10%nat -> forallb visible name = true ->
  validate_name name = 1 /\ name_to_search name = firstn 9 name ++ [NUL].
Proof.
  intros Hl Hv. destruct (visible_spec name Hv) as [Hn Hs]. split.
  - rewrite validate_name_spec. unfold c_string.
    rewrite (strlen_no_nul name Hn), firstn_all, Hs, Hl. reflexivity.
  - unfold name_to_search. change FIELD_SIZE with 10%nat.
    rewrite strncpy_long by (assumption || lia).
    rewrite firstn_all2 by lia. apply store_last. exact Hl.
Qed.

(** [adjust_score] sees of the name only [validate_name] and
    [name_to_search]. *)
Lemma adjust_score_name (uid : Z) (n1 n2 : list ascii) (delta : Z) (w : world) :
  validate_name n1 = validate_name n2 ->
  name_to_search n1 = name_to_search n2 ->
  adjust_score uid n1 delta w = adjust_score uid n2 delta w.
Proof.
  intros Hv Hn. unfold adjust_score. rewrite Hv.
  fold (name_to_search n1). fold (name_to_search n2). now rewrite Hn.
Qed.

(** ** The score parser *)

Lemma isdigit_spec (c : ascii) :
  isdigit c = true ->
  isspace c = false /\ (c =? NUL)%char = false
  /\ (c =? "-")%char = false /\ (c =? "+")%char = false
  /\ 0 <= code c - 48 < 10.
Proof.
  destruct c as [[] [] [] [] [] [] [] []]; intros H; try discriminate H;
    repeat split; reflexivity || (cbv; congruence).
Qed.

Lemma strtol_digits_prefix (ds rest : list ascii) (acc : Z) :
  forallb isdigit ds = true -> isdigit (load rest 0) = false ->
  strtol_digits acc (ds ++ rest)
  = (fold_left (fun a c => a * 10 + (code c - 48)) ds acc, rest).
Proof.
  revert acc. induction ds as [|d ds IH]; intros acc Hd Hr;
    cbn [app strtol_digits fold_left].
  - destruct rest as [|c rest]; [reflexivity|].
    change (load (c :: rest) 0) with c in Hr. cbn [strtol_digits]. now rewrite Hr.
  - cbn [forallb] in Hd. apply andb_prop in Hd as [Hd1 Hd2]. rewrite Hd1.
    now apply IH.
Qed.

(** [strtol] on a sign, digits, and something that is no digit. *)
Lemma strtol_numeric_prefix (sg : sign) (ds rest : list ascii) :
  ds <> [] -> forallb isdigit ds = true -> isdigit (load rest 0) = false ->
  strtol (sign_text sg ++ ds ++ rest) =
    let n := signed sg (decimal_value ds) in
    if n >? LONG_MAX then (LONG_MAX, true, rest)
    else if n <? LONG_MIN then (LONG_MIN, true, rest)
    else (n, false, rest).
Proof.
  intros Hne Hd Hr. pose proof (strtol_digits_prefix ds rest 0 Hd Hr) as Hs.
  destruct ds as [|d ds]; [congruence|].
  assert (Hd1 : isdigit d = true)
    by (cbn [forallb] in Hd; now apply andb_prop in Hd).
  destruct (isdigit_spec d Hd1) as (Hsp & _ & Hm & Hp & _).
  unfold strtol. destruct sg; cbn [sign_text app skip_space signed].
  - rewrite Hsp, Hm, Hp. change (load (d :: ds ++ rest) 0) with d.
    rewrite Hd1. cbn [app] in Hs. rewrite Hs. reflexivity.
  - change (isspace "+") with false. cbv iota.
    change ("+" =? "-")%char with false. change ("+" =? "+")%char with true.
    cbv iota. change (load (d :: ds ++ rest) 0) with d.
    rewrite Hd1. cbn [app] in Hs. rewrite Hs. reflexivity.
  - change (isspace "-") with false. cbv iota.
    change ("-" =? "-")%char with true.
    cbv iota. change (load (d :: ds ++ rest) 0) with d.
    rewrite Hd1. cbn [app] in Hs. rewrite Hs. reflexivity.
Qed.

(** The bounds are checked before the end of the number is looked at. *)
Lemma score_strtol_numeric_prefix (v : Z) (sg : sign) (ds : list ascii) (c : ascii)
    (rest : list ascii) :
  ds <> [] -> forallb isdigit ds = true ->
  isdigit c = false -> c <> NUL ->
  score_strtol v (sign_text sg ++ ds ++ c :: rest) =
    let n := signed sg (decimal_value ds) in
    if n >? INT_MAX then (SCORE_OVERFLOW, v)
    else if n <? SCORE_LOW_BOUND then (SCORE_UNDERFLOW, v)
    else (SCORE_INVALID, v).
Proof.
  intros Hne Hd Hc Hnul. unfold score_strtol.
  rewrite (strtol_numeric_prefix sg ds (c :: rest) Hne Hd Hc).
  assert (H0 : (load (sign_text sg ++ ds ++ c :: rest) 0 =? NUL)%char
               || isspace (load (sign_text sg ++ ds ++ c :: rest) 0) = false).
  { destruct sg; [|reflexivity|reflexivity].
    destruct ds as [|d ds]; [congruence|].
    assert (Hd1 : isdigit d = true)
    by (cbn [forallb] in Hd; now apply andb_prop in Hd).
    destruct (isdigit_spec d Hd1) as (Hsp & Hn & _).
    cbn [sign_text app]. change (load (d :: ds ++ c :: rest) 0) with d.
    now rewrite Hsp, Hn. }
  rewrite H0. cbv zeta.
  set (n := signed sg (decimal_value ds)).
  assert (Hend : negb (load (c :: rest) 0 =? NUL)%char = true).
  { change (load (c :: rest) 0) with c. apply negb_true_iff.
    now apply Ascii.eqb_neq. }
  unfold INT_MAX, SCORE_LOW_BOUND, LONG_MAX, LONG_MIN.
  destruct (n >? 9223372036854775807) eqn:E1.
  - rewrite Z.gtb_ltb in E1. apply Z.ltb_lt in E1.
    replace (n >? 2147483647) with true by (symmetry; apply Z.gtb_lt; lia).
    reflexivity.
  - rewrite Z.gtb_ltb in E1. apply Z.ltb_ge in E1.
    destruct (n <? -9223372036854775808) eqn:E2.
    + apply Z.ltb_lt in E2.
      rewrite (gtb_false n 2147483647), (proj2 (Z.ltb_lt n (-999999999))) by lia.
      reflexivity.
    + cbn [andb orb]. rewrite !orb_false_r.
      destruct (n >? 2147483647); [reflexivity|].
      destruct (n <? -999999999); [reflexivity|].
      now rewrite Hend.
Qed.

(** ** The functions that do no I/O *)

Lemma code_inj (c1 c2 : ascii) : code c1 = code c2 -> c1 = c2.
Proof.
  unfold code. intros H. apply N2Z.inj in H.
  rewrite <- (ascii_N_embedding c1), <- (ascii_N_embedding c2). now rewrite H.
Qed.

Lemma c_string_unfold (x : list ascii) :
  c_string x
  = if (load x 0 =? NUL)%char then [] else load x 0 :: c_string (tl x).
Proof.
  unfold c_string. destruct x as [|c x]; [reflexivity|].
  change (load (c :: x) 0) with c. cbn [strlen tl].
  destruct (c =? NUL)%char; reflexivity.
Qed.

Lemma strlen_unfold (x : list ascii) :
  strlen x = if (load x 0 =? NUL)%char then O else S (strlen (tl x)).
Proof.
  destruct x as [|c x]; [reflexivity|].
  change (load (c :: x) 0) with c. cbn [strlen tl]. reflexivity.
Qed.

(** [strncmp] answers 0 exactly on equal strings, when its bound is
    beyond the end of one of them. *)
Lemma strncmp_zero_iff (n : nat) (a b : list ascii) :
  (strlen b < n)%nat -> (strncmp a b n = 0 <-> c_string a = c_string b).
Proof.
  revert a b. induction n as [|n IH]; intros a b Hb; [lia|].
  cbn [strncmp]. rewrite (c_string_unfold a), (c_string_unfold b).
  rewrite (strlen_unfold b) in Hb.
  destruct (load a 0 =? load b 0)%char eqn:E; cbn [negb].
  - apply Ascii.eqb_eq in E. rewrite <- E in *.
    destruct (load a 0 =? NUL)%char; [tauto|].
    rewrite (IH (tl a) (tl b)) by lia.
    split; [now intros ->|now intros H; injection H].
  - apply Ascii.eqb_neq in E. split.
    + intros H. exfalso. apply E, code_inj. lia.
    + intros H. exfalso.
      destruct (load a 0 =? NUL)%char eqn:Ea, (load b 0 =? NUL)%char eqn:Eb;
        try discriminate H.
      * apply Ascii.eqb_eq in Ea, Eb. congruence.
      * injection H as H _. contradiction.
Qed.

Lemma load_bytes_at (buf : list ascii) (n i : nat) :
  (i < n)%nat -> load (bytes_at buf n) i = load buf i.
Proof.
  intros H. unfold bytes_at, load at 1.
  rewrite (nth_indep _ NUL (load buf 0)) by (rewrite length_map, length_seq; lia).
  rewrite map_nth, seq_nth by lia. reflexivity.
Qed.

Lemma strlen_le_nul (buf : list ascii) (i : nat) :
  load buf i = NUL -> (strlen buf <= i)%nat.
Proof.
  revert i. induction buf as [|c buf IH]; intros i H; simpl; [lia|].
  destruct (c =? NUL)%char eqn:E; [lia|].
  destruct i as [|i].
  - change (load (c :: buf) 0) with c in H. apply Ascii.eqb_neq in E. contradiction.
  - apply le_n_S, IH. exact H.
Qed.

Lemma match_name_iff (player_name line_buf : list ascii) :
  (match_name player_name line_buf = 1 <->
   load line_buf 9 = NUL
   /\ c_string player_name = c_string (bytes_at line_buf 10))
  /\ (match_name player_name line_buf = 0 \/ match_name player_name line_buf = 1).
Proof.
  unfold match_name. change (FIELD_SIZE - 1)%nat with 9%nat.
  change (map (load line_buf) (seq 0 FIELD_SIZE)) with (bytes_at line_buf 10).
  change FIELD_SIZE with 10%nat.
  destruct (load line_buf 9 =? NUL)%char eqn:E; cbn [negb].
  - apply Ascii.eqb_eq in E.
    assert (E9 : load (bytes_at line_buf 10) 9 = NUL)
      by (rewrite load_bytes_at by lia; exact E).
    pose proof (store_same (bytes_at line_buf 10) 9) as Hst.
    rewrite E9 in Hst. rewrite Hst.
    pose proof (strncmp_zero_iff 10 player_name (bytes_at line_buf 10)) as Hz.
    specialize (Hz ltac:(pose proof (strlen_le_nul _ _ E9); lia)).
    destruct (strncmp player_name (bytes_at line_buf 10) 10 =? 0) eqn:Ec; cbn [negb].
    + apply Z.eqb_eq in Ec. split; [|now right].
      split; [intros _; split; [exact E|now apply Hz]|reflexivity].
    + apply Z.eqb_neq in Ec. split; [|now left].
      split; [discriminate|]. intros [_ H]. exfalso. now apply Ec, Hz.
  - apply Ascii.eqb_neq in E. split; [|now left].
    split; [discriminate|]. intros [H _]. contradiction.
Qed.

(** ** Names and records *)

Lemma c_string_no_nul (buf : list ascii) :
  forallb (fun c => negb (c =? NUL)%char) (c_string buf) = true.
Proof.
  unfold c_string. induction buf as [|c buf IH]; [reflexivity|].
  cbn [strlen]. destruct (c =? NUL)%char eqn:E; [reflexivity|].
  cbn [firstn forallb]. now rewrite E, IH.
Qed.

Lemma length_c_string (buf : list ascii) : length (c_string buf) = strlen buf.
Proof.
  unfold c_string. rewrite length_firstn. pose proof (strlen_le buf). lia.
Qed.

Lemma forallb_firstn (f : ascii -> bool) (n : nat) (l : list ascii) :
  forallb f l = true -> forallb f (firstn n l) = true.
Proof.
  revert n. induction l as [|c l IH]; intros [|n] H; try reflexivity.
  cbn [forallb firstn] in *. apply andb_prop in H as [H1 H2].
  now rewrite H1, IH.
Qed.

(** [strncpy] copies the string, cut at [n] characters, and pads with
    terminators. *)
Lemma strncpy_c_string (n : nat) (src : list ascii) :
  strncpy src n = pad n NUL (firstn n (c_string src)).
Proof.
  unfold pad. revert src. induction n as [|n IH]; intros src; [reflexivity|].
  assert (Hnil : NUL :: strncpy [] n = repeat NUL (S n)).
  { rewrite (IH []). unfold c_string. cbn [strlen firstn].
    rewrite firstn_nil. cbn [app length]. now rewrite Nat.sub_0_r. }
  cbn [strncpy]. destruct src as [|c src].
  - rewrite Hnil. unfold c_string. cbn [strlen firstn app length]. reflexivity.
  - rewrite (c_string_unfold (c :: src)). change (load (c :: src) 0) with c.
    cbn [tl]. destruct (c =? NUL)%char.
    + rewrite Hnil. reflexivity.
    + rewrite IH. cbn [firstn app length]. reflexivity.
Qed.

Lemma name_to_search_pad (player_name : list ascii) :
  name_to_search player_name = pad 10 NUL (firstn 9 (c_string player_name)).
Proof.
  unfold name_to_search. change FIELD_SIZE with 10%nat. change (10 - 1)%nat with 9%nat.
  rewrite strncpy_c_string. unfold pad.
  set (cs := c_string player_name).
  destruct (Nat.le_gt_cases (length cs) 9) as [H|H].
  - rewrite !firstn_all2 by lia.
    assert (E : load (cs ++ repeat NUL (10 - length cs)) 9 = NUL).
    { destruct (Nat.eq_dec (length cs) 9) as [E9|E9].
      - rewrite load_app_r by lia. rewrite E9. reflexivity.
      - rewrite load_app_r by lia. unfold load. apply nth_repeat. }
    pose proof (store_same (cs ++ repeat NUL (10 - length cs)) 9) as Hs.
    now rewrite E in Hs.
  - assert (L10 : length (firstn 10 cs) = 10%nat) by (rewrite length_firstn; lia).
    assert (L9 : length (firstn 9 cs) = 9%nat) by (rewrite length_firstn; lia).
    rewrite L10, L9. cbn [Nat.sub repeat]. rewrite app_nil_r.
    rewrite (store_last (firstn 10 cs) 9 NUL L10).
    now rewrite firstn_firstn.
Qed.

Lemma digit_char_not_LF (d : Z) : 0 <= d < 10 -> (digit_char d =? LF)%char = false.
Proof.
  intros H.
  assert (d = 0 \/ d = 1 \/ d = 2 \/ d = 3 \/ d = 4 \/ d = 5 \/ d = 6 \/ d = 7
          \/ d = 8 \/ d = 9) as Hd by lia.
  repeat (destruct Hd as [-> | Hd]; [reflexivity|]). now subst d.
Qed.

Lemma utoa_no_LF (n : Z) :
  0 <= n -> forallb (fun c => negb (c =? LF)%char) (utoa n) = true.
Proof.
  intros Hn. destruct (digits_of_spec n Hn) as (-> & Hd & _).
  induction Hd as [|d ds Hd _ IH]; [reflexivity|].
  cbn [map forallb]. now rewrite (digit_char_not_LF d Hd), IH.
Qed.

Lemma itoa_no_LF (z : Z) : forallb (fun c => negb (c =? LF)%char) (itoa z) = true.
Proof.
  unfold itoa. destruct (z <? 0) eqn:E.
  - apply Z.ltb_lt in E. cbn [forallb].
    rewrite utoa_no_LF by lia. reflexivity.
  - apply Z.ltb_ge in E. now apply utoa_no_LF.
Qed.

(** The score field, also when the score is cut to fit. *)
Lemma score_field_cut (score : Z) :
  score_field score
  = firstn 10 (itoa score)
    ++ repeat NUL (10 - length (firstn 10 (itoa score))) ++ [LF].
Proof.
  unfold score_field, snprintf_d. cbn [snd].
  change (11 - 1)%nat with 10%nat. change (FIELD_SIZE + 1)%nat with 11%nat.
  change FIELD_SIZE with 10%nat.
  set (s10 := firstn 10 (itoa score)).
  assert (L : (length s10 <= 10)%nat) by (unfold s10; rewrite length_firstn; lia).
  rewrite skipn_repeat_NUL, length_app. cbn [length].
  rewrite <- app_assoc. rewrite store_app_r by assumption.
  f_equal. cbn [app].
  replace (11 - (length s10 + 1))%nat with (10 - length s10)%nat by lia.
  apply (store_repeat_last NUL LF).
Qed.

Lemma forallb_repeat_NUL (n : nat) :
  forallb (fun c => negb (c =? LF)%char) (repeat NUL n) = true.
Proof. induction n as [|n IH]; [reflexivity|exact IH]. Qed.

Lemma read_line_body (body rest : list ascii) :
  forallb (fun c => negb (c =? LF)%char) body = true ->
  read_line ((body ++ [LF]) ++ rest) = (body ++ [LF], rest).
Proof.
  induction body as [|c body IH]; intros H; [reflexivity|].
  cbn [forallb] in H. apply andb_prop in H as [H1 H2].
  apply negb_true_iff in H1. cbn [app read_line]. rewrite H1.
  rewrite (IH H2). reflexivity.
Qed.

Lemma no_space_no_LF (l : list ascii) :
  existsb isspace l = false -> forallb (fun c => negb (c =? LF)%char) l = true.
Proof.
  induction l as [|c l IH]; intros H; [reflexivity|].
  cbn [existsb] in H. apply orb_false_iff in H as [H1 H2].
  cbn [forallb]. rewrite (IH H2), andb_true_r.
  apply negb_true_iff, Ascii.eqb_neq. intros ->. discriminate H1.
Qed.

Lemma existsb_firstn (f : ascii -> bool) (n : nat) (l : list ascii) :
  existsb f l = false -> existsb f (firstn n l) = false.
Proof.
  revert n. induction l as [|c l IH]; intros [|n] H; try reflexivity.
  cbn [existsb firstn] in *. apply orb_false_iff in H as [H1 H2].
  now rewrite H1, IH.
Qed.

Lemma validate_name_no_space (name : list ascii) :
  validate_name name = 1 ->
  (strlen name <= 10)%nat /\ existsb isspace (c_string name) = false.
Proof.
  rewrite validate_name_spec. intros H.
  destruct (10 <? strlen name)%nat eqn:E1; [discriminate|].
  destruct (existsb isspace (c_string name)); [discriminate|].
  apply Nat.ltb_ge in E1. now split.
Qed.

(** The record of an accepted name: 20 bytes that are no newline, and the
    newline. *)
Lemma record_bytes_body (name : list ascii) (score : Z) :
  validate_name name = 1 ->
  exists body,
    record_bytes name score = body ++ [LF]
    /\ forallb (fun c => negb (c =? LF)%char) body = true.
Proof.
  intros Hv. destruct (validate_name_no_space name Hv) as [_ Hs].
  exists (name_to_search name
          ++ firstn 10 (itoa score)
          ++ repeat NUL (10 - length (firstn 10 (itoa score)))).
  split.
  - rewrite record_bytes_eq, score_field_cut. now rewrite <- !app_assoc.
  - rewrite !forallb_app. rewrite forallb_repeat_NUL, andb_true_r.
    rewrite (forallb_firstn _ 10 _ (itoa_no_LF score)), andb_true_r.
    rewrite name_to_search_pad. unfold pad.
    rewrite forallb_app, forallb_repeat_NUL, andb_true_r.
    apply no_space_no_LF, existsb_firstn, Hs.
Qed.

Lemma candidate_record (name : list ascii) (score : Z) :
  candidate (name_to_search name) (record_bytes name score) = true.
Proof.
  unfold candidate. rewrite length_record_bytes. cbn [Z.of_nat Z.eqb Pos.eqb andb].
  rewrite record_bytes_eq, match_name_written. reflexivity.
Qed.

(** ** The scan and the update in place *)

Lemma update_record_result (key : list ascii) (delta : Z) (m : list ascii)
    (w w' : world) (r : Z) :
  update_record FILE_scores key delta m w = Some (r, w') -> r = -1 \/ r = 1.
Proof.
  destruct (update_record_unfold key delta m w) as (w0 & _ & _ & _ & _ & _ & ->).
  destruct (get_score m =? INT_MIN).
  { unfold ret. intros H. injection H as <- _. now left. }
  destruct (negb (check_sum (get_score m) delta =? 0)).
  2: { unfold ret. intros H. injection H as <- _. now left. }
  unfold bind.
  destruct (write_score_total key (wrap_int (get_score m + delta)) SEEK_CUR (-21) w0)
    as (r1 & w1 & ->).
  destruct (negb (r1 =? 1)); unfold ret; intros H; injection H as <- _; auto.
Qed.

Lemma pwrite_mid (pre old post b : list ascii) :
  length old = length b ->
  pwrite (pre ++ old ++ post) (length pre) b = pre ++ b ++ post.
Proof.
  intros H. unfold pwrite.
  rewrite firstn_app, firstn_all, Nat.sub_diag. cbn [firstn].
  rewrite app_nil_r, length_app.
  replace (length pre - (length pre + length (old ++ post)))%nat with O by lia.
  cbn [repeat app].
  rewrite skipn_app, skipn_all2 by lia.
  replace (length pre + length b - length pre)%nat with (length old) by lia.
  rewrite skipn_app, skipn_all, Nat.sub_diag. reflexivity.
Qed.

Lemma fseek_cur_ok (w : world) (pos : nat) :
  stream w = Some (pos + 21)%nat -> faults w = [] ->
  fseek FILE_scores (-21) SEEK_CUR w = Some (0, at_pos w pos [EvSeek true]).
Proof.
  intros Hs Hf. unfold fseek, next_fault. rewrite Hs, Hf.
  rewrite ltb_false by lia.
  replace (Z.to_nat (Z.of_nat (pos + 21) + -21)) with pos by lia.
  unfold at_pos, log, set_stream. cbn. now rewrite Hf.
Qed.

(** [write_score] over the line just read, every call succeeding. *)
Lemma write_score_update (key : list ascii) (score : Z) (w : world)
    (pre old post : list ascii) :
  stream w = Some (length pre + 21)%nat -> faults w = [] ->
  file_data w = pre ++ old ++ post -> length old = 21%nat ->
  write_score FILE_scores key score SEEK_CUR (-21) w =
    Some (1, mkWorld
               (pre ++ (bytes_at key FIELD_SIZE
                        ++ bytes_at (score_field score) (FIELD_SIZE + 1)) ++ post)
               (can_open w) (Some (length pre + 21)%nat) []
               (trace w ++ [EvSeek true; EvWrite (bytes_at key FIELD_SIZE);
                            EvWrite (bytes_at (score_field score) (FIELD_SIZE + 1))])).
Proof.
  intros Hs Hf Hd Hl. rewrite write_score_unfold. unfold bind at 1.
  rewrite (fseek_cur_ok w (length pre) Hs Hf).
  change (negb (0 =? -1)) with true. cbv iota. unfold bind at 1.
  erewrite fwrite_ok; [|reflexivity|exact Hf].
  change (1 <=? 0) with false. cbv iota. unfold bind at 1.
  erewrite fwrite_ok; [|reflexivity|reflexivity].
  change (1 <=? 0) with false. cbv iota. unfold ret.
  cbn [file_data can_open trace at_pos]. rewrite Hd.
  rewrite <- (firstn_skipn 10 old).
  assert (L1 : length (firstn 10 old) = 10%nat) by (rewrite length_firstn; lia).
  assert (L2 : length (skipn 10 old) = 11%nat) by (rewrite length_skipn; lia).
  rewrite <- (app_assoc (firstn 10 old)).
  rewrite pwrite_mid by (now rewrite length_bytes_at).
  replace (length pre + FIELD_SIZE)%nat
    with (length (pre ++ bytes_at key FIELD_SIZE))
    by (now rewrite length_app, length_bytes_at).
  rewrite (app_assoc pre), pwrite_mid by (now rewrite length_bytes_at).
  replace (length (pre ++ bytes_at key FIELD_SIZE) + (FIELD_SIZE + 1))%nat
    with (length pre + 21)%nat
    by (rewrite length_app, length_bytes_at; unfold FIELD_SIZE; lia).
  rewrite <- !app_assoc. reflexivity.
Qed.

Lemma first_match_split (key : list ascii) (ls : list (list ascii)) :
  forall (off0 off : nat) (m : list ascii),
  first_match key off0 ls = Some (off, m) ->
  exists ls1 ls2,
    ls = ls1 ++ m :: ls2
    /\ first_match key off0 ls1 = None
    /\ off = (off0 + length (concat ls1))%nat
    /\ candidate key m = true.
Proof.
  induction ls as [|l ls IH]; intros off0 off m H; [discriminate|].
  cbn [first_match] in H. destruct (candidate key l) eqn:E.
  - injection H as <- <-. exists [], ls. cbn. now rewrite Nat.add_0_r.
  - destruct (IH _ _ _ H) as (ls1 & ls2 & -> & Hn & -> & Hc).
    exists (l :: ls1), ls2. cbn [app first_match concat]. rewrite E.
    repeat split; try assumption. rewrite length_app. lia.
Qed.

Lemma read_line_LF (u l r : list ascii) :
  read_line u = (l, r) -> r <> [] -> exists b, l = b ++ [LF].
Proof.
  revert l r. induction u as [|c u IH]; intros l r H Hr.
  - injection H as <- <-. congruence.
  - cbn [read_line] in H. destruct (c =? LF)%char eqn:E.
    + injection H as <- <-. apply Ascii.eqb_eq in E. subst c. now exists [].
    + destruct (read_line u) as [l1 r1]. injection H as <- <-.
      destruct (IH l1 r1 eq_refl Hr) as (b & ->). now exists (c :: b).
Qed.

(** The lines before a line of the file are whole lines, and the lines
    after it the lines of what follows. *)
Lemma split_lines_around (ls1 : list (list ascii)) :
  forall (u m : list ascii) (ls2 : list (list ascii)),
  split_lines u = ls1 ++ m :: ls2 ->
  (concat ls1 = [] \/ exists p, concat ls1 = p ++ [LF])
  /\ split_lines (concat ls1) = ls1
  /\ split_lines (concat ls2) = ls2
  /\ u = concat ls1 ++ m ++ concat ls2.
Proof.
  induction ls1 as [|l ls1 IH]; intros u m ls2 H.
  - cbn [app] in H. destruct (split_lines_cons _ _ _ H) as (r & Hu & _ & Hr & _).
    pose proof (concat_split_lines r) as Hc. rewrite Hr in Hc.
    cbn [concat app]. rewrite Hc, Hr. auto.
  - cbn [app] in H. destruct (split_lines_cons _ _ _ H) as (r & Hu & Hrl & Hr & Hl).
    destruct (IH r m ls2 Hr) as (Hpre & Hs1 & Hs2 & Hcat).
    assert (Hrne : r <> []) by (intros ->; destruct ls1; discriminate Hr).
    destruct (read_line_LF _ _ _ Hrl Hrne) as (b & Hb).
    rewrite Hu in Hrl.
    destruct (read_line_one_line l r Hl Hrl) as [Hone _].
    assert (Hlc : l = [] \/ exists p, l = p ++ [LF]) by (right; now exists b).
    cbn [concat]. split; [|split; [|split]].
    + right. destruct Hpre as [->|[p ->]].
      * exists b. now rewrite app_nil_r.
      * exists (l ++ p). now rewrite app_assoc.
    + now rewrite (split_lines_app_complete l _ Hlc), Hone, Hs1.
    + exact Hs2.
    + rewrite Hu, Hcat. now rewrite <- app_assoc.
Qed.

(** A line of the file replaced by a line: the lines of the file are
    the same but for that one. *)
Lemma split_lines_replace (ls1 ls2 : list (list ascii)) (u m line : list ascii) :
  split_lines u = ls1 ++ m :: ls2 ->
  line <> [] -> read_line (line ++ concat ls2) = (line, concat ls2) ->
  split_lines (concat ls1 ++ line ++ concat ls2) = ls1 ++ line :: ls2.
Proof.
  intros H Hne Hrl. destruct (split_lines_around ls1 u m ls2 H) as (Hpre & Hs1 & Hs2 & _).
  rewrite (split_lines_app_complete _ _ Hpre), Hs1.
  destruct (read_line_one_line line (concat ls2) Hne Hrl) as [_ ->].
  now rewrite Hs2.
Qed.

(** [adjust_score] for a name whose record is in the file, its score
    valid and the sum within the bounds, every call succeeding. *)
Lemma adjust_score_update (uid : Z) (name : list ascii) (delta : Z)
    (pre m post : list ascii) :
  validate_name name = 1 ->
  first_match (name_to_search name) 0 (split_lines (pre ++ m ++ post))
  = Some (length pre, m) ->
  get_score m <> INT_MIN ->
  check_sum (get_score m) delta <> 0 ->
  exists w',
    adjust_score uid name delta (initial_world (pre ++ m ++ post) true [])
    = Some ((1, None), w')
    /\ file_data w'
       = pre ++ record_bytes name (wrap_int (get_score m + delta)) ++ post
    /\ closed w'.
Proof.
  intros Hv Hm Hg Hc.
  destruct (first_match_split _ _ _ _ _ Hm) as (_ & _ & _ & _ & _ & Hcand).
  assert (Hl : length m = 21%nat).
  { unfold candidate in Hcand. apply andb_prop in Hcand as [Hcand _].
    apply Z.eqb_eq in Hcand. lia. }
  rewrite (adjust_score_opened uid name delta _ [] Hv).
  rewrite (find_record_spec _ _ (opened_world (pre ++ m ++ post) []) O eq_refl).
  unfold next_fault. cbn [faults opened_world file_data]. cbv zeta. rewrite Hm.
  match goal with
  | |- context [update_record _ _ _ _ ?w] =>
      destruct (update_record_unfold (name_to_search name) delta m w)
        as (w0 & _ & _ & _ & _ & Hw0 & ->)
  end.
  rewrite (Hw0 Hg).
  replace (get_score m =? INT_MIN) with false by (symmetry; now apply Z.eqb_neq).
  replace (check_sum (get_score m) delta =? 0) with false
    by (symmetry; now apply Z.eqb_neq).
  cbn [negb]. unfold bind at 1.
  erewrite (write_score_update _ _ _ pre m post); [|reflexivity|reflexivity|reflexivity|exact Hl].
  change (negb (1 =? 1)) with false. cbv iota. unfold ret.
  change (1 =? -1) with false. change (1 =? 0) with false. cbv iota.
  eexists. split; [reflexivity|]. split; [reflexivity|apply closed_fclose].
Qed.

Lemma record_read_back (name : list ascii) (score : Z) (rest : list ascii) :
  validate_name name = 1 ->
  record_bytes name score <> []
  /\ read_line (record_bytes name score ++ rest) = (record_bytes name score, rest).
Proof.
  intros Hv. destruct (record_bytes_body name score Hv) as (body & -> & Hb).
  split; [destruct body; discriminate|now apply read_line_body].
Qed.

(** [adjust_score] on a record that is there, in terms of the file. *)
Lemma update_in_place_spec (uid : Z) (name : list ascii) (delta : Z)
    (data : list ascii) (off : nat) (m : list ascii) (s : Z) :
  validate_name name = 1 ->
  INT_MIN <= delta <= INT_MAX ->
  first_match (name_to_search name) 0 (split_lines data) = Some (off, m) ->
  get_score m = s -> s <> INT_MIN ->
  SCORE_LOW_BOUND <= s + delta <= INT_MAX ->
  let record := record_bytes name (s + delta) in
  exists w',
    adjust_score uid name delta (initial_world data true []) = Some ((1, None), w')
    /\ file_data w' = firstn off data ++ record ++ skipn (off + 21) data
    /\ (off + 21 <= length data)%nat
    /\ length (file_data w') = length data
    /\ get_score record = s + delta
    /\ first_match (name_to_search name) 0 (split_lines (file_data w'))
       = Some (off, record)
    /\ closed w'.
Proof.
  intros Hv Hd Hm Hs Hne Hsum record. subst record.
  destruct (first_match_split _ _ _ _ _ Hm) as (ls1 & ls2 & Hls & Hnone & Hoff & Hcand).
  destruct (split_lines_around ls1 data m ls2 Hls) as (_ & _ & _ & Hdata).
  cbn [Nat.add] in Hoff.
  assert (Hl : length m = 21%nat).
  { unfold candidate in Hcand. apply andb_prop in Hcand as [Hcand _].
    apply Z.eqb_eq in Hcand. lia. }
  assert (Hrange : SCORE_LOW_BOUND <= s <= INT_MAX).
  { destruct (get_score_range m) as [E|E]; rewrite Hs in E; [contradiction|exact E]. }
  assert (Hcs : check_sum (get_score m) delta <> 0).
  { rewrite Hs, check_sum_spec
      by (unfold SCORE_LOW_BOUND, INT_MIN, INT_MAX in *; lia).
    rewrite gtb_false, ltb_false by lia. discriminate. }
  assert (Hw : wrap_int (s + delta) = s + delta)
    by (apply wrap_int_id; unfold SCORE_LOW_BOUND, INT_MIN, INT_MAX in *; lia).
  assert (Hm' : first_match (name_to_search name) 0
                  (split_lines (concat ls1 ++ m ++ concat ls2))
                = Some (length (concat ls1), m))
    by (rewrite <- Hdata, <- Hoff; exact Hm).
  destruct (adjust_score_update uid name delta (concat ls1) m (concat ls2) Hv Hm'
              ltac:(now rewrite Hs) Hcs) as (w' & Ha & Hf & Hc).
  rewrite Hs, Hw in Hf. rewrite <- Hdata in Ha.
  exists w'. split; [exact Ha|]. rewrite Hf.
  assert (Hfirst : firstn off data = concat ls1).
  { rewrite Hdata, Hoff, firstn_app, firstn_all, Nat.sub_diag. cbn [firstn].
    apply app_nil_r. }
  assert (Hskip : skipn (off + 21) data = concat ls2).
  { rewrite Hdata, Hoff, skipn_app, skipn_all2 by lia.
    replace (length (concat ls1) + 21 - length (concat ls1))%nat with (length m) by lia.
    rewrite skipn_app, skipn_all, Nat.sub_diag. reflexivity. }
  split; [now rewrite Hfirst, Hskip|].
  split.
  { rewrite Hdata, Hoff, !length_app. lia. }
  split.
  { rewrite Hdata, !length_app, length_record_bytes. lia. }
  split.
  { rewrite record_bytes_eq. apply get_score_written;
      [apply length_name_to_search|exact Hsum]. }
  split; [|exact Hc].
  destruct (record_read_back name (s + delta) (concat ls2) Hv) as [Hrne Hrl].
  rewrite (split_lines_replace ls1 ls2 data m _ Hls Hrne Hrl).
  rewrite (first_match_app _ 0 _ _ Hnone). cbn [first_match Nat.add].
  now rewrite candidate_record, Hoff.
Qed.

Lemma first_match_appended (name : list ascii) (score : Z) (data : list ascii) :
  validate_name name = 1 ->
  data = [] \/ (exists p, data = p ++ [LF]) ->
  first_match (name_to_search name) 0 (split_lines data) = None ->
  first_match (name_to_search name) 0 (split_lines (data ++ record_bytes name score))
  = Some (length data, record_bytes name score).
Proof.
  intros Hv Hdata Hm.
  destruct (record_read_back name score [] Hv) as [Hne Hrl].
  destruct (read_line_one_line _ _ Hne Hrl) as [Hone _].
  rewrite (split_lines_app_complete _ _ Hdata), Hone.
  rewrite (first_match_app _ 0 _ _ Hm), concat_split_lines.
  cbn [first_match Nat.add]. now rewrite candidate_record.
Qed.

(** ** Appending *)

Lemma split_lines_app_partial (v : list ascii) :
  v <> [] -> read_line v = (v, []) ->
  forall (p : list ascii) (c : ascii),
  (c =? LF)%char = false ->
  exists ls l,
    split_lines (p ++ [c]) = ls ++ [l]
    /\ l <> []
    /\ split_lines ((p ++ [c]) ++ v) = ls ++ [l ++ v].
Proof.
  intros Hv Hrl.
  assert (Hone : split_lines v = [v]).
  { assert (Hrl' : read_line (v ++ []) = (v, [])) by (now rewrite app_nil_r).
    now destruct (read_line_one_line v [] Hv Hrl'). }
  induction p as [|c0 p IH]; intros c Hc.
  - exists [], [c]. cbn [app split_lines]. rewrite Hc, Hone.
    repeat split. discriminate.
  - destruct (IH c Hc) as (ls & l & E1 & Hl & E2).
    cbn [app split_lines]. rewrite E1, E2. destruct (c0 =? LF)%char.
    + exists ([c0] :: ls), l. repeat split. exact Hl.
    + destruct ls as [|x ls]; cbn [app].
      * exists [], (c0 :: l). repeat split. discriminate.
      * exists ((c0 :: x) :: ls), l. repeat split. exact Hl.
Qed.

Lemma first_match_app_none (key : list ascii) (off : nat) (ls1 ls2 : list (list ascii)) :
  first_match key off (ls1 ++ ls2) = None -> first_match key off ls1 = None.
Proof.
  revert off. induction ls1 as [|l ls1 IH]; intros off H; [reflexivity|].
  cbn [app first_match] in *. destruct (candidate key l); [discriminate|].
  now apply IH.
Qed.

(** ** What a call does to the file *)

(** [adjust_score] for an accepted name on a file that opens, every call
    succeeding: what it returns and what the file is afterwards. *)
Lemma adjust_score_no_fault (uid : Z) (name : list ascii) (delta : Z)
    (data : list ascii) :
  validate_name name = 1 ->
  match first_match (name_to_search name) 0 (split_lines data) with
  | None =>
      exists w',
        adjust_score uid name delta (initial_world data true []) = Some ((1, None), w')
        /\ file_data w' = data ++ record_bytes name delta
  | Some (off, m) =>
      if (get_score m =? INT_MIN) || (check_sum (get_score m) delta =? 0) then
        exists w',
          adjust_score uid name delta (initial_world data true [])
          = Some ((0, Some ("Error found in record" ++ nl)%string), w')
          /\ file_data w' = data
          /\ existsb is_write (trace w') = false
      else
        exists w' ls1 ls2,
          adjust_score uid name delta (initial_world data true []) = Some ((1, None), w')
          /\ split_lines data = ls1 ++ m :: ls2
          /\ candidate (name_to_search name) m = true
          /\ file_data w'
             = concat ls1 ++ record_bytes name (wrap_int (get_score m + delta))
               ++ concat ls2
  end.
Proof.
  intros Hv.
  destruct (first_match (name_to_search name) 0 (split_lines data)) as [[off m]|] eqn:Hm.
  - destruct ((get_score m =? INT_MIN) || (check_sum (get_score m) delta =? 0)) eqn:E.
    + assert (Hu : get_score m = INT_MIN \/ check_sum (get_score m) delta = 0).
      { apply orb_true_iff in E as [E|E]; apply Z.eqb_eq in E; auto. }
      destruct (adjust_score_scan_error uid name delta data [] off m Hv Hm Hu)
        as (_ & w' & Ha & Hf & Ht & _).
      exists w'. auto.
    + apply orb_false_iff in E as [E1 E2]. apply Z.eqb_neq in E1, E2.
      destruct (first_match_split _ _ _ _ _ Hm) as (ls1 & ls2 & Hls & _ & Hoff & Hcand).
      destruct (split_lines_around ls1 data m ls2 Hls) as (_ & _ & _ & Hdata).
      cbn [Nat.add] in Hoff.
      assert (Hm' : first_match (name_to_search name) 0
                      (split_lines (concat ls1 ++ m ++ concat ls2))
                    = Some (length (concat ls1), m))
        by (rewrite <- Hdata, <- Hoff; exact Hm).
      destruct (adjust_score_update uid name delta (concat ls1) m (concat ls2) Hv Hm' E1 E2)
        as (w' & Ha & Hf & _).
      rewrite <- Hdata in Ha. exists w', ls1, ls2. auto.
  - destruct (adjust_score_append uid name delta data Hv Hm) as (w' & Ha & Hf & _).
    exists w'. auto.
Qed.

Lemma candidate_other (key key2 m : list ascii) :
  candidate key m = true -> c_string key2 <> c_string key ->
  candidate key2 m = false.
Proof.
  unfold candidate. intros H Hk. apply andb_prop in H as [H1 H2]. rewrite H1.
  cbn [andb]. apply negb_true_iff, Z.eqb_neq in H2.
  destruct (match_name_iff key m) as [Hk1 [E|E]]; [contradiction|].
  destruct (match_name_iff key2 m) as [Hk2 [E2|E2]]; [now rewrite E2|].
  exfalso. apply Hk. apply Hk1 in E as [_ E]. apply Hk2 in E2 as [_ E2]. congruence.
Qed.

Lemma first_match_replace (key : list ascii) (m r : list ascii)
    (ls1 ls2 : list (list ascii)) :
  candidate key m = false -> candidate key r = false -> length m = length r ->
  forall off,
  first_match key off (ls1 ++ r :: ls2) = first_match key off (ls1 ++ m :: ls2).
Proof.
  intros Hm Hr Hl. induction ls1 as [|l ls1 IH]; intros off; cbn [app first_match].
  - now rewrite Hm, Hr, Hl.
  - destruct (candidate key l); [reflexivity|apply IH].
Qed.

Lemma first_match_app_some (key : list ascii) (ls1 ls2 : list (list ascii)) :
  forall off x, first_match key off ls1 = Some x ->
  first_match key off (ls1 ++ ls2) = Some x.
Proof.
  induction ls1 as [|l ls1 IH]; intros off x H; [discriminate|].
  cbn [app first_match] in *. destruct (candidate key l); [exact H|now apply IH].
Qed.

(** ** Whatever the outcomes of the calls *)

Lemma pwrite_window (pre old post b : list ascii) (j : nat) :
  (j + length b <= length old)%nat ->
  pwrite (pre ++ old ++ post) (length pre + j) b
  = pre ++ (firstn j old ++ b ++ skipn (j + length b) old) ++ post.
Proof.
  intros H. rewrite pwrite_shift. f_equal. unfold pwrite.
  rewrite firstn_app, length_app.
  replace (j - length old)%nat with O by lia.
  replace (j - (length old + length post))%nat with O by lia.
  cbn [firstn repeat app]. rewrite app_nil_r, skipn_app.
  replace (j + length b - length old)%nat with O by lia.
  cbn [skipn]. now rewrite <- !app_assoc.
Qed.

(** A [fwrite] within a window of the file stays within it. *)
Lemma fwrite_window (pre old post ptr : list ascii) (size j : nat)
    (w w' : world) (r : Z) :
  file_data w = pre ++ old ++ post ->
  stream w = Some (length pre + j)%nat ->
  (j + size <= length old)%nat ->
  fwrite ptr size FILE_scores w = Some (r, w') ->
  exists old' j',
    file_data w' = pre ++ old' ++ post
    /\ length old' = length old
    /\ stream w' = Some (length pre + j')%nat
    /\ (j' <= j + size)%nat.
Proof.
  intros Hd Hs Hj. unfold fwrite. rewrite Hs, Hd.
  assert (Hgo : forall b : list ascii, (length b <= size)%nat ->
            exists old' j',
              pwrite (pre ++ old ++ post) (length pre + j) b = pre ++ old' ++ post
              /\ length old' = length old
              /\ (length pre + j + length b = length pre + j')%nat
              /\ (j' <= j + size)%nat).
  { intros b Hb. rewrite pwrite_window by lia.
    exists (firstn j old ++ b ++ skipn (j + length b) old), (j + length b)%nat.
    split; [reflexivity|]. split; [|lia].
    rewrite !length_app, length_firstn, length_skipn. lia. }
  destruct (next_fault w) as [[|k] w1]; intros H; injection H as <- <-;
    cbn [file_data stream log set_stream set_data].
  - destruct (Hgo (bytes_at ptr size)) as (old' & j' & E1 & E2 & E3 & E4).
    { rewrite length_bytes_at. lia. }
    exists old', j'. rewrite E1, E3. auto.
  - destruct (Hgo (firstn (Nat.min k (size - 1)) (bytes_at ptr size)))
      as (old' & j' & E1 & E2 & E3 & E4).
    { rewrite length_firstn, length_bytes_at. lia. }
    exists old', j'. rewrite E1, E3. auto.
Qed.

Lemma fseek_cases (offset : Z) (origin : whence) (w w' : world) (r : Z) (pos : nat) :
  stream w = Some pos ->
  fseek FILE_scores offset origin w = Some (r, w') ->
  file_data w' = file_data w
  /\ (r = -1 /\ stream w' = Some pos
      \/ r = 0
         /\ 0 <= match origin with
                 | SEEK_SET => 0
                 | SEEK_CUR => Z.of_nat pos
                 | SEEK_END => Z.of_nat (length (file_data w))
                 end + offset
         /\ stream w'
            = Some (Z.to_nat (match origin with
                              | SEEK_SET => 0
                              | SEEK_CUR => Z.of_nat pos
                              | SEEK_END => Z.of_nat (length (file_data w))
                              end + offset))).
Proof.
  intros Hs. unfold fseek. rewrite Hs.
  assert (Hn : file_data (snd (next_fault w)) = file_data w
               /\ stream (snd (next_fault w)) = Some pos)
    by (unfold next_fault; destruct (faults w); split; auto).
  destruct (next_fault w) as [[|k] w1]; cbn [snd] in Hn; destruct Hn as [Hn1 Hn2].
  - destruct (_ <? 0) eqn:E; intros H; injection H as <- <-;
      cbn [file_data stream log set_stream]; split; auto.
    right. apply Z.ltb_ge in E. auto.
  - intros H; injection H as <- <-. cbn [file_data stream log]. auto.
Qed.

(** [write_score] over the line just read changes that line at most,
    whichever of its calls fail. *)
Lemma write_score_window (key : list ascii) (score : Z) (pre old post : list ascii)
    (w w' : world) (r : Z) :
  file_data w = pre ++ old ++ post -> length old = 21%nat ->
  stream w = Some (length pre + 21)%nat ->
  write_score FILE_scores key score SEEK_CUR (-21) w = Some (r, w') ->
  exists new, file_data w' = pre ++ new ++ post /\ length new = 21%nat.
Proof.
  intros Hd Hl Hs. rewrite write_score_unfold. unfold bind at 1.
  destruct (fseek_total (-21) SEEK_CUR w) as (r0 & w0 & E0). rewrite E0.
  destruct (fseek_cases _ _ _ _ _ _ Hs E0) as [Hd0 [[-> Hs0]|(-> & _ & Hs0)]].
  - change (negb (-1 =? -1)) with false. cbv iota. unfold ret.
    intros H; injection H as _ <-. exists old. now rewrite Hd0.
  - change (negb (0 =? -1)) with true. cbv iota.
    replace (Z.to_nat (Z.of_nat (length pre + 21) + -21)) with (length pre + 0)%nat
      in Hs0 by lia.
    rewrite Hd in Hd0. unfold bind at 1.
    destruct (fwrite_total key FIELD_SIZE w0) as (n1 & w1 & E1). rewrite E1.
    destruct (fwrite_window pre old post key FIELD_SIZE 0 w0 w1 n1 Hd0 Hs0
                ltac:(unfold FIELD_SIZE; lia) E1)
      as (old1 & j1 & Hd1 & Hl1 & Hs1 & Hj1).
    destruct (n1 <=? 0).
    { unfold ret. intros H; injection H as _ <-. exists old1. split; [exact Hd1|lia]. }
    unfold bind.
    destruct (fwrite_total (score_field score) (FIELD_SIZE + 1) w1) as (n2 & w2 & E2).
    rewrite E2.
    destruct (fwrite_window pre old1 post (score_field score) (FIELD_SIZE + 1) j1
                w1 w2 n2 Hd1 Hs1 ltac:(unfold FIELD_SIZE in *; lia) E2)
      as (old2 & j2 & Hd2 & Hl2 & _).
    destruct (n2 <=? 0); unfold ret; intros H; injection H as _ <-;
      exists old2; (split; [exact Hd2|lia]).
Qed.

Lemma fwrite_at_end (ptr : list ascii) (size : nat) (w w' : world) (r : Z) :
  stream w = Some (length (file_data w)) ->
  fwrite ptr size FILE_scores w = Some (r, w') ->
  exists b,
    file_data w' = file_data w ++ b
    /\ (length b <= size)%nat
    /\ stream w' = Some (length (file_data w')).
Proof.
  intros Hs. unfold fwrite. rewrite Hs.
  assert (Hn : file_data (snd (next_fault w)) = file_data w)
    by (unfold next_fault; destruct (faults w); reflexivity).
  destruct (next_fault w) as [[|k] w1]; cbn [snd] in Hn;
    intros H; injection H as <- <-; cbn [file_data stream log set_stream set_data];
    rewrite pwrite_end.
  - exists (bytes_at ptr size). rewrite length_app, length_bytes_at. auto.
  - exists (firstn (Nat.min k (size - 1)) (bytes_at ptr size)).
    rewrite length_app, length_firstn, length_bytes_at. repeat split. lia.
Qed.

(** [write_score] at the end of the file adds at most a record to it,
    whichever of its calls fail. *)
Lemma write_score_at_end (key : list ascii) (score : Z) (w w' : world) (r : Z)
    (pos : nat) :
  stream w = Some pos ->
  write_score FILE_scores key score SEEK_END 0 w = Some (r, w') ->
  exists b, file_data w' = file_data w ++ b /\ (length b <= 21)%nat.
Proof.
  intros Hs. rewrite write_score_unfold. unfold bind at 1.
  destruct (fseek_total 0 SEEK_END w) as (r0 & w0 & E0). rewrite E0.
  destruct (fseek_cases _ _ _ _ _ _ Hs E0) as [Hd0 [[-> Hs0]|(-> & _ & Hs0)]].
  - change (negb (-1 =? -1)) with false. cbv iota. unfold ret.
    intros H; injection H as _ <-. exists []. rewrite app_nil_r. split; [exact Hd0|].
    cbn [length]. lia.
  - change (negb (0 =? -1)) with true. cbv iota.
    rewrite Z.add_0_r, Nat2Z.id, <- Hd0 in Hs0. unfold bind at 1.
    destruct (fwrite_total key FIELD_SIZE w0) as (n1 & w1 & E1). rewrite E1.
    destruct (fwrite_at_end _ _ _ _ _ Hs0 E1) as (b1 & Hd1 & Hl1 & Hs1).
    destruct (n1 <=? 0).
    { unfold ret. intros H; injection H as _ <-. exists b1.
      rewrite Hd1, Hd0. split; [reflexivity|unfold FIELD_SIZE in *; lia]. }
    unfold bind.
    destruct (fwrite_total (score_field score) (FIELD_SIZE + 1) w1) as (n2 & w2 & E2).
    rewrite E2.
    destruct (fwrite_at_end _ _ _ _ _ Hs1 E2) as (b2 & Hd2 & Hl2 & _).
    destruct (n2 <=? 0); unfold ret; intros H; injection H as _ <-;
      exists (b1 ++ b2); rewrite Hd2, Hd1, Hd0, <- app_assoc;
      (split; [reflexivity|rewrite length_app; unfold FIELD_SIZE in *; lia]).
Qed.

(** The end of [adjust_score] when no record was found: its answers, and
    what it does to the file. *)
Lemma append_tail_spec (key : list ascii) (delta : Z) (w : world) (pos : nat) :
  stream w = Some pos ->
  exists x w',
    (r <- fseek FILE_scores 0 SEEK_END ;;
     if r =? -1 then
       fclose FILE_scores ;;
       ret (0, Some ("File seek error" ++ nl)%string)
     else
       r <- write_score FILE_scores key delta SEEK_END 0 ;;
       if negb (r =? 1) then
         fclose FILE_scores ;;
         ret (0, Some ("Error writing new record" ++ nl)%string)
       else fclose FILE_scores ;; ret (1, None)) w = Some (x, w')
    /\ (x = (1, None)
        \/ x = (0, Some ("File seek error" ++ nl)%string)
        \/ x = (0, Some ("Error writing new record" ++ nl)%string))
    /\ exists b, file_data w' = file_data w ++ b /\ (length b <= 21)%nat.
Proof.
  intros Hs. unfold bind at 1.
  destruct (fseek_total 0 SEEK_END w) as (r & w1 & E). rewrite E.
  destruct (fseek_cases _ _ _ _ _ _ Hs E) as [Hd1 [[-> Hs1]|(-> & _ & Hs1)]].
  - change (-1 =? -1) with true. cbv iota. unfold bind, fclose, ret.
    eexists _, _. split; [reflexivity|]. split; [auto|].
    exists []. cbn [file_data log set_stream length]. rewrite app_nil_r. split; [exact Hd1|lia].
  - change (0 =? -1) with false. cbv iota. unfold bind at 1.
    destruct (write_score_total key delta SEEK_END 0 w1) as (r2 & w2 & E2). rewrite E2.
    destruct (write_score_at_end _ _ _ _ _ _ Hs1 E2) as (b & Hd2 & Hl).
    destruct (negb (r2 =? 1)); unfold bind, fclose, ret;
      (eexists _, _; split; [reflexivity|]; split; [auto|]);
      exists b; cbn [file_data log set_stream]; rewrite Hd2, Hd1; auto.
Qed.

Lemma next_fault_data (w w1 : world) (f : io_fault) :
  next_fault w = (f, w1) -> file_data w1 = file_data w.
Proof.
  unfold next_fault. destruct (faults w); intros H; injection H as _ <-; reflexivity.
Qed.

(** What [find_record] leaves: on 0 the file as it was and the stream
    open; else at most the line it found changed. *)
Lemma find_record_local (key : list ascii) (delta : Z) (data : list ascii)
    (fs : list io_fault) :
  exists r w',
    find_record FILE_scores key delta (opened_world data fs) = Some (r, w')
    /\ (r = -1 \/ r = 0 \/ r = 1)
    /\ (r = 0 -> file_data w' = data /\ exists pos, stream w' = Some pos)
    /\ exists pre old new post,
         data = pre ++ old ++ post /\ file_data w' = pre ++ new ++ post
         /\ length old = length new /\ (length new <= 21)%nat.
Proof.
  rewrite (find_record_spec key delta (opened_world data fs) O eq_refl).
  assert (Hsame : exists pre old new post : list ascii,
             data = pre ++ old ++ post /\ data = pre ++ new ++ post
             /\ length old = length new /\ (length new <= 21)%nat).
  { exists [], [], [], data. cbn. repeat split. lia. }
  destruct (next_fault (opened_world data fs)) as [[|k] w1] eqn:En.
  2: { assert (Hd : file_data w1 = data) by exact (next_fault_data _ _ _ En).
       eexists _, _. split; [reflexivity|]. split; [auto|].
       split; [discriminate|]. cbn [file_data log]. now rewrite Hd. }
  assert (Hd : file_data w1 = data) by exact (next_fault_data _ _ _ En).
  cbv zeta. cbn [file_data opened_world].
  destruct (first_match key 0 (split_lines data)) as [[off m]|] eqn:Hm.
  - destruct (first_match_split _ _ _ _ _ Hm) as (ls1 & ls2 & Hls & _ & Hoff & Hcand).
    destruct (split_lines_around ls1 data m ls2 Hls) as (_ & _ & _ & Hdata).
    cbn [Nat.add] in Hoff.
    assert (Hl : length m = 21%nat).
    { unfold candidate in Hcand. apply andb_prop in Hcand as [Hcand _].
      apply Z.eqb_eq in Hcand. lia. }
    set (w2 := at_pos (log (EvSeek true) (set_stream (Some O) w1)) (off + 21)
                 (scan_reads key (split_lines data))).
    assert (Hd2 : file_data w2 = concat ls1 ++ m ++ concat ls2)
      by (cbn [w2 at_pos file_data log set_stream]; now rewrite Hd).
    assert (Hs2 : stream w2 = Some (length (concat ls1) + 21)%nat)
      by (cbn [w2 at_pos stream]; now rewrite Hoff).
    destruct (update_record_total key delta m w2) as (r & w' & E). rewrite E.
    exists r, w'. split; [reflexivity|].
    destruct (update_record_result _ _ _ _ _ _ E) as [Hr|Hr].
    + split; [auto|]. split; [lia|].
      revert E.
      destruct (update_record_unfold key delta m w2) as (w0 & Hd0 & Hs0 & _ & _ & _ & ->).
      rewrite <- Hd0 in Hd2. rewrite <- Hs0 in Hs2.
      destruct (get_score m =? INT_MIN).
      { unfold ret. intros H; injection H as _ <-.
        exists (concat ls1), m, m, (concat ls2). rewrite Hd2. repeat split; auto. lia. }
      destruct (negb (check_sum (get_score m) delta =? 0)).
      2: { unfold ret. intros H; injection H as _ <-.
           exists (concat ls1), m, m, (concat ls2). rewrite Hd2. repeat split; auto. lia. }
      unfold bind.
      destruct (write_score_total key (wrap_int (get_score m + delta)) SEEK_CUR (-21) w0)
        as (r1 & w3 & E1). rewrite E1.
      destruct (write_score_window _ _ _ _ _ _ _ _ Hd2 Hl Hs2 E1) as (new & Hn & Hnl).
      destruct (negb (r1 =? 1)); unfold ret; intros H; injection H as _ <-;
        exists (concat ls1), m, new, (concat ls2); repeat split; auto; lia.
    + split; [auto|]. split; [lia|].
      revert E.
      destruct (update_record_unfold key delta m w2) as (w0 & Hd0 & Hs0 & _ & _ & _ & ->).
      rewrite <- Hd0 in Hd2. rewrite <- Hs0 in Hs2.
      destruct (get_score m =? INT_MIN).
      { unfold ret. intros H; injection H as _ <-.
        exists (concat ls1), m, m, (concat ls2). rewrite Hd2. repeat split; auto. lia. }
      destruct (negb (check_sum (get_score m) delta =? 0)).
      2: { unfold ret. intros H; injection H as _ <-.
           exists (concat ls1), m, m, (concat ls2). rewrite Hd2. repeat split; auto. lia. }
      unfold bind.
      destruct (write_score_total key (wrap_int (get_score m + delta)) SEEK_CUR (-21) w0)
        as (r1 & w3 & E1). rewrite E1.
      destruct (write_score_window _ _ _ _ _ _ _ _ Hd2 Hl Hs2 E1) as (new & Hn & Hnl).
      destruct (negb (r1 =? 1)); unfold ret; intros H; injection H as _ <-;
        exists (concat ls1), m, new, (concat ls2); repeat split; auto; lia.
  - eexists _, _. split; [reflexivity|]. split; [auto|].
    cbn [at_pos file_data stream log set_stream]. rewrite Hd.
    split; [intros _; split; [reflexivity|eauto]|exact Hsame].
Qed.

(** [adjust_score] whatever the name, the file and the outcomes of the
    calls: its answer, and the one stretch of the file it may change. *)
Lemma adjust_score_spec (uid : Z) (name : list ascii) (delta : Z)
    (data : list ascii) (openable : bool) (fs : list io_fault) :
  exists r w',
    adjust_score uid name delta (initial_world data openable fs) = Some (r, w')
    /\ (r = (1, None)
        \/ exists msg,
             r = (0, Some msg)
             /\ In msg [("Player name invalid" ++ nl)%string;
                        "File open error"%string;
                        ("Error found in record" ++ nl)%string;
                        ("File seek error" ++ nl)%string;
                        ("Error writing new record" ++ nl)%string])
    /\ exists pre old new post,
         data = pre ++ old ++ post /\ file_data w' = pre ++ new ++ post
         /\ (length old <= length new <= 21)%nat.
Proof.
  assert (Hsame : exists pre old new post : list ascii,
             data = pre ++ old ++ post /\ data = pre ++ new ++ post
             /\ (length old <= length new <= 21)%nat).
  { exists [], [], [], data. cbn. repeat split; lia. }
  destruct (Z.eq_dec (validate_name name) 1) as [Hv|Hv].
  2: { unfold adjust_score.
       replace (negb (validate_name name =? 1)) with true
         by (symmetry; apply negb_true_iff, Z.eqb_neq, Hv).
       unfold ret. eexists _, _. split; [reflexivity|].
       split; [|exact Hsame]. right. eexists. split; [reflexivity|]. cbn. auto 10. }
  destruct openable.
  2: { unfold adjust_score. rewrite Hv. change (negb (1 =? 1)) with false. cbv iota.
       unfold bind, fopen, ret. cbn [can_open initial_world]. rewrite andb_false_r.
       eexists _, _. split; [reflexivity|].
       split; [|exact Hsame]. right. eexists. split; [reflexivity|]. cbn. auto 10. }
  rewrite (adjust_score_opened uid name delta data fs Hv).
  destruct (find_record_local (name_to_search name) delta data fs)
    as (r & w & -> & Hr & H0 & (pre & old & new & post & Hd & Hf & Hl & Hn)).
  destruct Hr as [-> | [-> | ->]].
  - change (-1 =? -1) with true. cbv iota.
    eexists _, _. split; [reflexivity|]. split.
    + right. eexists. split; [reflexivity|]. cbn. auto 10.
    + exists pre, old, new, post. cbn [file_data log set_stream]. repeat split; auto; lia.
  - change (0 =? -1) with false. change (0 =? 0) with true. cbv iota.
    destruct (H0 eq_refl) as [Hf0 [pos Hs0]].
    destruct (append_tail_spec (name_to_search name) delta w pos Hs0)
      as (x & w' & -> & Hx & b & Hb & Hbl).
    exists x, w'. split; [reflexivity|]. split.
    + destruct Hx as [-> | [-> | ->]]; [now left| |];
        right; eexists; (split; [reflexivity|]); cbn; auto 10.
    + exists data, [], b, []. rewrite Hb, Hf0, !app_nil_r. cbn [length].
      repeat split; lia.
  - change (1 =? -1) with false. change (1 =? 0) with false. cbv iota.
    eexists _, _. split; [reflexivity|]. split; [now left|].
    exists pre, old, new, post. cbn [file_data log set_stream]. repeat split; auto; lia.
Qed.

(** ** main *)

Lemma fgets_line_newline (line rest : list ascii) (n : nat) :
  forallb (fun c => negb (c =? LF)%char) line = true ->
  (length line < n)%nat ->
  fgets_line n (line ++ LF :: rest) = line ++ [LF].
Proof.
  revert n. induction line as [|c line IH]; intros n Hc Hn.
  - destruct n as [|n]; [cbn in Hn; lia|]. reflexivity.
  - destruct n as [|n]; [cbn in Hn; lia|].
    cbn [forallb] in Hc. apply andb_prop in Hc as [Hc1 Hc2].
    apply negb_true_iff in Hc1. cbn [app fgets_line]. rewrite Hc1.
    rewrite IH; [reflexivity|assumption|cbn in Hn; lia].
Qed.

Lemma existsb_isspace_newline (line : list ascii) :
  existsb isspace (line ++ [LF]) = true.
Proof. rewrite existsb_app. cbn. apply orb_true_r. Qed.

(** ** An update, with its trace *)

(** The reads of a scan that finds [m] after the lines [ls1]. *)
Lemma scan_reads_upto (key : list ascii) (m : list ascii) (ls1 ls2 : list (list ascii)) :
  forall off, first_match key off ls1 = None -> candidate key m = true ->
  scan_reads key (ls1 ++ m :: ls2) = map EvRead ls1 ++ [EvRead m].
Proof.
  induction ls1 as [|l ls1 IH]; intros off Hn Hc; cbn [app scan_reads map].
  - now rewrite Hc.
  - cbn [first_match] in Hn. destruct (candidate key l); [discriminate|].
    f_equal. now apply (IH (off + length l)%nat).
Qed.

(** [find_record] for a key whose line is in the file, its score valid
    and the sum within the bounds, every call succeeding. *)
Lemma find_record_update (key : list ascii) (delta : Z) (pre m post : list ascii) :
  first_match key 0 (split_lines (pre ++ m ++ post)) = Some (length pre, m) ->
  get_score m <> INT_MIN ->
  check_sum (get_score m) delta <> 0 ->
  exists w',
    find_record FILE_scores key delta (opened_world (pre ++ m ++ post) [])
    = Some (1, w')
    /\ file_data w'
       = pre ++ (bytes_at key FIELD_SIZE
                 ++ score_field (wrap_int (get_score m + delta))) ++ post
    /\ trace w'
       = [EvOpen true; EvSeek true]
         ++ scan_reads key (split_lines (pre ++ m ++ post))
         ++ [EvSeek true; EvWrite (bytes_at key FIELD_SIZE);
             EvWrite (score_field (wrap_int (get_score m + delta)))].
Proof.
  intros Hm Hg Hc.
  destruct (first_match_split _ _ _ _ _ Hm) as (_ & _ & _ & _ & _ & Hcand).
  assert (Hl : length m = 21%nat).
  { unfold candidate in Hcand. apply andb_prop in Hcand as [Hcand _].
    apply Z.eqb_eq in Hcand. lia. }
  rewrite (find_record_spec _ _ (opened_world (pre ++ m ++ post) []) O eq_refl).
  unfold next_fault. cbn [faults opened_world file_data]. cbv zeta. rewrite Hm.
  match goal with
  | |- context [update_record _ _ _ _ ?w] =>
      destruct (update_record_unfold key delta m w)
        as (w0 & _ & _ & _ & _ & Hw0 & ->)
  end.
  rewrite (Hw0 Hg).
  replace (get_score m =? INT_MIN) with false by (symmetry; now apply Z.eqb_neq).
  replace (check_sum (get_score m) delta =? 0) with false
    by (symmetry; now apply Z.eqb_neq).
  cbn [negb]. unfold bind at 1.
  erewrite (write_score_update _ _ _ pre m post); [|reflexivity|reflexivity|reflexivity|exact Hl].
  change (negb (1 =? 1)) with false. cbv iota. unfold ret.
  pose proof (bytes_at_self (score_field (wrap_int (get_score m + delta)))) as E.
  rewrite length_score_field in E. change (FIELD_SIZE + 1)%nat with 11%nat. rewrite E.
  eexists. split; [reflexivity|]. split; [reflexivity|].
  cbn [trace at_pos log set_stream set_faults opened_world].
  now rewrite <- !app_assoc.
Qed.

(** A player that no line matches is added by one call and updated by
    the next. *)
Lemma adjust_score_append_update (uid : Z) (name : list ascii) (d1 d2 : Z)
    (data : list ascii) :
  validate_name name = 1 ->
  data = [] \/ (exists p, data = p ++ [LF]) ->
  first_match (name_to_search name) 0 (split_lines data) = None ->
  SCORE_LOW_BOUND <= d1 <= INT_MAX ->
  INT_MIN <= d2 <= INT_MAX ->
  SCORE_LOW_BOUND <= d1 + d2 <= INT_MAX ->
  exists w1 w2,
    adjust_score uid name d1 (initial_world data true []) = Some ((1, None), w1)
    /\ adjust_score uid name d2 (initial_world (file_data w1) true [])
       = Some ((1, None), w2)
    /\ file_data w1 = data ++ record_bytes name d1
    /\ file_data w2 = data ++ record_bytes name (d1 + d2).
Proof.
  intros Hv Hdata Hm H1 H2 H12.
  destruct (adjust_score_append uid name d1 data Hv Hm) as (w1 & Ha1 & Hf1 & _).
  pose proof (first_match_appended name d1 data Hv Hdata Hm) as Hm1.
  assert (Hg : get_score (record_bytes name d1) = d1).
  { rewrite record_bytes_eq. apply get_score_written;
      [apply length_name_to_search|exact H1]. }
  assert (Hm1' : first_match (name_to_search name) 0
                   (split_lines (data ++ record_bytes name d1 ++ []))
                 = Some (length data, record_bytes name d1))
    by (now rewrite app_nil_r).
  destruct (adjust_score_update uid name d2 data (record_bytes name d1) [] Hv Hm1')
    as (w2 & Ha2 & Hf2 & _).
  { rewrite Hg. unfold SCORE_LOW_BOUND, INT_MIN in *. lia. }
  { rewrite Hg, check_sum_spec
      by (unfold SCORE_LOW_BOUND, INT_MIN, INT_MAX in *; lia).
    rewrite gtb_false, ltb_false by lia. discriminate. }
  exists w1, w2. split; [exact Ha1|]. rewrite Hf1.
  rewrite app_nil_r in Ha2. split; [exact Ha2|]. split; [reflexivity|].
  rewrite Hf2, Hg, app_nil_r.
  rewrite wrap_int_id; [reflexivity|].
  unfold SCORE_LOW_BOUND, INT_MIN, INT_MAX in *. lia.
Qed.

(** * Runs of the program *)

Example score_strtol_runs :
  score_strtol 0 (bytes "123") = (SCORE_VALID, 123)
  /\ score_strtol 0 (bytes "+5") = (SCORE_VALID, 5)
  /\ score_strtol 0 (bytes "-999999999") = (SCORE_VALID, -999999999)
  /\ score_strtol 0 (bytes "-1000000000") = (SCORE_UNDERFLOW, 0)
  /\ score_strtol 0 (bytes "2147483647") = (SCORE_VALID, 2147483647)
  /\ score_strtol 0 (bytes "2147483648") = (SCORE_OVERFLOW, 0)
  /\ score_strtol 0 (bytes "99999999999999999999") = (SCORE_OVERFLOW, 0)
  /\ score_strtol 0 (bytes "-99999999999999999999") = (SCORE_UNDERFLOW, 0)
  /\ score_strtol 0 (bytes "-") = (SCORE_INVALID, 0)
  /\ score_strtol 0 (bytes "12x") = (SCORE_INVALID, 0)
  /\ score_strtol 0 (bytes "") = (SCORE_INVALID, 0).
Proof. repeat split; reflexivity. Qed.

Example validate_name_runs :
  validate_name (bytes "alice") = 1
  /\ validate_name (bytes "") = 1
  /\ validate_name (bytes "abcdefghij") = 1
  /\ validate_name (bytes "abcdefghijk") = 0
  /\ validate_name (bytes "a b") = 0
  /\ validate_name (bytes "bob" ++ [LF]) = 0.
Proof. repeat split; reflexivity. Qed.

(** A player that is not in the file is added, and found the next time. *)
Example miss_then_hit :
  exists w1 w2,
    adjust_score 1001 (bytes "bob") 5 (initial_world [] true []) = Some ((1, None), w1)
    /\ adjust_score 1001 (bytes "bob") 7 (initial_world (file_data w1) true [])
       = Some ((1, None), w2)
    /\ file_data w2 = record_bytes (bytes "bob") 12.
Proof.
  eexists _, _. split; [vm_compute; reflexivity|].
  split; vm_compute; reflexivity.
Qed.

(** The second [fwrite] of [write_score] failing after two bytes: the
    record holds neither the old score nor the new one. *)
Example torn_write :
  exists w',
    adjust_score 1001 (bytes "alice") 23
      (initial_world (record_bytes (bytes "alice") 100) true
         [IoOk; IoOk; IoOk; IoFail 2])
    = Some ((0, Some ("Error found in record" ++ nl)%string), w')
    /\ get_score (file_data w') = 120
    /\ stream w' = None.
Proof.
  eexists. split; [vm_compute; reflexivity|]. split; reflexivity.
Qed.

(** [main] on a name whose record has a score that does not parse: the
    prompt, the line of [get_score], the message of [adjust_score]. *)
Example main_corrupt_record :
  let data := pad 10 NUL (bytes "alice") ++ pad 10 NUL (bytes "12x4") ++ [LF] in
  exists w',
    main (bytes "alice") (initial_world data true []) = Some (EXIT_FAILURE, w')
    /\ trace w'
       = [EvStdout ("Enter player name: " ++ nl); EvOpen true; EvSeek true;
          EvRead data; EvStdout ("string to in fails" ++ nl); EvClose;
          EvStdout (("Error found in record" ++ nl) ++ nl)]
    /\ file_data w' = data.
Proof.
  eexists. split; [vm_compute; reflexivity|]. split; reflexivity.
Qed.

(** [main] on a name that is not in the file: a record with the score
    1000 is added. *)
Example main_new_player :
  exists w',
    main (bytes "bob") (initial_world [] true []) = Some (EXIT_SUCCESS, w')
    /\ file_data w' = record_bytes (bytes "bob") 1000
    /\ trace w'
       = [EvStdout ("Enter player name: " ++ nl); EvOpen true; EvSeek true;
          EvRead []; EvSeek true; EvSeek true;
          EvWrite (pad 10 NUL (bytes "bob"));
          EvWrite (pad 10 NUL (bytes "1000") ++ [LF]); EvClose;
          EvStdout ("Score write success" ++ nl)].
Proof.
  eexists. split; [vm_compute; reflexivity|]. split; reflexivity.
Qed.


(** * The claims *)

(** ** C1: round trip of a record

    For every name of 1 to 9 visible characters and every score within
    [SCORE_LOW_BOUND, INT_MAX], the record that [write_score] puts in
    the file is 21 bytes: the name padded with terminators to 10 bytes,
    the score field, a newline. Decoding gives the two back: the name
    field read as a C string is the name, [match_name] accepts the record
    for the keys that hold the name and for no other key, and [get_score]
    gives the score. *)
Theorem record_roundtrip (name : list ascii) (score : Z) :
  valid_name name = true ->
  SCORE_LOW_BOUND <= score <= INT_MAX ->
  let record := record_bytes name score in
  (forall data, exists w',
     write_score FILE_scores (name_to_search name) score SEEK_END 0
       (opened_world data [])
     = Some (1, w')
     /\ file_data w' = data ++ record)
  /\ length record = 21%nat
  /\ bytes_at record 10 = pad 10 NUL name
  /\ load record 20 = LF
  /\ c_string (bytes_at record 10) = name
  /\ match_name (name_to_search name) record = 1
  /\ (forall key, match_name key record = 1 <-> c_string key = name)
  /\ (forall key, c_string key <> name -> match_name key record = 0)
  /\ get_score record = score.
Proof.
  intros Hv Hs record. subst record.
  destruct (valid_name_spec name Hv) as (Hl & Hn & _).
  pose proof (length_name_to_search name) as Hk.
  assert (Hb : bytes_at (record_bytes name score) 10 = name_to_search name).
  { rewrite record_bytes_eq, <- Hk. apply bytes_at_app. }
  assert (Hc : c_string (name_to_search name) = name)
    by (apply c_string_name_to_search; assumption || lia).
  assert (H9 : load (record_bytes name score) 9 = NUL).
  { rewrite record_bytes_eq, load_app_l by lia. apply name_to_search_terminated. }
  assert (Hiff : forall key,
             match_name key (record_bytes name score) = 1 <-> c_string key = name).
  { intros key. destruct (match_name_iff key (record_bytes name score)) as [Hi _].
    rewrite Hb, Hc in Hi. split.
    - intros H. now apply Hi in H.
    - intros H. apply Hi. now split. }
  split.
  { intros data. erewrite write_score_append; [|reflexivity|reflexivity].
    eexists. split; reflexivity. }
  split; [apply length_record_bytes|]. rewrite Hb.
  split; [apply name_to_search_short; assumption || lia|].
  split.
  { rewrite record_bytes_eq, load_app_r by lia. rewrite Hk.
    apply score_field_newline. }
  split; [exact Hc|].
  split; [rewrite record_bytes_eq; apply match_name_written|].
  split; [exact Hiff|].
  split.
  { intros key Hne.
    destruct (match_name_iff key (record_bytes name score)) as [_ [H0|H1]];
      [exact H0|]. apply Hiff in H1. contradiction. }
  rewrite record_bytes_eq. now apply get_score_written.
Qed.

Lemma record_roundtrip_witness :
  let record := record_bytes (bytes "alice") (-999999999) in
  (forall data, exists w',
     write_score FILE_scores (name_to_search (bytes "alice")) (-999999999) SEEK_END 0
       (opened_world data [])
     = Some (1, w')
     /\ file_data w' = data ++ record)
  /\ length record = 21%nat
  /\ bytes_at record 10 = pad 10 NUL (bytes "alice")
  /\ load record 20 = LF
  /\ c_string (bytes_at record 10) = bytes "alice"
  /\ match_name (name_to_search (bytes "alice")) record = 1
  /\ (forall key, match_name key record = 1 <-> c_string key = bytes "alice")
  /\ (forall key, c_string key <> bytes "alice" -> match_name key record = 0)
  /\ get_score record = -999999999.
Proof.
  apply (record_roundtrip (bytes "alice") (-999999999)).
  - reflexivity.
  - split; discriminate.
Defined.

(** ** C2: a sum out of range is refused, nothing written

    As stated the claim fails: [adjust_score] has no report of its own
    for a sum out of range. [check_sum] is called inside [find_record],
    which answers -1 as it does for a score that does not parse, and
    [adjust_score] hands the caller the same value and the same message
    in the two cases. *)
Lemma out_of_range_reported_as_corrupt :
  let alice := bytes "alice" in
  let full := record_bytes alice INT_MAX in
  let corrupt := pad 10 NUL alice ++ pad 10 NUL (bytes "12x4") ++ [LF] in
  get_score full = INT_MAX
  /\ INT_MAX + 1 > INT_MAX
  /\ fst (score_strtol 0 (score_text corrupt)) = SCORE_INVALID
  /\ exists v1 v2 w1 w2,
       find_record FILE_scores (name_to_search alice) 1 (opened_world full [])
       = Some (-1, v1)
       /\ find_record FILE_scores (name_to_search alice) 1 (opened_world corrupt [])
          = Some (-1, v2)
       /\ adjust_score 1001 alice 1 (initial_world full true [])
          = Some ((0, Some ("Error found in record" ++ nl)%string), w1)
       /\ adjust_score 1001 alice 1 (initial_world corrupt true [])
          = Some ((0, Some ("Error found in record" ++ nl)%string), w2)
       /\ file_data w1 = full.
Proof.
  cbv zeta. split; [reflexivity|]. split; [reflexivity|]. split; [reflexivity|].
  eexists _, _, _, _.
  split; [vm_compute; reflexivity|]. split; [vm_compute; reflexivity|].
  split; [vm_compute; reflexivity|]. split; [vm_compute; reflexivity|].
  reflexivity.
Qed.

(** C2, amended. For every file in which the record that the scan
    finds for player [name], the first 21-byte line that matches the
    name, decodes to a score [s], and every [delta] with [s + delta]
    above [INT_MAX] or below [SCORE_LOW_BOUND], whatever the outcomes of
    the calls on the file, [adjust_score] fails, with the message it has
    for an error in a record, and writes nothing: the file is as it
    was. *)
Theorem out_of_range_rejected (uid : Z) (name : list ascii) (delta : Z)
    (data : list ascii) (fs : list io_fault) (off : nat) (m : list ascii) (s : Z) :
  validate_name name = 1 ->
  INT_MIN <= delta <= INT_MAX ->
  first_match (name_to_search name) 0 (split_lines data) = Some (off, m) ->
  get_score m = s -> s <> INT_MIN ->
  s + delta > INT_MAX \/ s + delta < SCORE_LOW_BOUND ->
  exists w',
    adjust_score uid name delta (initial_world data true fs)
    = Some ((0, Some ("Error found in record" ++ nl)%string), w')
    /\ file_data w' = data
    /\ existsb is_write (trace w') = false
    /\ stream w' = None.
Proof.
  intros Hv Hd Hm Hs Hne Hsum.
  apply (adjust_score_scan_error uid name delta data fs off m Hv Hm).
  right. rewrite Hs.
  destruct (get_score_range m) as [E|E]; rewrite Hs in E; [contradiction|].
  rewrite check_sum_spec by (unfold SCORE_LOW_BOUND, INT_MIN, INT_MAX in *; lia).
  destruct Hsum as [H|H].
  - replace (s + delta >? INT_MAX) with true by (symmetry; apply Z.gtb_lt; lia).
    reflexivity.
  - replace (s + delta <? SCORE_LOW_BOUND) with true by (symmetry; apply Z.ltb_lt; lia).
    now rewrite orb_true_r.
Qed.

Lemma out_of_range_rejected_witness :
  exists w',
    adjust_score 1001 (bytes "alice") 1
      (initial_world (record_bytes (bytes "alice") INT_MAX) true [])
    = Some ((0, Some ("Error found in record" ++ nl)%string), w')
    /\ file_data w' = record_bytes (bytes "alice") INT_MAX
    /\ existsb is_write (trace w') = false
    /\ stream w' = None.
Proof.
  apply (out_of_range_rejected 1001 (bytes "alice") 1
           (record_bytes (bytes "alice") INT_MAX) [] O
           (record_bytes (bytes "alice") INT_MAX) INT_MAX).
  - reflexivity.
  - split; discriminate.
  - reflexivity.
  - reflexivity.
  - discriminate.
  - left. reflexivity.
Defined.

(** ** C3: the record of alice, 100, adjusted by 50

    As stated the claim fails: a score field padded with spaces is not
    one that [get_score] decodes, the space that follows the digits being
    where [score_strtol] expects the terminator. [adjust_score] fails and
    leaves the file as it was. *)
Lemma alice_space_padded_rejected :
  let data := pad 10 NUL (bytes "alice") ++ pad 10 " "%char (bytes "100") ++ [LF] in
  length data = 21%nat
  /\ get_score data = INT_MIN
  /\ exists w',
       adjust_score 1001 (bytes "alice") 50 (initial_world data true [])
       = Some ((0, Some ("Error found in record" ++ nl)%string), w')
       /\ file_data w' = data.
Proof.
  cbv zeta. split; [reflexivity|]. split; [reflexivity|].
  eexists. split; [vm_compute; reflexivity|reflexivity].
Qed.

(** C3, amended. For a file whose only record is the 21-byte line with
    name field "alice" padded with terminators to 10 bytes and score field
    "100" followed by seven terminators, which is how [write_score] lays a
    score out, adjusting "alice" by 50 succeeds: the record at offset 0
    then holds the score 150, and the file is still 21 bytes long. *)
Theorem alice_nul_padded_updated :
  let data := pad 10 NUL (bytes "alice") ++ pad 10 NUL (bytes "100") ++ [LF] in
  data = record_bytes (bytes "alice") 100
  /\ exists w',
       adjust_score 1001 (bytes "alice") 50 (initial_world data true [])
       = Some ((1, None), w')
       /\ file_data w' = pad 10 NUL (bytes "alice") ++ pad 10 NUL (bytes "150") ++ [LF]
       /\ file_data w' = record_bytes (bytes "alice") 150
       /\ first_match (name_to_search (bytes "alice")) 0 (split_lines (file_data w'))
          = Some (O, file_data w')
       /\ get_score (file_data w') = 150
       /\ length (file_data w') = length data.
Proof.
  cbv zeta. split; [reflexivity|].
  eexists. split; [vm_compute; reflexivity|].
  repeat split; reflexivity.
Qed.

(** ** C4: names that are refused before the file is touched

    As stated the claim fails: [validate_name] refuses a name of more
    than 10 characters, so that a name of 10 characters, longer than 9,
    goes through, and the file is opened, read and written. *)
Lemma ten_character_name_accepted :
  let name := bytes "abcdefghij" in
  (9 < length name)%nat
  /\ validate_name name = 1
  /\ exists w',
       adjust_score 1001 name 5 (initial_world [] true []) = Some ((1, None), w')
       /\ trace w' <> []
       /\ file_data w' = record_bytes name 5.
Proof.
  cbv zeta. split; [vm_compute; lia|]. split; [reflexivity|].
  eexists. split; [vm_compute; reflexivity|].
  split; [discriminate|reflexivity].
Qed.

(** C4, amended. For every [player_name] that is longer than 10
    characters or has a white-space character, [adjust_score] fails with
    the message for an invalid name and does no I/O: the world it returns
    is the one it was given, no event added. *)
Theorem invalid_name_rejected (uid : Z) (player_name : list ascii) (delta : Z)
    (w : world) :
  (10 < strlen player_name)%nat \/ existsb isspace (c_string player_name) = true ->
  adjust_score uid player_name delta w
  = Some ((0, Some ("Player name invalid" ++ nl)%string), w).
Proof.
  intros H. unfold adjust_score. rewrite validate_name_spec.
  replace ((10 <? strlen player_name)%nat || existsb isspace (c_string player_name))
    with true; [reflexivity|].
  symmetry. destruct H as [H|H].
  - apply Nat.ltb_lt in H. now rewrite H.
  - rewrite H. apply orb_true_r.
Qed.

Lemma invalid_name_rejected_witness :
  adjust_score 1001 (bytes "alice b") 5 (initial_world [] true [])
  = Some ((0, Some ("Player name invalid" ++ nl)%string), initial_world [] true [])
  /\ adjust_score 1001 (bytes "abcdefghijk") 5 (initial_world [] true [])
     = Some ((0, Some ("Player name invalid" ++ nl)%string), initial_world [] true []).
Proof.
  split.
  - apply (invalid_name_rejected 1001 (bytes "alice b") 5). right. reflexivity.
  - apply (invalid_name_rejected 1001 (bytes "abcdefghijk") 5). left.
    vm_compute. lia.
Defined.

(** ** C5: what the score parser calls invalid

    As stated the claim fails: [score_strtol] compares the number with
    its bounds before it looks at what follows the number. *)
Lemma overflow_before_trailing_check :
  score_strtol 0 (bytes "2147483648x") = (SCORE_OVERFLOW, 0)
  /\ score_strtol 0 (bytes "-1000000000x") = (SCORE_UNDERFLOW, 0).
Proof. split; reflexivity. Qed.

(** C5, amended. The score parser calls invalid the empty string, every
    string that starts with a white-space character, and every string
    with characters that are no digits after a numeric prefix whose value
    is within [SCORE_LOW_BOUND, INT_MAX]; when the value of the prefix is
    above [INT_MAX] the answer is overflow, when it is below
    [SCORE_LOW_BOUND] underflow, whatever follows. *)
Theorem score_strtol_classification (v : Z) :
  score_strtol v [] = (SCORE_INVALID, v)
  /\ (forall rest, score_strtol v (NUL :: rest) = (SCORE_INVALID, v))
  /\ (forall c rest, isspace c = true -> score_strtol v (c :: rest) = (SCORE_INVALID, v))
  /\ (forall sg ds c rest,
        ds <> [] -> forallb isdigit ds = true -> isdigit c = false -> c <> NUL ->
        score_strtol v (sign_text sg ++ ds ++ c :: rest) =
          let n := signed sg (decimal_value ds) in
          if n >? INT_MAX then (SCORE_OVERFLOW, v)
          else if n <? SCORE_LOW_BOUND then (SCORE_UNDERFLOW, v)
          else (SCORE_INVALID, v)).
Proof.
  split; [reflexivity|]. split; [reflexivity|]. split.
  - intros c rest Hc. unfold score_strtol. change (load (c :: rest) 0) with c.
    rewrite Hc. now rewrite orb_true_r.
  - intros sg ds c rest. apply score_strtol_numeric_prefix.
Qed.

Lemma score_strtol_classification_witness :
  score_strtol 0 (bytes " 12") = (SCORE_INVALID, 0)
  /\ score_strtol 0 (bytes "-12x") = (SCORE_INVALID, 0).
Proof.
  split.
  - apply (proj1 (proj2 (proj2 (score_strtol_classification 0))) " "%char (bytes "12")).
    reflexivity.
  - apply (proj2 (proj2 (proj2 (score_strtol_classification 0)))
             Minus (bytes "12") "x"%char []).
    + discriminate.
    + reflexivity.
    + reflexivity.
    + discriminate.
Defined.

(** ** C6: a matched record with a corrupt score

    For every file in which the first 21-byte line whose name field
    matches the search key has a score field that [score_strtol] does not
    find valid, whatever the outcomes of the calls on the file,
    [find_record] answers -1, [adjust_score] fails with the message for an
    error in a record, and nothing is written: the file is as it was. *)
Theorem corrupt_score_is_error (uid : Z) (name : list ascii) (delta : Z)
    (data : list ascii) (fs : list io_fault) (off : nat) (m : list ascii) :
  validate_name name = 1 ->
  first_match (name_to_search name) 0 (split_lines data) = Some (off, m) ->
  fst (score_strtol 0 (score_text m)) <> SCORE_VALID ->
  (exists w1,
     find_record FILE_scores (name_to_search name) delta (opened_world data fs)
     = Some (-1, w1))
  /\ exists w',
       adjust_score uid name delta (initial_world data true fs)
       = Some ((0, Some ("Error found in record" ++ nl)%string), w')
       /\ file_data w' = data
       /\ existsb is_write (trace w') = false
       /\ stream w' = None.
Proof.
  intros Hv Hm Hs.
  apply (adjust_score_scan_error uid name delta data fs off m Hv Hm).
  left. now apply get_score_invalid.
Qed.

Lemma corrupt_score_is_error_witness :
  let data := bytes "stray" ++ [LF] ++ pad 10 NUL (bytes "alice")
              ++ pad 10 NUL (bytes "12x4") ++ [LF] in
  (exists w1,
     find_record FILE_scores (name_to_search (bytes "alice")) 50 (opened_world data [])
     = Some (-1, w1))
  /\ exists w',
       adjust_score 1001 (bytes "alice") 50 (initial_world data true [])
       = Some ((0, Some ("Error found in record" ++ nl)%string), w')
       /\ file_data w' = data
       /\ existsb is_write (trace w') = false
       /\ stream w' = None.
Proof.
  apply (corrupt_score_is_error 1001 (bytes "alice") 50 _ [] 6%nat
           (pad 10 NUL (bytes "alice") ++ pad 10 NUL (bytes "12x4") ++ [LF])).
  - reflexivity.
  - reflexivity.
  - vm_compute. discriminate.
Defined.

(** ** C7: a record appended when no line matches

    As stated the claim fails: a score below [SCORE_LOW_BOUND] prints in
    more than the 10 bytes of its field, [snprintf] cuts it, and the
    record decodes to another number. *)
Lemma append_truncates_low_delta :
  validate_name (bytes "bob") = 1
  /\ INT_MIN <= -2147483648 <= INT_MAX
  /\ exists w',
       adjust_score 1001 (bytes "bob") (-2147483648) (initial_world [] true [])
       = Some ((1, None), w')
       /\ length (file_data w') = 21%nat
       /\ get_score (file_data w') = -214748364
       /\ get_score (file_data w') <> -2147483648.
Proof.
  split; [reflexivity|]. split; [split; discriminate|].
  eexists. split; [vm_compute; reflexivity|].
  split; [reflexivity|]. split; [reflexivity|]. vm_compute. discriminate.
Qed.

(** C7, amended. For every name of 1 to 9 visible characters and every
    delta within [SCORE_LOW_BOUND, INT_MAX], if no line of the file is a
    21-byte line that matches the name, and every call on the file
    succeeds, [adjust_score] appends one 21-byte record at the end of the
    file; its name field reads as the name, its score field decodes to
    delta. On an empty file, "bob" and -5 leave exactly that one record. *)
Theorem append_on_miss (uid : Z) (name : list ascii) (delta : Z) (data : list ascii) :
  valid_name name = true ->
  SCORE_LOW_BOUND <= delta <= INT_MAX ->
  first_match (name_to_search name) 0 (split_lines data) = None ->
  let record := record_bytes name delta in
  exists w',
    adjust_score uid name delta (initial_world data true []) = Some ((1, None), w')
    /\ file_data w' = data ++ record
    /\ length record = 21%nat
    /\ c_string (bytes_at record 10) = name
    /\ get_score record = delta
    /\ closed w'.
Proof.
  intros Hv Hd Hm record. subst record.
  destruct (adjust_score_append uid name delta data (valid_name_validate name Hv) Hm)
    as (w' & Ha & Hf & Hc).
  destruct (valid_name_spec name Hv) as (Hl & Hn & _).
  exists w'.
  split; [exact Ha|]. split; [exact Hf|].
  split; [apply length_record_bytes|]. rewrite record_bytes_eq.
  pose proof (length_name_to_search name) as Hk.
  rewrite <- Hk at 1. rewrite bytes_at_app.
  split; [apply c_string_name_to_search; assumption || lia|].
  split; [now apply get_score_written|exact Hc].
Qed.

Lemma append_on_miss_witness :
  let record := record_bytes (bytes "bob") (-5) in
  exists w',
    adjust_score 1001 (bytes "bob") (-5) (initial_world [] true [])
    = Some ((1, None), w')
    /\ file_data w' = [] ++ record
    /\ length record = 21%nat
    /\ c_string (bytes_at record 10) = bytes "bob"
    /\ get_score record = -5
    /\ closed w'.
Proof.
  apply (append_on_miss 1001 (bytes "bob") (-5) []).
  - reflexivity.
  - split; discriminate.
  - reflexivity.
Defined.

(** ** C8: a stray line is skipped

    For every file in which the scan comes to a line that is not 21
    bytes long (the bytes before it are whole lines, none of them a
    match), whatever the line holds:
    - whatever the outcomes of the calls on the file, [find_record]
      returns, and returns what it returns on the lines that follow the
      stray line alone, the bytes up to the end of the stray line left
      as they were;
    - a record of the key after the stray line is found: every call
      succeeding, its score valid and the sum within the bounds,
      [find_record] answers 1, having read the stray line and gone on to
      the record, and the new score is written over that record, where
      it is in the file;
    - when no line after the stray line matches either, [find_record]
      answers 0, the file as it was. *)
Theorem stray_line_skipped (key : list ascii) (delta : Z)
    (pre stray rest : list ascii) (fs : list io_fault) :
  pre = [] \/ (exists p, pre = p ++ [LF]) ->
  first_match key 0 (split_lines pre) = None ->
  stray <> [] -> read_line (stray ++ rest) = (stray, rest) ->
  length stray <> 21%nat ->
  first_match key 0 (split_lines (pre ++ stray ++ rest))
  = option_map (fun om => (length (pre ++ stray) + fst om, snd om)%nat)
      (first_match key 0 (split_lines rest))
  /\ (exists r w1 w2,
        find_record FILE_scores key delta (opened_world (pre ++ stray ++ rest) fs)
        = Some (r, w1)
        /\ find_record FILE_scores key delta (opened_world rest fs) = Some (r, w2)
        /\ file_data w1 = pre ++ stray ++ file_data w2)
  /\ (forall off m s,
        fs = [] ->
        first_match key 0 (split_lines rest) = Some (off, m) ->
        get_score m = s -> s <> INT_MIN ->
        INT_MIN <= delta <= INT_MAX ->
        SCORE_LOW_BOUND <= s + delta <= INT_MAX ->
        exists w1,
          find_record FILE_scores key delta (opened_world (pre ++ stray ++ rest) fs)
          = Some (1, w1)
          /\ file_data w1
             = pre ++ stray ++ firstn off rest
               ++ (bytes_at key FIELD_SIZE ++ score_field (s + delta))
               ++ skipn (off + 21) rest
          /\ trace w1
             = [EvOpen true; EvSeek true]
               ++ map EvRead (split_lines pre) ++ [EvRead stray]
               ++ map EvRead (split_lines (firstn off rest))
               ++ [EvRead m; EvSeek true; EvWrite (bytes_at key FIELD_SIZE);
                   EvWrite (score_field (s + delta))])
  /\ (fs = [] ->
      first_match key 0 (split_lines rest) = None ->
      exists w1,
        find_record FILE_scores key delta (opened_world (pre ++ stray ++ rest) fs)
        = Some (0, w1)
        /\ file_data w1 = pre ++ stray ++ rest
        /\ In (EvRead stray) (trace w1)).
Proof.
  intros Hpre Hnone Hne Hline Hlen.
  destruct (read_line_one_line stray rest Hne Hline) as [Hone Hcons].
  assert (Hstray : split_lines (pre ++ stray) = split_lines pre ++ [stray])
    by (now rewrite (split_lines_app_complete pre stray Hpre), Hone).
  assert (Hsplit : split_lines ((pre ++ stray) ++ rest)
                   = split_lines (pre ++ stray) ++ split_lines rest).
  { rewrite <- app_assoc, (split_lines_app_complete pre (stray ++ rest) Hpre).
    now rewrite Hcons, Hstray, <- app_assoc. }
  assert (HnoneP : first_match key 0 (split_lines (pre ++ stray)) = None).
  { rewrite Hstray, (first_match_app key 0 _ _ Hnone). cbn [first_match].
    unfold candidate.
    replace (Z.of_nat (length stray) =? 21) with false; [reflexivity|].
    symmetry. apply Z.eqb_neq. lia. }
  assert (Hfirst : first_match key 0 (split_lines (pre ++ stray ++ rest))
                   = option_map (fun om => (length (pre ++ stray) + fst om, snd om)%nat)
                       (first_match key 0 (split_lines rest))).
  { rewrite app_assoc, Hsplit, (first_match_app key 0 _ _ HnoneP).
    rewrite concat_split_lines.
    rewrite <- (Nat.add_0_r (0 + length (pre ++ stray))).
    apply first_match_shift. }
  split; [exact Hfirst|]. split; [|split].
  - destruct (find_record_skip_prefix key delta (pre ++ stray) rest fs Hsplit HnoneP)
      as (r & w1 & w2 & H1 & H2 & H3).
    exists r, w1, w2. rewrite <- app_assoc in H1, H3. auto.
  - intros off m s -> Hm Hs Hs0 Hd Hsum.
    rewrite Hm in Hfirst. cbn [option_map fst snd] in Hfirst.
    destruct (first_match_split _ _ _ _ _ Hm) as (ls1 & ls2 & Hls & Hn1 & Hoff & Hcand).
    destruct (split_lines_around ls1 rest m ls2 Hls) as (_ & Hs1 & _ & Hrest).
    cbn [Nat.add] in Hoff.
    assert (Hl : length m = 21%nat).
    { unfold candidate in Hcand. apply andb_prop in Hcand as [Hcand _].
      apply Z.eqb_eq in Hcand. lia. }
    assert (Hfn : firstn off rest = concat ls1).
    { rewrite Hrest, Hoff, firstn_app, Nat.sub_diag, firstn_all.
      cbn [firstn]. apply app_nil_r. }
    assert (Hsk : skipn (off + 21) rest = concat ls2).
    { rewrite Hrest, Hoff, skipn_app, skipn_all2 by lia.
      replace (length (concat ls1) + 21 - length (concat ls1))%nat with 21%nat by lia.
      cbn [app]. rewrite skipn_app, <- Hl, skipn_all, Nat.sub_diag. reflexivity. }
    assert (Hi : INT_MIN <= s <= INT_MAX).
    { destruct (get_score_range m) as [E|E]; rewrite Hs in E;
        unfold SCORE_LOW_BOUND, INT_MIN, INT_MAX in *; lia. }
    assert (Hcs : check_sum (get_score m) delta <> 0).
    { rewrite Hs, check_sum_spec by assumption.
      rewrite gtb_false, ltb_false by lia. discriminate. }
    assert (Hdata : pre ++ stray ++ rest
                    = (pre ++ stray ++ concat ls1) ++ m ++ concat ls2).
    { rewrite Hrest at 1. now rewrite <- !app_assoc. }
    assert (Hm' : first_match key 0
                    (split_lines ((pre ++ stray ++ concat ls1) ++ m ++ concat ls2))
                  = Some (length (pre ++ stray ++ concat ls1), m)).
    { rewrite <- Hdata, Hfirst. f_equal. f_equal.
      rewrite Hoff, !length_app. lia. }
    destruct (find_record_update key delta _ m _ Hm') as (w1 & Hf & Hfd & Ht);
      [rewrite Hs; exact Hs0|exact Hcs|].
    rewrite <- Hdata in Hf, Ht. rewrite Hs in Hfd, Ht.
    rewrite wrap_int_id in Hfd, Ht by (unfold SCORE_LOW_BOUND, INT_MIN in *; lia).
    exists w1. split; [exact Hf|]. split.
    + rewrite Hfd, Hfn, Hsk. now rewrite <- !app_assoc.
    + rewrite Ht, Hfn, Hs1. f_equal.
      rewrite app_assoc, Hsplit, Hstray, Hls.
      rewrite <- !app_assoc. cbn [app].
      replace (split_lines pre ++ stray :: ls1 ++ m :: ls2)
        with ((split_lines (pre ++ stray) ++ ls1) ++ m :: ls2)
        by (rewrite Hstray, <- !app_assoc; reflexivity).
      rewrite (scan_reads_upto key m _ ls2 O).
      * rewrite Hstray, !map_app, <- !app_assoc. reflexivity.
      * rewrite (first_match_app key 0 _ _ HnoneP), concat_split_lines.
        rewrite <- (Nat.add_0_r (0 + length (pre ++ stray))), first_match_shift.
        now rewrite Hn1.
      * exact Hcand.
  - intros -> Hm. rewrite Hm in Hfirst. cbn [option_map] in Hfirst.
    rewrite (find_record_spec key delta (opened_world (pre ++ stray ++ rest) []) O eq_refl).
    unfold next_fault. cbn [faults opened_world file_data]. cbv zeta. rewrite Hfirst.
    eexists. split; [reflexivity|]. split; [reflexivity|].
    cbn [trace at_pos log set_stream set_faults].
    apply in_or_app. right.
    rewrite app_assoc, Hsplit, Hstray.
    clear - Hnone. revert Hnone. generalize 0%nat.
    induction (split_lines pre) as [|l ls IH]; intros off Hn.
    + cbn [app scan_reads]. now left.
    + cbn [app scan_reads]. cbn [first_match] in Hn.
      destruct (candidate key l); [discriminate|]. right. now apply (IH (off + length l)%nat).
Qed.

Lemma stray_line_skipped_witness :
  let key := name_to_search (bytes "alice") in
  let pre := record_bytes (bytes "bob") 7 in
  let stray := bytes "not a record" ++ [LF] in
  let rest := record_bytes (bytes "alice") 100 in
  exists w1,
    find_record FILE_scores key 50 (opened_world (pre ++ stray ++ rest) [])
    = Some (1, w1)
    /\ file_data w1 = pre ++ stray ++ record_bytes (bytes "alice") 150
    /\ trace w1
       = [EvOpen true; EvSeek true; EvRead pre; EvRead stray; EvRead rest;
          EvSeek true; EvWrite key; EvWrite (score_field 150)].
Proof.
  cbv zeta.
  destruct (stray_line_skipped (name_to_search (bytes "alice")) 50
              (record_bytes (bytes "bob") 7) (bytes "not a record" ++ [LF])
              (record_bytes (bytes "alice") 100) [])
    as (_ & _ & H & _).
  - right. exists (firstn 20 (record_bytes (bytes "bob") 7)). reflexivity.
  - reflexivity.
  - discriminate.
  - reflexivity.
  - vm_compute. discriminate.
  - destruct (H O (record_bytes (bytes "alice") 100) 100) as (w1 & Hf & Hd & Ht).
    + reflexivity.
    + reflexivity.
    + reflexivity.
    + discriminate.
    + split; discriminate.
    + split; discriminate.
    + exists w1. split; [exact Hf|]. split; [rewrite Hd|rewrite Ht]; reflexivity.
Defined.

(** ** C9: the file is closed on every path

    [adjust_score] returns, whatever the name, the delta, the file and
    the outcomes of the calls on it; and whenever [fopen] succeeded, the
    stream is closed when [adjust_score] returns, [fclose] being the last
    thing done: on success, on an error in a record, on a failed seek and
    on a failed write alike. *)
Theorem file_closed_on_every_path (uid : Z) (name : list ascii) (delta : Z)
    (data : list ascii) (openable : bool) (fs : list io_fault) :
  exists r w',
    adjust_score uid name delta (initial_world data openable fs) = Some (r, w')
    /\ (In (EvOpen true) (trace w') -> closed w').
Proof.
  destruct (Z.eq_dec (validate_name name) 1) as [Hv|Hv].
  - destruct openable.
    + rewrite (adjust_score_opened uid name delta data fs Hv).
      destruct (find_record_total (name_to_search name) delta (opened_world data fs) O
                  eq_refl) as (r & w & ->).
      destruct (r =? -1).
      { eexists _, _. split; [reflexivity|]. intros _. apply closed_fclose. }
      destruct (r =? 0).
      { destruct (append_closes (name_to_search name) delta w) as (x & w' & -> & Hc).
        eexists _, _. split; [reflexivity|]. intros _. exact Hc. }
      eexists _, _. split; [reflexivity|]. intros _. apply closed_fclose.
    + unfold adjust_score. rewrite Hv. change (negb (1 =? 1)) with false. cbv iota.
      unfold bind, fopen, ret. cbn [can_open initial_world].
      rewrite andb_false_r.
      eexists _, _. split; [reflexivity|]. cbn [trace log initial_world].
      intros [H|[]]. discriminate H.
  - unfold adjust_score.
    replace (negb (validate_name name =? 1)) with true
      by (symmetry; apply negb_true_iff, Z.eqb_neq, Hv).
    unfold ret. eexists _, _. split; [reflexivity|]. intros [].
Qed.

(** ** C10: names of ten characters

    A name of exactly 10 visible characters passes [validate_name] and
    is searched and written as its first 9 characters: [adjust_score]
    does with it what it does with the name cut to 9 characters. Two such
    names with the same first 9 characters have the same key and match
    the same line of any file; and when the one is added to a file by a
    call, every call succeeding, the record written holds the 9
    characters, and a call for the other updates that record. *)
Theorem ten_character_names_collide (n1 n2 : list ascii) :
  length n1 = 10%nat -> length n2 = 10%nat ->
  forallb visible n1 = true -> forallb visible n2 = true ->
  firstn 9 n1 = firstn 9 n2 ->
  validate_name n1 = 1 /\ validate_name n2 = 1
  /\ name_to_search n1 = firstn 9 n1 ++ [NUL]
  /\ name_to_search n2 = name_to_search n1
  /\ (forall data,
        first_match (name_to_search n2) 0 (split_lines data)
        = first_match (name_to_search n1) 0 (split_lines data))
  /\ (forall uid delta w,
        adjust_score uid n2 delta w = adjust_score uid n1 delta w)
  /\ (forall uid delta w,
        adjust_score uid n1 delta w = adjust_score uid (firstn 9 n1) delta w)
  /\ (forall uid d1 d2 data,
        data = [] \/ (exists p, data = p ++ [LF]) ->
        first_match (name_to_search n1) 0 (split_lines data) = None ->
        SCORE_LOW_BOUND <= d1 <= INT_MAX ->
        INT_MIN <= d2 <= INT_MAX ->
        SCORE_LOW_BOUND <= d1 + d2 <= INT_MAX ->
        exists w1 w2,
          adjust_score uid n1 d1 (initial_world data true []) = Some ((1, None), w1)
          /\ file_data w1 = data ++ (firstn 9 n1 ++ [NUL]) ++ score_field d1
          /\ adjust_score uid n2 d2 (initial_world (file_data w1) true [])
             = Some ((1, None), w2)
          /\ file_data w2 = data ++ (firstn 9 n1 ++ [NUL]) ++ score_field (d1 + d2)
          /\ c_string (bytes_at (skipn (length data) (file_data w2)) 10) = firstn 9 n1
          /\ get_score (skipn (length data) (file_data w2)) = d1 + d2).
Proof.
  intros Hl1 Hl2 Hv1 Hv2 H9.
  destruct (ten_characters n1 Hl1 Hv1) as [V1 K1].
  destruct (ten_characters n2 Hl2 Hv2) as [V2 K2].
  assert (K : name_to_search n2 = name_to_search n1) by (now rewrite K1, K2, H9).
  assert (Hcut : valid_name (firstn 9 n1) = true).
  { unfold valid_name. rewrite length_firstn, Hl1. cbn [Nat.min Nat.leb andb].
    rewrite <- (firstn_skipn 9 n1), forallb_app in Hv1.
    now apply andb_prop in Hv1. }
  destruct (valid_name_spec _ Hcut) as (Hcl & Hcn & _).
  assert (K9 : name_to_search (firstn 9 n1) = name_to_search n1).
  { rewrite K1, name_to_search_short by (assumption || lia).
    rewrite length_firstn, Hl1. reflexivity. }
  split; [exact V1|]. split; [exact V2|]. split; [exact K1|]. split; [exact K|].
  split; [intros data; now rewrite K|].
  split; [intros uid delta w; apply adjust_score_name; [now rewrite V1, V2|exact K]|].
  split.
  { intros uid delta w. apply adjust_score_name; [|now rewrite K9].
    now rewrite V1, (valid_name_validate _ Hcut). }
  intros uid d1 d2 data Hdata Hm H1 H2 H12.
  destruct (adjust_score_append_update uid n1 d1 d2 data V1 Hdata Hm H1 H2 H12)
    as (w1 & w2 & Ha1 & Ha2 & Hf1 & Hf2).
  rewrite record_bytes_eq, K1 in Hf1, Hf2.
  exists w1, w2. split; [exact Ha1|]. split; [exact Hf1|].
  split; [rewrite (adjust_score_name uid n2 n1); [exact Ha2|now rewrite V1, V2|exact K]|].
  split; [exact Hf2|].
  rewrite Hf2, skipn_app, skipn_all, Nat.sub_diag. cbn [skipn app].
  split.
  - replace 10%nat with (length (firstn 9 n1 ++ [NUL]))
      by (rewrite length_app, length_firstn, Hl1; reflexivity).
    rewrite bytes_at_app, <- K1, <- K9.
    apply c_string_name_to_search; assumption || lia.
  - apply get_score_written; [|exact H12].
    rewrite length_app, length_firstn, Hl1. reflexivity.
Qed.

Lemma ten_character_names_collide_witness :
  let n1 := bytes "abcdefghiX" in
  let n2 := bytes "abcdefghiY" in
  validate_name n1 = 1 /\ validate_name n2 = 1
  /\ name_to_search n2 = name_to_search n1
  /\ exists w1 w2,
       adjust_score 1001 n1 5 (initial_world [] true []) = Some ((1, None), w1)
       /\ file_data w1 = record_bytes (bytes "abcdefghi") 5
       /\ adjust_score 1001 n2 7 (initial_world (file_data w1) true [])
          = Some ((1, None), w2)
       /\ file_data w2 = record_bytes (bytes "abcdefghi") 12
       /\ c_string (bytes_at (file_data w2) 10) = bytes "abcdefghi"
       /\ get_score (file_data w2) = 12.
Proof.
  cbv zeta.
  destruct (ten_character_names_collide (bytes "abcdefghiX") (bytes "abcdefghiY"))
    as (V1 & V2 & _ & K & _ & _ & _ & H); try reflexivity.
  split; [exact V1|]. split; [exact V2|]. split; [exact K|].
  destruct (H 1001 5 7 []) as (w1 & w2 & Ha1 & Hf1 & Ha2 & Hf2 & Hc & Hg).
  - now left.
  - reflexivity.
  - split; discriminate.
  - split; discriminate.
  - split; discriminate.
  - exists w1, w2. split; [exact Ha1|]. split; [rewrite Hf1; reflexivity|].
    split; [exact Ha2|]. split; [rewrite Hf2; reflexivity|].
    split; [exact Hc|exact Hg].
Defined.
(** * Further properties *)

(** ** The functions that do no I/O *)

(** X1. For [int] arguments the sum of [check_sum] does not overflow
    its [long]: [check_sum] answers 1 exactly when the sum is within
    [SCORE_LOW_BOUND, INT_MAX], and 0 otherwise. *)
Theorem check_sum_in_bounds (old new : Z) :
  INT_MIN <= old <= INT_MAX -> INT_MIN <= new <= INT_MAX ->
  (check_sum old new = 1 <-> SCORE_LOW_BOUND <= old + new <= INT_MAX)
  /\ (check_sum old new = 0 <-> old + new > INT_MAX \/ old + new < SCORE_LOW_BOUND).
Proof.
  intros Ho Hn. rewrite (check_sum_spec old new Ho Hn).
  destruct (old + new >? INT_MAX) eqn:E1; cbn [orb].
  - rewrite Z.gtb_ltb in E1. apply Z.ltb_lt in E1.
    split; split; intros H; try discriminate H; try reflexivity; lia.
  - rewrite Z.gtb_ltb in E1. apply Z.ltb_ge in E1.
    destruct (old + new <? SCORE_LOW_BOUND) eqn:E2.
    + apply Z.ltb_lt in E2.
      split; split; intros H; try discriminate H; try reflexivity; lia.
    + apply Z.ltb_ge in E2.
      split; split; intros H; try discriminate H; try reflexivity; lia.
Qed.

Lemma check_sum_in_bounds_witness :
  (check_sum INT_MAX 1 = 1 <-> SCORE_LOW_BOUND <= INT_MAX + 1 <= INT_MAX)
  /\ (check_sum INT_MAX 1 = 0 <-> INT_MAX + 1 > INT_MAX \/ INT_MAX + 1 < SCORE_LOW_BOUND).
Proof.
  apply (check_sum_in_bounds INT_MAX 1); split; discriminate.
Defined.

(** X2. Whatever the text, [score_strtol] stores a score only when it
    answers [SCORE_VALID], and the score it stores is within
    [SCORE_LOW_BOUND, INT_MAX]; on every other answer [*score] is as it
    was. *)
Theorem score_strtol_outcome (v : Z) (score_line : list ascii) :
  (fst (score_strtol v score_line) = SCORE_VALID ->
   SCORE_LOW_BOUND <= snd (score_strtol v score_line) <= INT_MAX)
  /\ (fst (score_strtol v score_line) <> SCORE_VALID ->
      snd (score_strtol v score_line) = v).
Proof.
  split.
  - intros H. destruct (score_strtol v score_line) as [e x] eqn:E.
    cbn [fst snd] in *. subst e. exact (score_strtol_valid_range _ _ _ E).
  - unfold score_strtol.
    destruct ((load score_line 0 =? NUL)%char || isspace (load score_line 0));
      [reflexivity|].
    destruct (strtol score_line) as [[score_long erange] endptr].
    destruct ((score_long >? INT_MAX) || erange && (score_long =? LONG_MAX));
      [reflexivity|].
    destruct ((score_long <? SCORE_LOW_BOUND) || erange && (score_long =? LONG_MIN));
      [reflexivity|].
    destruct (negb (load endptr 0 =? NUL)%char); [reflexivity|].
    cbn [fst]. congruence.
Qed.

(** X3. [get_score] answers [INT_MIN] or a score within
    [SCORE_LOW_BOUND, INT_MAX], so that [INT_MIN] is never the score of
    a record; and it answers a score exactly when byte 20 of the line is
    the newline and [score_strtol] finds the score field valid. *)
Theorem get_score_sentinel (line_buf : list ascii) :
  (get_score line_buf = INT_MIN
   \/ SCORE_LOW_BOUND <= get_score line_buf <= INT_MAX)
  /\ (get_score line_buf <> INT_MIN <->
      load line_buf 20 = LF
      /\ fst (score_strtol 0 (score_text line_buf)) = SCORE_VALID).
Proof.
  split; [apply get_score_range|].
  unfold get_score. fold (score_text line_buf).
  change (REC_SIZE - 1)%nat with 20%nat.
  destruct (load line_buf 20 =? LF)%char eqn:E; cbn [negb].
  - apply Ascii.eqb_eq in E.
    destruct (score_strtol 0 (score_text line_buf)) as [e x] eqn:Es. cbn [fst].
    destruct e; try (split; [congruence|intros [_ H]; discriminate H]).
    split; [auto|]. intros _.
    apply score_strtol_valid_range in Es.
    rewrite wrap_int_id; unfold SCORE_LOW_BOUND, INT_MIN, INT_MAX in *; lia.
  - apply Ascii.eqb_neq in E. split; [congruence|]. intros [H _]. contradiction.
Qed.

(** X4. A number that ends where the string ends, with or without a
    sign and with any leading zeros, is classified by its value alone:
    overflow above [INT_MAX], underflow below [SCORE_LOW_BOUND], and
    otherwise valid, the score stored being that value. *)
Theorem score_strtol_number (v : Z) (sg : sign) (ds rest : list ascii) :
  ds <> [] -> forallb isdigit ds = true -> load rest 0 = NUL ->
  score_strtol v (sign_text sg ++ ds ++ rest) =
    let n := signed sg (decimal_value ds) in
    if n >? INT_MAX then (SCORE_OVERFLOW, v)
    else if n <? SCORE_LOW_BOUND then (SCORE_UNDERFLOW, v)
    else (SCORE_VALID, n).
Proof.
  intros Hne Hd Hr. unfold score_strtol.
  assert (Hnd : isdigit (load rest 0) = false) by (now rewrite Hr).
  rewrite (strtol_numeric_prefix sg ds rest Hne Hd Hnd).
  assert (H0 : (load (sign_text sg ++ ds ++ rest) 0 =? NUL)%char
               || isspace (load (sign_text sg ++ ds ++ rest) 0) = false).
  { destruct sg; [|reflexivity|reflexivity].
    destruct ds as [|d ds]; [congruence|].
    assert (Hd1 : isdigit d = true)
      by (cbn [forallb] in Hd; now apply andb_prop in Hd).
    destruct (isdigit_spec d Hd1) as (Hsp & Hn & _).
    cbn [sign_text app]. change (load (d :: ds ++ rest) 0) with d.
    now rewrite Hsp, Hn. }
  rewrite H0. cbv zeta.
  set (n := signed sg (decimal_value ds)).
  unfold INT_MAX, SCORE_LOW_BOUND, LONG_MAX, LONG_MIN.
  destruct (n >? 9223372036854775807) eqn:E1.
  - rewrite Z.gtb_ltb in E1. apply Z.ltb_lt in E1.
    replace (n >? 2147483647) with true by (symmetry; apply Z.gtb_lt; lia).
    reflexivity.
  - rewrite Z.gtb_ltb in E1. apply Z.ltb_ge in E1.
    destruct (n <? -9223372036854775808) eqn:E2.
    + apply Z.ltb_lt in E2.
      rewrite (gtb_false n 2147483647), (proj2 (Z.ltb_lt n (-999999999))) by lia.
      reflexivity.
    + cbn [andb orb]. rewrite !orb_false_r.
      destruct (n >? 2147483647) eqn:E3; [reflexivity|].
      destruct (n <? -999999999) eqn:E4; [reflexivity|].
      rewrite Hr. cbn [negb]. change (NUL =? NUL)%char with true. cbn [negb].
      rewrite Z.gtb_ltb in E3. apply Z.ltb_ge in E3, E4.
      rewrite wrap_int_id; [reflexivity|unfold INT_MIN, INT_MAX; lia].
Qed.

Lemma score_strtol_number_witness :
  score_strtol 0 (sign_text Plus ++ bytes "007" ++ []) =
    let n := signed Plus (decimal_value (bytes "007")) in
    if n >? INT_MAX then (SCORE_OVERFLOW, 0)
    else if n <? SCORE_LOW_BOUND then (SCORE_UNDERFLOW, 0)
    else (SCORE_VALID, n).
Proof.
  apply (score_strtol_number 0 Plus (bytes "007") []).
  - discriminate.
  - reflexivity.
  - reflexivity.
Defined.

(** X5. [match_name] answers 1 exactly when byte 9 of the line is the
    terminator and the name field, read as a C string, is the name
    searched for; it answers 0 otherwise. *)
Theorem match_name_exact (player_name line_buf : list ascii) :
  (match_name player_name line_buf = 1 <->
   load line_buf 9 = NUL
   /\ c_string player_name = c_string (bytes_at line_buf 10))
  /\ (match_name player_name line_buf = 0 \/ match_name player_name line_buf = 1).
Proof. exact (match_name_iff player_name line_buf). Qed.

(** ** Names and records *)

(** X6. Whatever the name given, [name_to_search] is a buffer of 10
    bytes with the terminator in byte 9, and the string in it is the
    first 9 characters of the name: a shorter name is kept whole, a
    longer one is cut. *)
Theorem name_to_search_normal (player_name : list ascii) :
  length (name_to_search player_name) = 10%nat
  /\ load (name_to_search player_name) 9 = NUL
  /\ c_string (name_to_search player_name) = firstn 9 (c_string player_name)
  /\ ((strlen player_name <= 9)%nat ->
      c_string (name_to_search player_name) = c_string player_name).
Proof.
  split; [apply length_name_to_search|].
  split; [apply name_to_search_terminated|].
  assert (E : c_string (name_to_search player_name) = firstn 9 (c_string player_name)).
  { rewrite name_to_search_pad. unfold pad.
    set (y := firstn 9 (c_string player_name)).
    assert (Hy : forallb (fun c => negb (c =? NUL)%char) y = true)
      by apply forallb_firstn, c_string_no_nul.
    assert (Ly : (length y <= 9)%nat) by (unfold y; rewrite length_firstn; lia).
    destruct (10 - length y)%nat as [|k] eqn:Ek; [lia|].
    cbn [repeat]. unfold c_string. rewrite (strlen_padded y _ Hy).
    rewrite firstn_app, Nat.sub_diag, firstn_all. cbn [firstn]. apply app_nil_r. }
  split; [exact E|]. intros H. rewrite E. apply firstn_all2.
  now rewrite length_c_string.
Qed.

(** X7. Whatever the score, also one that does not fit its field, the
    record written for a name that [validate_name] accepts is one line of
    21 bytes: the terminator in byte 9, the newline in byte 20 and nowhere
    before, so that [getline] reads it back as one line, and the scan
    takes it for the record of that name. *)
Theorem record_is_a_line (name : list ascii) (score : Z) (rest : list ascii) :
  validate_name name = 1 ->
  let record := record_bytes name score in
  length record = 21%nat
  /\ load record 9 = NUL
  /\ load record 20 = LF
  /\ read_line (record ++ rest) = (record, rest)
  /\ candidate (name_to_search name) record = true.
Proof.
  intros Hv record. subst record.
  pose proof (length_name_to_search name) as Hk.
  split; [apply length_record_bytes|].
  split.
  { rewrite record_bytes_eq, load_app_l by lia. apply name_to_search_terminated. }
  split.
  { rewrite record_bytes_eq, load_app_r by lia. rewrite Hk.
    apply score_field_newline. }
  split; [|apply candidate_record].
  destruct (record_bytes_body name score Hv) as (body & -> & Hb).
  now apply read_line_body.
Qed.

Lemma record_is_a_line_witness :
  let record := record_bytes (bytes "abcdefghij") (-2147483648) in
  length record = 21%nat
  /\ load record 9 = NUL
  /\ load record 20 = LF
  /\ read_line (record ++ bytes "next") = (record, bytes "next")
  /\ candidate (name_to_search (bytes "abcdefghij")) record = true.
Proof.
  apply (record_is_a_line (bytes "abcdefghij") (-2147483648) (bytes "next")).
  reflexivity.
Defined.

(** ** The scan and the update in place *)

(** X8. [find_record] answers -1, 0 or 1. It answers 0 exactly when its
    first seek succeeds and no line of the file is a 21-byte line that
    matches the name; the file is then as it was, nothing written, and
    the stream at the end of the file, where the new record is to go. *)
Theorem find_record_answers (key : list ascii) (delta : Z) (data : list ascii)
    (fs : list io_fault) :
  exists r w',
    find_record FILE_scores key delta (opened_world data fs) = Some (r, w')
    /\ (r = -1 \/ r = 0 \/ r = 1)
    /\ (r = 0 <->
        first_match key 0 (split_lines data) = None
        /\ forall k fs', fs <> IoFail k :: fs')
    /\ (r = 0 ->
        file_data w' = data
        /\ stream w' = Some (length data)
        /\ existsb is_write (trace w') = false).
Proof.
  rewrite (find_record_spec key delta (opened_world data fs) O eq_refl).
  unfold next_fault, opened_world. cbn [faults file_data].
  assert (Hok : forall fs0 : list io_fault,
    (forall k fs', fs <> IoFail k :: fs') ->
    exists r w',
      (let w2 := log (EvSeek true) (set_stream (Some O)
                   (set_faults fs0 (mkWorld data true (Some O) fs [EvOpen true]))) in
       let ls := split_lines data in
       match first_match key 0 ls with
       | Some (off, m) =>
           update_record FILE_scores key delta m (at_pos w2 (off + 21) (scan_reads key ls))
       | None => Some (0, at_pos w2 (length data) (scan_reads key ls))
       end) = Some (r, w')
      /\ (r = -1 \/ r = 0 \/ r = 1)
      /\ (r = 0 <->
          first_match key 0 (split_lines data) = None
          /\ forall k fs', fs <> IoFail k :: fs')
      /\ (r = 0 ->
          file_data w' = data
          /\ stream w' = Some (length data)
          /\ existsb is_write (trace w') = false)).
  { intros fs0 Hfs. cbv zeta.
    destruct (first_match key 0 (split_lines data)) as [[off m]|].
    - destruct (update_record_total key delta m
                  (at_pos (log (EvSeek true) (set_stream (Some O)
                     (set_faults fs0 (mkWorld data true (Some O) fs [EvOpen true]))))
                     (off + 21) (scan_reads key (split_lines data))))
        as (r & w' & E).
      rewrite E. destruct (update_record_result _ _ _ _ _ _ E) as [-> | ->];
        eexists _, _; (split; [reflexivity|]); (split; [auto|]);
        (split; [split; [discriminate|intros [H _]; discriminate H]|discriminate]).
    - eexists _, _. split; [reflexivity|]. split; [auto|].
      split; [split; auto|]. intros _. cbn [at_pos file_data stream trace log set_stream set_faults].
      repeat split. apply existsb_is_write_app; [reflexivity|apply scan_reads_no_write]. }
  destruct fs as [|[|k] fs'].
  - apply (Hok []). intros k fs'. discriminate.
  - destruct (Hok fs') as (r & w' & H); [intros k fs''; discriminate|].
    exists r, w'. exact H.
  - eexists _, _. split; [reflexivity|]. split; [auto|].
    split; [|discriminate]. split; [discriminate|].
    intros [_ H]. exfalso. now apply (H k fs').
Qed.

(** X9. When the first line that matches the name holds a valid score
    [s] and [s + delta] is within the bounds, and every call on the file
    succeeds, [adjust_score] succeeds and rewrites that line alone: the
    bytes before it and after it are as they were, the file has the
    length it had, the line now decodes to [s + delta], and the scan
    finds it for the name at the offset of the old one. *)
Theorem update_in_place (uid : Z) (name : list ascii) (delta : Z)
    (data : list ascii) (off : nat) (m : list ascii) (s : Z) :
  validate_name name = 1 ->
  INT_MIN <= delta <= INT_MAX ->
  first_match (name_to_search name) 0 (split_lines data) = Some (off, m) ->
  get_score m = s -> s <> INT_MIN ->
  SCORE_LOW_BOUND <= s + delta <= INT_MAX ->
  let record := record_bytes name (s + delta) in
  exists w',
    adjust_score uid name delta (initial_world data true []) = Some ((1, None), w')
    /\ file_data w' = firstn off data ++ record ++ skipn (off + 21) data
    /\ (off + 21 <= length data)%nat
    /\ length (file_data w') = length data
    /\ get_score record = s + delta
    /\ first_match (name_to_search name) 0 (split_lines (file_data w'))
       = Some (off, record)
    /\ closed w'.
Proof. exact (update_in_place_spec uid name delta data off m s). Qed.

Lemma update_in_place_witness :
  let data := record_bytes (bytes "bob") 7 ++ record_bytes (bytes "alice") 100 in
  let record := record_bytes (bytes "alice") (100 + 50) in
  exists w',
    adjust_score 1001 (bytes "alice") 50 (initial_world data true [])
    = Some ((1, None), w')
    /\ file_data w' = firstn 21 data ++ record ++ skipn (21 + 21) data
    /\ (21 + 21 <= length data)%nat
    /\ length (file_data w') = length data
    /\ get_score record = 100 + 50
    /\ first_match (name_to_search (bytes "alice")) 0 (split_lines (file_data w'))
       = Some (21%nat, record)
    /\ closed w'.
Proof.
  apply (update_in_place 1001 (bytes "alice") 50
           (record_bytes (bytes "bob") 7 ++ record_bytes (bytes "alice") 100)
           21 (record_bytes (bytes "alice") 100) 100).
  - reflexivity.
  - split; discriminate.
  - reflexivity.
  - reflexivity.
  - discriminate.
  - split; discriminate.
Defined.

(** X10. A player that no line of the file matches, the file ending
    with a newline or being empty: adjusted by [d1] and then by [d2],
    every call succeeding, the player has one record, after the bytes
    the file had, and its score is [d1 + d2]. *)
Theorem miss_then_hit_general (uid : Z) (name : list ascii) (d1 d2 : Z)
    (data : list ascii) :
  validate_name name = 1 ->
  data = [] \/ (exists p, data = p ++ [LF]) ->
  first_match (name_to_search name) 0 (split_lines data) = None ->
  SCORE_LOW_BOUND <= d1 <= INT_MAX ->
  INT_MIN <= d2 <= INT_MAX ->
  SCORE_LOW_BOUND <= d1 + d2 <= INT_MAX ->
  exists w1 w2,
    adjust_score uid name d1 (initial_world data true []) = Some ((1, None), w1)
    /\ adjust_score uid name d2 (initial_world (file_data w1) true [])
       = Some ((1, None), w2)
    /\ file_data w2 = data ++ record_bytes name (d1 + d2).
Proof.
  intros Hv Hdata Hm H1 H2 H12.
  destruct (adjust_score_append_update uid name d1 d2 data Hv Hdata Hm H1 H2 H12)
    as (w1 & w2 & Ha1 & Ha2 & _ & Hf2).
  now exists w1, w2.
Qed.

Lemma miss_then_hit_general_witness :
  exists w1 w2,
    adjust_score 1001 (bytes "bob") (-5)
      (initial_world (record_bytes (bytes "alice") 100) true [])
    = Some ((1, None), w1)
    /\ adjust_score 1001 (bytes "bob") 12 (initial_world (file_data w1) true [])
       = Some ((1, None), w2)
    /\ file_data w2
       = record_bytes (bytes "alice") 100 ++ record_bytes (bytes "bob") (-5 + 12).
Proof.
  apply (miss_then_hit_general 1001 (bytes "bob") (-5) 12
           (record_bytes (bytes "alice") 100)).
  - reflexivity.
  - right. exists (firstn 20 (record_bytes (bytes "alice") 100)). reflexivity.
  - reflexivity.
  - split; discriminate.
  - split; discriminate.
  - split; discriminate.
Defined.

(** ** Appending *)

(** X11. For every name that [validate_name] accepts, the empty name
    and a name of 10 characters among them, and every delta, when no line
    matches and the file is empty or ends with a newline, and every call
    succeeds: [adjust_score] makes the file 21 bytes longer, by the record
    of the name at its end, and the scan then finds that record for the
    name, so that the next call updates it. *)
Theorem append_then_found (uid : Z) (name : list ascii) (delta : Z)
    (data : list ascii) :
  validate_name name = 1 ->
  data = [] \/ (exists p, data = p ++ [LF]) ->
  first_match (name_to_search name) 0 (split_lines data) = None ->
  let record := record_bytes name delta in
  exists w',
    adjust_score uid name delta (initial_world data true []) = Some ((1, None), w')
    /\ file_data w' = data ++ record
    /\ length (file_data w') = (length data + 21)%nat
    /\ first_match (name_to_search name) 0 (split_lines (file_data w'))
       = Some (length data, record).
Proof.
  intros Hv Hdata Hm record. subst record.
  destruct (adjust_score_append uid name delta data Hv Hm) as (w' & Ha & Hf & _).
  exists w'. split; [exact Ha|]. rewrite Hf. split; [reflexivity|].
  split; [now rewrite length_app, length_record_bytes|].
  now apply first_match_appended.
Qed.

Lemma append_then_found_witness :
  let record := record_bytes [] (-2147483648) in
  exists w',
    adjust_score 1001 [] (-2147483648) (initial_world [] true []) = Some ((1, None), w')
    /\ file_data w' = [] ++ record
    /\ length (file_data w') = (length (@nil ascii) + 21)%nat
    /\ first_match (name_to_search []) 0 (split_lines (file_data w'))
       = Some (length (@nil ascii), record).
Proof.
  apply (append_then_found 1001 [] (-2147483648) []).
  - reflexivity.
  - now left.
  - reflexivity.
Defined.

(** X12. When the file does not end with a newline, the record that
    [adjust_score] appends for a player that no line matches runs on from
    the last line: the call succeeds, but no line of the file matches the
    player afterwards either, so that the next call for the player
    appends again. *)
Theorem append_after_partial_line (uid : Z) (name : list ascii) (delta : Z)
    (p : list ascii) (c : ascii) :
  validate_name name = 1 ->
  c <> LF ->
  first_match (name_to_search name) 0 (split_lines (p ++ [c])) = None ->
  exists w',
    adjust_score uid name delta (initial_world (p ++ [c]) true [])
    = Some ((1, None), w')
    /\ file_data w' = (p ++ [c]) ++ record_bytes name delta
    /\ first_match (name_to_search name) 0 (split_lines (file_data w')) = None.
Proof.
  intros Hv Hc Hm.
  destruct (adjust_score_append uid name delta (p ++ [c]) Hv Hm) as (w' & Ha & Hf & _).
  exists w'. split; [exact Ha|]. split; [exact Hf|]. rewrite Hf.
  destruct (record_read_back name delta [] Hv) as [Hne Hrl].
  rewrite app_nil_r in Hrl.
  destruct (split_lines_app_partial _ Hne Hrl p c) as (ls & l & E1 & Hl & E2).
  { now apply Ascii.eqb_neq. }
  rewrite E2. rewrite E1 in Hm.
  rewrite (first_match_app _ 0 _ _ (first_match_app_none _ _ _ _ Hm)).
  cbn [first_match]. unfold candidate.
  replace (Z.of_nat (length (l ++ record_bytes name delta)) =? 21) with false;
    [reflexivity|].
  symmetry. apply Z.eqb_neq. rewrite length_app, length_record_bytes.
  destruct l; [congruence|cbn [length]; lia].
Qed.

Lemma append_after_partial_line_witness :
  exists w',
    adjust_score 1001 (bytes "bob") 5 (initial_world (bytes "junk" ++ ["k"%char]) true [])
    = Some ((1, None), w')
    /\ file_data w' = (bytes "junk" ++ ["k"%char]) ++ record_bytes (bytes "bob") 5
    /\ first_match (name_to_search (bytes "bob")) 0 (split_lines (file_data w')) = None.
Proof.
  apply (append_after_partial_line 1001 (bytes "bob") 5 (bytes "junk") "k"%char).
  - reflexivity.
  - discriminate.
  - reflexivity.
Defined.

(** ** What a call does to the file *)

(** X13. A call for one player, every call on the file succeeding,
    leaves every other player where it was: for a key that is another
    name than the one adjusted, the scan finds after the call the line it
    found before, at the same offset, or none as before. (The file is
    empty or ends with a newline.) *)
Theorem other_players_untouched (uid : Z) (name : list ascii) (delta : Z)
    (data : list ascii) (openable : bool) (key2 : list ascii) :
  data = [] \/ (exists p, data = p ++ [LF]) ->
  c_string key2 <> c_string (name_to_search name) ->
  exists r w',
    adjust_score uid name delta (initial_world data openable []) = Some (r, w')
    /\ first_match key2 0 (split_lines (file_data w'))
       = first_match key2 0 (split_lines data).
Proof.
  intros Hdata Hk.
  destruct (Z.eq_dec (validate_name name) 1) as [Hv|Hv].
  2: { unfold adjust_score.
       replace (negb (validate_name name =? 1)) with true
         by (symmetry; apply negb_true_iff, Z.eqb_neq, Hv).
       unfold ret. eexists _, _. split; reflexivity. }
  destruct openable.
  2: { unfold adjust_score. rewrite Hv. change (negb (1 =? 1)) with false. cbv iota.
       unfold bind, fopen, ret. cbn [can_open initial_world]. rewrite andb_false_r.
       eexists _, _. split; reflexivity. }
  pose proof (adjust_score_no_fault uid name delta data Hv) as H.
  destruct (first_match (name_to_search name) 0 (split_lines data)) as [[off m]|] eqn:Hm.
  - destruct ((get_score m =? INT_MIN) || (check_sum (get_score m) delta =? 0)).
    + destruct H as (w' & Ha & Hf & _). eexists _, w'. split; [exact Ha|now rewrite Hf].
    + destruct H as (w' & ls1 & ls2 & Ha & Hls & Hcand & Hf).
      eexists _, w'. split; [exact Ha|]. rewrite Hf.
      destruct (record_read_back name (wrap_int (get_score m + delta)) (concat ls2) Hv)
        as [Hne Hrl].
      rewrite (split_lines_replace ls1 ls2 data m _ Hls Hne Hrl), Hls.
      apply first_match_replace.
      * exact (candidate_other _ _ _ Hcand Hk).
      * exact (candidate_other _ _ _ (candidate_record name _) Hk).
      * unfold candidate in Hcand. apply andb_prop in Hcand as [Hcand _].
        apply Z.eqb_eq in Hcand. rewrite length_record_bytes. lia.
  - destruct H as (w' & Ha & Hf). eexists _, w'. split; [exact Ha|]. rewrite Hf.
    destruct (record_read_back name delta [] Hv) as [Hne Hrl].
    destruct (read_line_one_line _ _ Hne Hrl) as [Hone _].
    rewrite (split_lines_app_complete _ _ Hdata), Hone.
    destruct (first_match key2 0 (split_lines data)) as [x|] eqn:E2.
    + now apply first_match_app_some.
    + rewrite (first_match_app _ 0 _ _ E2). cbn [first_match].
      now rewrite (candidate_other _ _ _ (candidate_record name delta) Hk).
Qed.

Lemma other_players_untouched_witness :
  exists r w',
    adjust_score 1001 (bytes "alice") 50
      (initial_world (record_bytes (bytes "alice") 100 ++ record_bytes (bytes "bob") 7)
         true [])
    = Some (r, w')
    /\ first_match (name_to_search (bytes "bob")) 0 (split_lines (file_data w'))
       = first_match (name_to_search (bytes "bob")) 0
           (split_lines (record_bytes (bytes "alice") 100 ++ record_bytes (bytes "bob") 7)).
Proof.
  apply (other_players_untouched 1001 (bytes "alice") 50
           (record_bytes (bytes "alice") 100 ++ record_bytes (bytes "bob") 7) true
           (name_to_search (bytes "bob"))).
  - right. exists (firstn 41 (record_bytes (bytes "alice") 100
                               ++ record_bytes (bytes "bob") 7)). reflexivity.
  - vm_compute. discriminate.
Defined.

(** X14. With every call on the file succeeding, [adjust_score] does
    all or nothing. It succeeds exactly when the name is accepted, the
    file opens, and either no line matches or the first line that matches
    holds a valid score whose sum with delta [check_sum] accepts; in every
    other case it returns 0 and the file is as it was, nothing written. *)
Theorem all_or_nothing (uid : Z) (name : list ascii) (delta : Z)
    (data : list ascii) (openable : bool) :
  let ok :=
    validate_name name = 1 /\ openable = true
    /\ match first_match (name_to_search name) 0 (split_lines data) with
       | None => True
       | Some (_, m) => get_score m <> INT_MIN /\ check_sum (get_score m) delta <> 0
       end in
  exists r w',
    adjust_score uid name delta (initial_world data openable []) = Some (r, w')
    /\ ((ok /\ r = (1, None))
        \/ (~ ok /\ fst r = 0 /\ file_data w' = data
            /\ existsb is_write (trace w') = false)).
Proof.
  cbv zeta.
  destruct (Z.eq_dec (validate_name name) 1) as [Hv|Hv].
  2: { unfold adjust_score.
       replace (negb (validate_name name =? 1)) with true
         by (symmetry; apply negb_true_iff, Z.eqb_neq, Hv).
       unfold ret. eexists _, _. split; [reflexivity|]. right.
       split; [intros [H _]; contradiction|]. repeat split. }
  destruct openable.
  2: { unfold adjust_score. rewrite Hv. change (negb (1 =? 1)) with false. cbv iota.
       unfold bind, fopen, ret. cbn [can_open initial_world]. rewrite andb_false_r.
       eexists _, _. split; [reflexivity|]. right.
       split; [intros (_ & H & _); discriminate H|]. repeat split. }
  pose proof (adjust_score_no_fault uid name delta data Hv) as H.
  destruct (first_match (name_to_search name) 0 (split_lines data)) as [[off m]|].
  - destruct ((get_score m =? INT_MIN) || (check_sum (get_score m) delta =? 0)) eqn:E.
    + destruct H as (w' & Ha & Hf & Ht). eexists _, w'. split; [exact Ha|]. right.
      split; [|auto]. intros (_ & _ & H1 & H2).
      apply orb_true_iff in E as [E|E]; apply Z.eqb_eq in E; contradiction.
    + destruct H as (w' & ls1 & ls2 & Ha & _). eexists _, w'. split; [exact Ha|]. left.
      apply orb_false_iff in E as [E1 E2]. apply Z.eqb_neq in E1, E2. auto.
  - destruct H as (w' & Ha & _). eexists _, w'. split; [exact Ha|]. left. auto.
Qed.

(** ** Whatever the outcomes of the calls *)

(** X15. Whatever the name, the delta, the file and the outcomes of the
    calls on it, [adjust_score] returns 1 and leaves [*message] alone, or
    returns 0 with one of its five messages in [*message], none of them
    cut by [handle_message]. *)
Theorem result_contract (uid : Z) (name : list ascii) (delta : Z)
    (data : list ascii) (openable : bool) (fs : list io_fault) :
  exists r w',
    adjust_score uid name delta (initial_world data openable fs) = Some (r, w')
    /\ (r = (1, None)
        \/ exists msg,
             r = (0, Some msg)
             /\ In msg [("Player name invalid" ++ nl)%string;
                        "File open error"%string;
                        ("Error found in record" ++ nl)%string;
                        ("File seek error" ++ nl)%string;
                        ("Error writing new record" ++ nl)%string]).
Proof.
  destruct (adjust_score_spec uid name delta data openable fs) as (r & w' & H & Hr & _).
  now exists r, w'.
Qed.

(** X16. Whatever the outcomes of the calls on the file, a write
    that fails part-way among them, a call of [adjust_score] changes one
    stretch of at most 21 bytes of the file and nothing else: the bytes
    before it and after it are as they were, and the stretch does not get
    shorter, so that the file never shrinks and grows by 21 bytes at
    most. *)
Theorem change_is_local (uid : Z) (name : list ascii) (delta : Z)
    (data : list ascii) (openable : bool) (fs : list io_fault) :
  exists r w' pre old new post,
    adjust_score uid name delta (initial_world data openable fs) = Some (r, w')
    /\ data = pre ++ old ++ post
    /\ file_data w' = pre ++ new ++ post
    /\ (length old <= length new <= 21)%nat
    /\ (length data <= length (file_data w') <= length data + 21)%nat.
Proof.
  destruct (adjust_score_spec uid name delta data openable fs)
    as (r & w' & H & _ & pre & old & new & post & Hd & Hf & Hl).
  exists r, w', pre, old, new, post. repeat split; try assumption; try lia.
  - rewrite Hd, Hf, !length_app. lia.
  - rewrite Hd, Hf, !length_app. lia.
Qed.

(** ** main *)

(** X17. [main] keeps the newline that [fgets] reads: for every input
    whose first line is at most 58 characters and ends with a newline,
    whatever the characters, [main] prints its prompt and the message for
    an invalid name, exits with [EXIT_FAILURE], and the scores file is
    not opened. *)
Theorem main_newline_rejected (line rest : list ascii) (w : world) :
  forallb (fun c => negb (c =? LF)%char && negb (c =? NUL)%char) line = true ->
  (length line <= 58)%nat ->
  main (line ++ LF :: rest) w
  = Some (EXIT_FAILURE,
          log (EvStdout (("Player name invalid" ++ nl) ++ nl))
            (log (EvStdout ("Enter player name: " ++ nl)) w)).
Proof.
  intros Hc Hl.
  assert (HLF : forallb (fun c => negb (c =? LF)%char) line = true).
  { apply forallb_forall. intros c Hin. rewrite forallb_forall in Hc.
    specialize (Hc c Hin). now apply andb_prop in Hc. }
  assert (HNUL : forallb (fun c => negb (c =? NUL)%char) (line ++ [LF]) = true).
  { rewrite forallb_app. cbn [forallb]. change (negb (LF =? NUL)%char) with true.
    rewrite !andb_true_r. apply forallb_forall. intros c Hin.
    rewrite forallb_forall in Hc. specialize (Hc c Hin). now apply andb_prop in Hc. }
  unfold main, fgets, bind at 1, printf. change (60 - 1)%nat with 59%nat.
  rewrite (fgets_line_newline line rest 59 HLF) by lia.
  destruct (line ++ LF :: rest) as [|c0 t0] eqn:E0;
    [destruct line; discriminate|].
  set (buf := (line ++ [LF]) ++ NUL :: skipn (length (line ++ [LF]) + 1) (repeat NUL 60)).
  assert (Hcs : c_string buf = line ++ [LF]).
  { unfold c_string, buf. rewrite (strlen_padded _ _ HNUL).
    rewrite firstn_app, Nat.sub_diag, firstn_all. cbn [firstn]. apply app_nil_r. }
  assert (Hv : validate_name buf = 0).
  { rewrite validate_name_spec, Hcs, existsb_isspace_newline.
    now rewrite orb_true_r. }
  unfold bind, adjust_score. rewrite Hv. reflexivity.
Qed.

Lemma main_newline_rejected_witness :
  main (bytes "alice" ++ LF :: bytes "more")
    (initial_world (record_bytes (bytes "alice") 100) true [])
  = Some (EXIT_FAILURE,
          log (EvStdout (("Player name invalid" ++ nl) ++ nl))
            (log (EvStdout ("Enter player name: " ++ nl))
               (initial_world (record_bytes (bytes "alice") 100) true []))).
Proof.
  apply (main_newline_rejected (bytes "alice") (bytes "more")).
  - reflexivity.
  - vm_compute. lia.
Defined.

(** ** More on the parser, the name and the composition of calls *)

(** X18. A string in which [strtol] finds no digit to convert, a sign
    alone or a sign before something else among them, is invalid. *)
Theorem score_strtol_no_number (v : Z) (sg : sign) (rest : list ascii) :
  isdigit (load rest 0) = false ->
  (sg = NoSign -> load rest 0 <> "+"%char /\ load rest 0 <> "-"%char) ->
  score_strtol v (sign_text sg ++ rest) = (SCORE_INVALID, v).
Proof.
  intros Hd Hs. unfold score_strtol.
  destruct ((load (sign_text sg ++ rest) 0 =? NUL)%char
            || isspace (load (sign_text sg ++ rest) 0)) eqn:E0; [reflexivity|].
  apply orb_false_iff in E0 as [En Esp].
  assert (Hst : strtol (sign_text sg ++ rest) = (0, false, sign_text sg ++ rest)).
  { unfold strtol. destruct sg; cbn [sign_text app] in *.
    - destruct (Hs eq_refl) as [Hp Hm].
      destruct rest as [|c rest]; [reflexivity|].
      change (load (c :: rest) 0) with c in *. cbn [skip_space]. rewrite Esp.
      apply Ascii.eqb_neq in Hp, Hm. rewrite Hp, Hm.
      change (load (c :: rest) 0) with c. now rewrite Hd.
    - cbn [skip_space]. change (isspace "+") with false. cbv iota.
      change ("+" =? "-")%char with false. change ("+" =? "+")%char with true.
      cbv iota. now rewrite Hd.
    - cbn [skip_space]. change (isspace "-") with false. cbv iota.
      change ("-" =? "-")%char with true. cbv iota. now rewrite Hd. }
  rewrite Hst. change (0 >? INT_MAX) with false. change (0 <? SCORE_LOW_BOUND) with false.
  cbn [orb andb]. now rewrite En.
Qed.

Lemma score_strtol_no_number_witness :
  score_strtol 0 (sign_text Minus ++ bytes "x1") = (SCORE_INVALID, 0)
  /\ score_strtol 0 (sign_text NoSign ++ bytes "abc") = (SCORE_INVALID, 0).
Proof.
  split.
  - apply (score_strtol_no_number 0 Minus (bytes "x1")).
    + reflexivity.
    + discriminate.
  - apply (score_strtol_no_number 0 NoSign (bytes "abc")).
    + reflexivity.
    + intros _. split; discriminate.
Defined.

(** X19. [adjust_score] looks at the name up to its terminator only:
    two buffers that hold the same string, whatever the bytes after it,
    are the same name to it. *)
Theorem adjust_score_c_string (uid : Z) (n1 n2 : list ascii) (delta : Z) (w : world) :
  c_string n1 = c_string n2 ->
  adjust_score uid n1 delta w = adjust_score uid n2 delta w.
Proof.
  intros H. apply adjust_score_name.
  - rewrite !validate_name_spec, <- !length_c_string. now rewrite H.
  - rewrite !name_to_search_pad. now rewrite H.
Qed.

Lemma adjust_score_c_string_witness :
  adjust_score 1001 (bytes "bob" ++ NUL :: bytes "junk") 5 (initial_world [] true [])
  = adjust_score 1001 (bytes "bob") 5 (initial_world [] true []).
Proof.
  apply (adjust_score_c_string 1001 (bytes "bob" ++ NUL :: bytes "junk") (bytes "bob")).
  reflexivity.
Defined.

(** X20. Calls compose: with every call on the file succeeding, adjusting
    a player whose record holds the valid score [s] by [d1] and then by
    [d2] leaves the file that one call with [d1 + d2] leaves, when
    [s + d1] and [s + d1 + d2] are within the bounds. *)
Theorem adjust_composes (uid : Z) (name : list ascii) (d1 d2 : Z)
    (data : list ascii) (off : nat) (m : list ascii) (s : Z) :
  validate_name name = 1 ->
  INT_MIN <= d1 <= INT_MAX -> INT_MIN <= d2 <= INT_MAX ->
  INT_MIN <= d1 + d2 <= INT_MAX ->
  first_match (name_to_search name) 0 (split_lines data) = Some (off, m) ->
  get_score m = s -> s <> INT_MIN ->
  SCORE_LOW_BOUND <= s + d1 <= INT_MAX ->
  SCORE_LOW_BOUND <= s + d1 + d2 <= INT_MAX ->
  exists w1 w2 w12,
    adjust_score uid name d1 (initial_world data true []) = Some ((1, None), w1)
    /\ adjust_score uid name d2 (initial_world (file_data w1) true [])
       = Some ((1, None), w2)
    /\ adjust_score uid name (d1 + d2) (initial_world data true [])
       = Some ((1, None), w12)
    /\ file_data w2 = file_data w12.
Proof.
  intros Hv H1 H2 H12 Hm Hs Hne Hs1 Hs12.
  destruct (update_in_place_spec uid name d1 data off m s Hv H1 Hm Hs Hne Hs1)
    as (w1 & Ha1 & Hf1 & Hoff & _ & Hg1 & Hm1 & _).
  assert (Hne1 : s + d1 <> INT_MIN) by (unfold SCORE_LOW_BOUND, INT_MIN in *; lia).
  destruct (update_in_place_spec uid name d2 (file_data w1) off _ (s + d1)
              Hv H2 Hm1 Hg1 Hne1 Hs12)
    as (w2 & Ha2 & Hf2 & _).
  destruct (update_in_place_spec uid name (d1 + d2) data off m s Hv H12 Hm Hs Hne
              ltac:(lia))
    as (w12 & Ha12 & Hf12 & _).
  exists w1, w2, w12. repeat split; try assumption.
  rewrite Hf2, Hf12, Hf1.
  assert (L : length (firstn off data) = off) by (rewrite length_firstn; lia).
  rewrite firstn_app, L, Nat.sub_diag, firstn_all2 by lia.
  cbn [firstn]. rewrite app_nil_r.
  rewrite skipn_app, skipn_all2 by lia.
  rewrite L. replace (off + 21 - off)%nat with 21%nat by lia.
  rewrite skipn_app, skipn_all2 by (rewrite length_record_bytes; lia).
  rewrite length_record_bytes, Nat.sub_diag. cbn [skipn app].
  now rewrite Z.add_assoc.
Qed.

Lemma adjust_composes_witness :
  exists w1 w2 w12,
    adjust_score 1001 (bytes "alice") 50
      (initial_world (record_bytes (bytes "alice") 100) true [])
    = Some ((1, None), w1)
    /\ adjust_score 1001 (bytes "alice") (-200) (initial_world (file_data w1) true [])
       = Some ((1, None), w2)
    /\ adjust_score 1001 (bytes "alice") (50 + -200)
         (initial_world (record_bytes (bytes "alice") 100) true [])
       = Some ((1, None), w12)
    /\ file_data w2 = file_data w12.
Proof.
  apply (adjust_composes 1001 (bytes "alice") 50 (-200)
           (record_bytes (bytes "alice") 100) O (record_bytes (bytes "alice") 100) 100).
  - reflexivity.
  - split; discriminate.
  - split; discriminate.
  - split; discriminate.
  - reflexivity.
  - reflexivity.
  - discriminate.
  - split; discriminate.
  - split; discriminate.
Defined.
